(** * filey: path containment, file operations, live tail and access gate

    A shallow embedding of [main.py] (a Tornado file browser) together with
    the POSIX flavour of the [os.path] functions it calls, a small store of
    directory entries standing for the file system, and Python's text-mode
    line reading.  Strings are [string], a sequence of bytes: a Python
    [str] is held in UTF-8; the file system is an association list from
    physical locations (lists of names below [/]) to nodes. *)

From Stdlib Require Import String Ascii List Bool Arith ZArith Lia Permutation.
Import ListNotations.
Open Scope list_scope.
Open Scope string_scope.

(** ** [posixpath]: the string functions of [os.path] *)

Module PosixPath.

Definition sep : ascii := "/"%char.
Definition curdir : string := ".".
Definition pardir : string := "..".

Definition is_sep (c : ascii) : bool := Ascii.eqb c sep.

(** [s.startswith('/')] *)
Definition startswith_sep (s : string) : bool :=
  match s with
  | String c _ => is_sep c
  | EmptyString => false
  end.

(** [s.endswith('/')] *)
Fixpoint endswith_sep (s : string) : bool :=
  match s with
  | EmptyString => false
  | String c EmptyString => is_sep c
  | String _ s' => endswith_sep s'
  end.

Definition isabs (s : string) : bool := startswith_sep s.

(** One round of the loop of [join(a, *p)]:
    [if b.startswith(sep): path = b
     elif not path or path.endswith(sep): path += b
     else: path += sep + b]. *)
Definition join_step (path b : string) : string :=
  if startswith_sep b then b
  else if (path =? "") || endswith_sep path then path ++ b
  else path ++ "/" ++ b.

Definition join (a : string) (p : list string) : string :=
  fold_left join_step p a.

(** [s.split('/')]: never empty, [''.split('/') = ['']]. *)
Fixpoint str_split (s : string) : list string :=
  match s with
  | EmptyString => [EmptyString]
  | String c s' =>
      if is_sep c then EmptyString :: str_split s'
      else match str_split s' with
           | x :: xs => String c x :: xs
           | [] => [String c EmptyString]
           end
  end.

(** [name, _, rest = s.partition('/')] *)
Fixpoint partition_sep (s : string) : string * string :=
  match s with
  | EmptyString => (EmptyString, EmptyString)
  | String c s' =>
      if is_sep c then (EmptyString, s')
      else let (n, r) := partition_sep s' in (String c n, r)
  end.

(** [s.rfind('/') + 1]: the index just after the last separator, [0] when
    there is none. *)
Fixpoint rfind_succ (s : string) : nat :=
  match s with
  | EmptyString => 0
  | String c s' =>
      match rfind_succ s' with
      | 0 => if is_sep c then 1 else 0
      | S k => S (S k)
      end
  end.

(** [s.rstrip('/')] *)
Fixpoint rstrip_sep (s : string) : string :=
  match s with
  | EmptyString => EmptyString
  | String c s' =>
      match rstrip_sep s' with
      | EmptyString => if is_sep c then EmptyString else String c EmptyString
      | r => String c r
      end
  end.

(** [s == sep * len(s)] *)
Fixpoint all_sep (s : string) : bool :=
  match s with
  | EmptyString => true
  | String c s' => is_sep c && all_sep s'
  end.

(** The head of [split] and [dirname]:
    [if head and head != sep*len(head): head = head.rstrip(sep)]. *)
Definition strip_head (head : string) : string :=
  if negb (head =? "") && negb (all_sep head) then rstrip_sep head else head.

Definition split (p : string) : string * string :=
  let i := rfind_succ p in
  let head := substring 0 i p in
  let tail := substring i (String.length p - i) p in
  (strip_head head, tail).

Definition basename (p : string) : string :=
  let i := rfind_succ p in substring i (String.length p - i) p.

Definition dirname (p : string) : string :=
  let i := rfind_succ p in strip_head (substring 0 i p).

(** [normpath]: the number of leading slashes kept is 0, 1 or 2 (POSIX
    keeps exactly two, folds three or more into one). *)
Definition initial_slashes (path : string) : nat :=
  match path with
  | String c1 (String c2 (String c3 _)) =>
      if is_sep c1 then (if is_sep c2 && negb (is_sep c3) then 2 else 1) else 0
  | String c1 (String c2 EmptyString) =>
      if is_sep c1 then (if is_sep c2 then 2 else 1) else 0
  | String c1 EmptyString => if is_sep c1 then 1 else 0
  | EmptyString => 0
  end.

Definition last_is_pardir (comps : list string) : bool :=
  match comps with
  | [] => false
  | _ => last comps EmptyString =? pardir
  end.

Definition is_nil {A} (l : list A) : bool :=
  match l with [] => true | _ => false end.

(** One round of the loop of [normpath] over the components. *)
Definition norm_step (slashes : nat) (new_comps : list string) (comp : string)
  : list string :=
  if (comp =? "") || (comp =? curdir) then new_comps
  else if negb (comp =? pardir)
          || (Nat.eqb slashes 0 && is_nil new_comps)
          || last_is_pardir new_comps
       then (new_comps ++ [comp])%list
       else removelast new_comps.

Fixpoint repeat_sep (n : nat) : string :=
  match n with
  | 0 => EmptyString
  | S k => String sep (repeat_sep k)
  end.

Definition normpath (path : string) : string :=
  if path =? "" then curdir
  else
    let n := initial_slashes path in
    let comps := fold_left (norm_step n) (str_split path) [] in
    let p := repeat_sep n ++ String.concat "/" comps in
    if p =? "" then curdir else p.

(** [abspath] relative to a current directory. *)
Definition abspath (cwd path : string) : string :=
  normpath (if isabs path then path else join cwd [path]).

(** Python's [<] on lists of strings: the first differing pair decides, a
    proper prefix is smaller. *)
Fixpoint list_lt (a b : list string) : bool :=
  match a, b with
  | [], [] => false
  | [], _ :: _ => true
  | _ :: _, [] => false
  | x :: a', y :: b' => if x =? y then list_lt a' b' else String.ltb x y
  end.

(** [min] and [max] keep the first of equal candidates. *)
Definition py_min (l : list (list string)) (d : list string) : list string :=
  match l with
  | [] => d
  | x :: xs => fold_left (fun m y => if list_lt y m then y else m) xs x
  end.

Definition py_max (l : list (list string)) (d : list string) : list string :=
  match l with
  | [] => d
  | x :: xs => fold_left (fun m y => if list_lt m y then y else m) xs x
  end.

(** The loop of [commonpath]:
    [common = s1
     for i, c in enumerate(s1):
         if c != s2[i]: common = s1[:i]; break]
    [None] stands for the [IndexError] of [s2[i]]. *)
Fixpoint common_loop (s1 s2 : list string) : option (list string) :=
  match s1 with
  | [] => Some []
  | c :: s1' =>
      match s2 with
      | [] => None
      | d :: s2' =>
          if c =? d then option_map (cons c) (common_loop s1' s2')
          else Some []
      end
  end.

Definition keep_comp (c : string) : bool :=
  negb (c =? "") && negb (c =? curdir).

Definition all_same (l : list bool) : bool :=
  match l with
  | [] => true
  | b :: bs => forallb (Bool.eqb b) bs
  end.

(** [commonpath(paths)]; [None] is a raised error ([ValueError] on an empty
    sequence or on mixed absolute and relative paths). *)
Definition commonpath (paths : list string) : option string :=
  match paths with
  | [] => None
  | p0 :: _ =>
      let flags := map startswith_sep paths in
      if negb (all_same flags) then None
      else
        let split_paths := map (fun p => filter keep_comp (str_split p)) paths in
        let s1 := py_min split_paths [] in
        let s2 := py_max split_paths [] in
        match common_loop s1 s2 with
        | None => None
        | Some common =>
            Some ((if startswith_sep p0 then "/" else "") ++ String.concat "/" common)
        end
  end.

End PosixPath.

(** ** The file system

    A store of directory entries keyed by physical location (the names from
    [/] down to the entry); [/] itself is always a directory.  Path strings
    are looked up the way the kernel does it, following symbolic links;
    [realpath] is [posixpath.realpath] of CPython 3.11. *)

Module FS.
Import PosixPath.

Inductive node : Type :=
| File (body : string)
| Dir
| Link (target : string).

Definition loc : Type := list string.
Definition store : Type := list (loc * node).

Record fs : Type := mkfs { cwd : string; entries : store }.

Fixpoint loc_eqb (a b : loc) : bool :=
  match a, b with
  | [], [] => true
  | x :: a', y :: b' => (x =? y) && loc_eqb a' b'
  | _, _ => false
  end.

Fixpoint lookup (k : loc) (es : store) : option node :=
  match es with
  | [] => None
  | (k', v) :: es' => if loc_eqb k k' then Some v else lookup k es'
  end.

Definition node_at (f : fs) (k : loc) : option node :=
  match k with
  | [] => Some Dir
  | _ => lookup k (entries f)
  end.

(** [is_prefix a b]: location [b] is [a] or lies below [a]. *)
Fixpoint is_prefix (a b : loc) : bool :=
  match a, b with
  | [], _ => true
  | x :: a', y :: b' => (x =? y) && is_prefix a' b'
  | _ :: _, [] => false
  end.

(** The location an absolute path string spells, read lexically: empty
    names and [.] are skipped, [..] steps up and stays at [/]. *)
Definition key_of (s : string) : loc :=
  fold_left (norm_step 1) (str_split s) [].

Definition locate (f : fs) (s : string) : loc :=
  key_of (if isabs s then s else join (cwd f) [s]).

Definition is_link_here (f : fs) (s : string) : bool :=
  match node_at f (locate f s) with
  | Some (Link _) => true
  | _ => false
  end.

Definition readlink_here (f : fs) (s : string) : string :=
  match node_at f (locate f s) with
  | Some (Link t) => t
  | _ => EmptyString
  end.

(** The dictionary [seen] of [_joinrealpath]: [None] marks a link being
    resolved, [Some p] a link resolved to [p]. *)
Definition seen_t : Type := list (string * option string).

Fixpoint seen_get (k : string) (seen : seen_t) : option (option string) :=
  match seen with
  | [] => None
  | (k', v) :: seen' => if k =? k' then Some v else seen_get k seen'
  end.

Definition str_tail (s : string) : string :=
  match s with
  | String _ r => r
  | EmptyString => EmptyString
  end.

(** [if isabs(rest): rest = rest[1:]; path = sep] *)
Definition enter (path rest : string) : string * string :=
  if isabs rest then ("/", str_tail rest) else (path, rest).

(** The [while rest:] loop of [_joinrealpath] (not strict), with the
    recursive call for a link's target; [lstat(newpath)] looks at the entry
    where it stands, [path] being resolved already.  The result is the
    path, the [ok] flag and the dictionary; [None] only when [fuel] runs
    out. *)
Fixpoint walk (fuel : nat) (f : fs) (path rest : string) (seen : seen_t)
  : option (string * bool * seen_t) :=
  match fuel with
  | 0 => None
  | S n =>
      if rest =? "" then Some (path, true, seen)
      else
        let (name, rest') := partition_sep rest in
        if (name =? "") || (name =? curdir) then walk n f path rest' seen
        else if name =? pardir then
          let path' :=
            if path =? "" then pardir
            else let (h, t) := split path in
                 if t =? pardir then join h [pardir; pardir] else h in
          walk n f path' rest' seen
        else
          let newpath := join path [name] in
          if negb (is_link_here f newpath) then walk n f newpath rest' seen
          else
            match seen_get newpath seen with
            | Some (Some p) => walk n f p rest' seen
            | Some None => Some (join newpath [rest'], false, seen)
            | None =>
                let (p0, r0) := enter path (readlink_here f newpath) in
                match walk n f p0 r0 ((newpath, None) :: seen) with
                | None => None
                | Some (p, false, seen') => Some (join p [rest'], false, seen')
                | Some (p, true, seen') =>
                    walk n f p rest' ((newpath, Some p) :: seen')
                end
            end
  end.

(** Links of the store and the longest target among them bound the work. *)
Fixpoint link_locs (es : store) : list loc :=
  match es with
  | [] => []
  | (k, Link _) :: es' => k :: link_locs es'
  | _ :: es' => link_locs es'
  end.

Fixpoint max_target (es : store) : nat :=
  match es with
  | [] => 0
  | (_, Link t) :: es' => Nat.max (String.length t) (max_target es')
  | _ :: es' => max_target es'
  end.

Definition walk_fuel (f : fs) (rest : string) : nat :=
  String.length rest
  + List.length (link_locs (entries f)) * (max_target (entries f) + 2) + 1.

(** [_joinrealpath(path, rest, strict=False, seen)].  The walk is given
    [walk_fuel]; for an absolute [rest] that is enough and the last case
    never applies. *)
Definition joinrealpath (f : fs) (path rest : string) (seen : seen_t)
  : string * bool * seen_t :=
  let (p0, r0) := enter path rest in
  match walk (walk_fuel f r0) f p0 r0 seen with
  | Some r => r
  | None => (p0, false, seen)
  end.

(** [os.path.realpath(filename)], [strict=False]. *)
Definition realpath (f : fs) (filename : string) : string :=
  let '(p, _, _) := joinrealpath f EmptyString filename [] in
  abspath (cwd f) p.

(** [os.lstat] raises [ValueError] ("embedded null byte") on a path with
    a NUL, and [_joinrealpath] catches [OSError] only. *)
Fixpoint has_nul (s : string) : bool :=
  match s with
  | EmptyString => false
  | String c s' => Nat.eqb (nat_of_ascii c) 0 || has_nul s'
  end.

(** Whether the walk of [_joinrealpath] meets such a path: the same
    rounds as [walk], looking only at the [lstat] of each.  [None] when
    [fuel] runs out. *)
Fixpoint walk_raises (fuel : nat) (f : fs) (path rest : string) (seen : seen_t)
  : option bool :=
  match fuel with
  | 0 => None
  | S n =>
      if rest =? "" then Some false
      else
        let (name, rest') := partition_sep rest in
        if (name =? "") || (name =? curdir) then walk_raises n f path rest' seen
        else if name =? pardir then
          let path' :=
            if path =? "" then pardir
            else let (h, t) := split path in
                 if t =? pardir then join h [pardir; pardir] else h in
          walk_raises n f path' rest' seen
        else
          let newpath := join path [name] in
          if has_nul newpath then Some true
          else if negb (is_link_here f newpath) then
            walk_raises n f newpath rest' seen
          else
            match seen_get newpath seen with
            | Some (Some p) => walk_raises n f p rest' seen
            | Some None => Some false
            | None =>
                let (p0, r0) := enter path (readlink_here f newpath) in
                match walk_raises n f p0 r0 ((newpath, None) :: seen) with
                | None => None
                | Some true => Some true
                | Some false =>
                    match walk n f p0 r0 ((newpath, None) :: seen) with
                    | None => None
                    | Some (_, false, _) => Some false
                    | Some (p, true, seen') =>
                        walk_raises n f p rest' ((newpath, Some p) :: seen')
                    end
                end
            end
  end.

(** Whether [os.path.realpath(filename)] raises [ValueError]. *)
Definition realpath_raises (f : fs) (filename : string) : bool :=
  let (p0, r0) := enter EmptyString filename in
  match walk_raises (walk_fuel f r0) f p0 r0 [] with
  | Some b => b
  | None => false
  end.

(** *** Path lookup by the kernel

    The names of a path are walked from [/] (or from the working
    directory): an intermediate name must be a directory or a link to
    follow, [..] steps to the parent, and at most [max_links] links are
    followed ([ELOOP] beyond).  [follow_last] tells whether a link in the
    last place is followed ([stat], [open]) or returned ([lstat],
    [rename], [unlink]); [lenient] lets missing intermediate names pass,
    as [os.makedirs] creates them.  The entry in the last place need not
    exist.  [None] is a failed lookup. *)

Definition max_links : nat := 40.

Fixpoint namei (budget : nat) (f : fs) (lenient follow_last : bool)
  : loc -> list string -> option loc :=
  fix go (cur : loc) (rest : list string) {struct rest} : option loc :=
    match rest with
    | [] => Some cur
    | name :: rest' =>
        if (name =? "") || (name =? curdir) then go cur rest'
        else if name =? pardir then go (removelast cur) rest'
        else
          let child := (cur ++ [name])%list in
          let last := is_nil rest' in
          match node_at f child with
          | Some (Link t) =>
              if last && negb follow_last then Some child
              else
                match budget with
                | 0 => None
                | S b =>
                    if t =? "" then None
                    else namei b f lenient follow_last
                           (if isabs t then [] else cur)
                           (str_split t ++ rest')%list
                end
          | Some Dir => go child rest'
          | Some (File _) => if last then Some child else None
          | None => if last || lenient then go child rest' else None
          end
    end.

Definition lookup_path (f : fs) (lenient follow_last : bool) (s : string)
  : option loc :=
  if s =? "" then None
  else namei max_links f lenient follow_last
         (if isabs s then [] else key_of (cwd f)) (str_split s).

(** Where a path leads, every link followed. *)
Definition resolve (f : fs) (s : string) : option loc :=
  lookup_path f false true s.

(** Where the entry named by a path stands, a link in the last place not
    followed. *)
Definition resolve_entry (f : fs) (s : string) : option loc :=
  lookup_path f false false s.

Definition bind {A B} (o : option A) (g : A -> option B) : option B :=
  match o with
  | Some a => g a
  | None => None
  end.

Definition stat (f : fs) (s : string) : option node :=
  bind (resolve f s) (node_at f).

Definition lstat (f : fs) (s : string) : option node :=
  bind (resolve_entry f s) (node_at f).

Definition islink (f : fs) (s : string) : bool :=
  match lstat f s with Some (Link _) => true | _ => false end.

Definition isdir (f : fs) (s : string) : bool :=
  match stat f s with Some Dir => true | _ => false end.

Definition isfile (f : fs) (s : string) : bool :=
  match stat f s with Some (File _) => true | _ => false end.

Definition exists_ (f : fs) (s : string) : bool :=
  match stat f s with Some _ => true | None => false end.

(** *** Operations that change the store

    [None] is a raised [OSError]; the store is unchanged then. *)

Definition with_entries (f : fs) (es : store) : fs := mkfs (cwd f) es.

Definition remove_key (k : loc) (es : store) : store :=
  filter (fun e => negb (loc_eqb k (fst e))) es.

Definition set_node (k : loc) (v : node) (es : store) : store :=
  (k, v) :: remove_key k es.

(** [open(s, 'rb').read()] *)
Definition read_file (f : fs) (s : string) : option string :=
  match stat f s with
  | Some (File b) => Some b
  | _ => None
  end.

(** [with open(s, 'wb') as h: h.write(body)]: the parent must be a
    directory, the target no directory; an existing file is replaced. *)
Definition write_file (f : fs) (s body : string) : option fs :=
  match resolve f s with
  | None | Some [] => None
  | Some l =>
      match node_at f (removelast l), node_at f l with
      | Some Dir, None | Some Dir, Some (File _) =>
          Some (with_entries f (set_node l (File body) (entries f)))
      | _, _ => None
      end
  end.

(** [os.makedirs(s, exist_ok=True)]: every missing directory from [/] down
    is created; a name on the way that is no directory is an error. *)
Fixpoint mkdirs (es : store) (pre rest : loc) : option store :=
  match rest with
  | [] => Some es
  | n :: r =>
      let k := (pre ++ [n])%list in
      match lookup k es with
      | Some Dir => mkdirs es k r
      | None => mkdirs ((k, Dir) :: es) k r
      | Some _ => None
      end
  end.

Definition makedirs (f : fs) (s : string) : option fs :=
  match lookup_path f true true s with
  | None => None
  | Some l => option_map (with_entries f) (mkdirs (entries f) [] l)
  end.

(** [os.remove(s)]: unlinks a file or a link, never a directory. *)
Definition remove (f : fs) (s : string) : option fs :=
  match resolve_entry f s with
  | None | Some [] => None
  | Some k =>
      match node_at f k with
      | Some (File _) | Some (Link _) =>
          Some (with_entries f (remove_key k (entries f)))
      | _ => None
      end
  end.

(** [shutil.rmtree(s)]: the directory and everything below it go; the
    flag tells whether it raised (not a directory, a link, or [/] itself,
    whose contents are gone by then). *)
Definition rmtree (f : fs) (s : string) : fs * bool :=
  match resolve_entry f s with
  | None => (f, true)
  | Some k =>
      match node_at f k with
      | Some Dir =>
          (with_entries f
             (filter (fun e => negb (is_prefix k (fst e))) (entries f)),
           is_nil k)
      | _ => (f, true)
      end
  end.

Definition has_children (k : loc) (es : store) : bool :=
  existsb (fun e => is_prefix k (fst e) && negb (loc_eqb k (fst e))) es.

(** Entries at or below [src] move to the same place at or below [dst]. *)
Definition rebase (src dst : loc) (e : loc * node) : loc * node :=
  if is_prefix src (fst e)
  then ((dst ++ skipn (List.length src) (fst e))%list, snd e)
  else e.

(** [os.rename(src, dst)] as rename(2): neither end is followed when it is
    a link; a directory replaces only an empty directory, a file or link
    never a directory; a directory does not move below itself. *)
Definition rename (f : fs) (src dst : string) : option fs :=
  match resolve_entry f src, resolve_entry f dst with
  | Some ((_ :: _) as ks), Some ((_ :: _) as kd) =>
      match node_at f ks, node_at f (removelast kd) with
      | Some n, Some Dir =>
          if loc_eqb ks kd then Some f
          else
            let es := entries f in
            let fits :=
              match n, node_at f kd with
              | _, None => true
              | Dir, Some Dir => negb (has_children kd es)
              | Dir, Some _ => false
              | _, Some Dir => false
              | _, Some _ => true
              end in
            if fits && negb (is_prefix ks kd)
            then Some (with_entries f
                         (map (rebase ks kd)
                            (filter (fun e => negb (is_prefix kd (fst e))) es)))
            else None
      | _, _ => None
      end
  | _, _ => None
  end.

(** [os.listdir(s)]: the names directly below a directory. *)
Definition listdir (f : fs) (s : string) : option (list string) :=
  match resolve f s with
  | None => None
  | Some k =>
      match node_at f k with
      | Some Dir =>
          Some (flat_map
                  (fun e =>
                     if is_prefix k (fst e)
                        && Nat.eqb (List.length (fst e)) (S (List.length k))
                     then [last (fst e) EmptyString] else [])
                  (entries f))
      | _ => None
      end
  end.

End FS.

(** ** Text-mode reading

    [open(path, 'r', encoding='utf-8', errors='replace')] decodes the
    bytes of the file as UTF-8, every ill-formed sequence giving one
    U+FFFD, and reads with universal newlines: a line ends at ["\n"],
    ["\r\n"] or ["\r"], and the terminator is handed over as ["\n"].  A
    [string] is a sequence of bytes; text is held in its UTF-8 encoding,
    which is what [write_message] and [render] put on the wire. *)

Module TextIO.

Definition lf : ascii := "010"%char.
Definition cr : ascii := "013"%char.
Definition nl : string := String lf EmptyString.

Definition between (lo hi : nat) (c : ascii) : bool :=
  Nat.leb lo (nat_of_ascii c) && Nat.leb (nat_of_ascii c) hi.

(** What a first byte asks for: the number of continuation bytes and the
    range of the second byte (the well-formed sequences of the Unicode
    standard: no overlong form, no surrogate, nothing above U+10FFFF);
    [None] for a byte that cannot start a character. *)
Definition lead (c : ascii) : option (nat * nat * nat) :=
  let b := nat_of_ascii c in
  if Nat.ltb b 128 then Some (0, 0, 0)
  else if Nat.ltb b 194 then None
  else if Nat.ltb b 224 then Some (1, 128, 191)
  else if Nat.eqb b 224 then Some (2, 160, 191)
  else if Nat.eqb b 237 then Some (2, 128, 159)
  else if Nat.ltb b 240 then Some (2, 128, 191)
  else if Nat.eqb b 240 then Some (3, 144, 191)
  else if Nat.ltb b 244 then Some (3, 128, 191)
  else if Nat.eqb b 244 then Some (3, 128, 143)
  else None.

(** How many of the next bytes continue the sequence, [n] at most: the
    first within [lo..hi], the others within [80..BF]. *)
Fixpoint conts_run (n lo hi : nat) (s : string) : nat :=
  match n, s with
  | S n', String c s' =>
      if between lo hi c then S (conts_run n' 128 191 s') else 0
  | _, _ => 0
  end.

(** The character that starts with byte [c] before [s']: whether it is
    well formed, and how many of the bytes of [s'] belong to it.  An
    ill-formed sequence ends where the decoder stops: at the first byte
    that cannot continue it, or at the end of the data. *)
Definition char_at (c : ascii) (s' : string) : bool * nat :=
  match lead c with
  | None => (false, 0)
  | Some (n, lo, hi) =>
      let k := conts_run n lo hi s' in
      if Nat.eqb k n then (true, n) else (false, k)
  end.

(** U+FFFD in UTF-8. *)
Definition replacement : string :=
  String (ascii_of_nat 239) (String (ascii_of_nat 191)
    (String (ascii_of_nat 189) EmptyString)).

(** One [readline()] on the bytes not yet read: the line and the bytes
    left.  Without a terminator the rest of the text is the line.  Inside
    a character, [n] bytes of it are still to come and are kept (a
    well-formed character) or dropped (an ill-formed sequence, already
    replaced). *)
Fixpoint read_line_in (keep : bool) (n : nat) (s : string) : string * string :=
  match s with
  | EmptyString => (EmptyString, EmptyString)
  | String c s' =>
      match n with
      | S n' =>
          let (l, r) := read_line_in keep n' s' in
          (if keep then String c l else l, r)
      | 0 =>
          if Ascii.eqb c lf then (nl, s')
          else if Ascii.eqb c cr then
            match s' with
            | String c2 s'' => if Ascii.eqb c2 lf then (nl, s'') else (nl, s')
            | EmptyString => (nl, EmptyString)
            end
          else
            let (ok, m) := char_at c s' in
            let (l, r) := read_line_in ok m s' in
            (if ok then String c l else replacement ++ l, r)
      end
  end.

Definition read_line (s : string) : string * string := read_line_in true 0 s.

(** Iterating over the file: [readline()] until it returns [''].  Every
    round takes at least one byte, so the number of bytes is fuel
    enough. *)
Fixpoint read_lines (fuel : nat) (s : string) : list string :=
  match fuel with
  | 0 => []
  | S n =>
      if s =? "" then []
      else let (l, r) := read_line s in l :: read_lines n r
  end.

Definition iter_lines (s : string) : list string :=
  read_lines (String.length s) s.

(** [f.read()] in text mode: the decoded text, its line ends translated. *)
Definition read_text (s : string) : string :=
  String.concat "" (iter_lines s).

(** [s[n:]] *)
Fixpoint skip (n : nat) (s : string) : string :=
  match n, s with
  | 0, _ => s
  | S k, String _ s' => skip k s'
  | S _, EmptyString => EmptyString
  end.

(** An open text file: the read position and whether it was closed. *)
Record handle : Type := mkhandle { pos : nat; closed : bool }.

Definition tell (h : handle) : nat := pos h.
Definition seek (h : handle) (n : nat) : handle := mkhandle n (closed h).
Definition close (h : handle) : handle := mkhandle (pos h) true.

(** [h.readline()] on a file whose text is [data] now. *)
Definition readline (data : string) (h : handle) : string * handle :=
  let rest := skip (pos h) data in
  let (l, r) := read_line rest in
  (l, mkhandle (pos h + (String.length rest - String.length r)) (closed h)).

(** [collections.deque(iterable, maxlen)] *)
Definition deque_append (maxlen : nat) (d : list string) (x : string)
  : list string :=
  match maxlen with
  | 0 => []
  | _ => if Nat.ltb (List.length d) maxlen then (d ++ [x])%list
         else (List.tl d ++ [x])%list
  end.

Definition deque (items : list string) (maxlen : nat) : list string :=
  fold_left (deque_append maxlen) items [].

End TextIO.

(** ** [main.py]: the request handlers

    The HTTP handlers are given for requests on which [os.path.realpath]
    returns; where it raises [ValueError] (a path with a NUL byte) the
    exception leaves the handler, which [FileStreamHandler_open] below
    spells out. *)

Module Server.
Import PosixPath FS TextIO.

Inductive page : Type :=
| LoginPage (error : option string)
| DirectoryPage (path : string) (files : list (string * bool))
| FilePage (filename path file_content : string) (start_streaming : bool).

(** What a handler leaves behind: a status with headers and body, a
    rendered template, a redirect, the two answers of
    [@tornado.web.authenticated] without a user, or an exception that left
    the handler. *)
Inductive response : Type :=
| Reply (status : nat) (headers : list (string * string)) (body : string)
| Render (p : page)
| Redirect (url : string)
| ToLogin
| HTTPError (status : nat)
| Uncaught.

(** Python truth of an optional string. *)
Definition truthy (o : option string) : bool :=
  match o with
  | Some s => negb (s =? "")
  | None => false
  end.

Definition authenticated {A} (is_get : bool) (current_user : option string)
  (rejected : response -> A) (handler : A) : A :=
  if truthy current_user then handler
  else rejected (if is_get then ToLogin else HTTPError 403).

(** The test every handler repeats:
    [os.path.commonpath([p, base]) != base or os.path.islink(p)];
    [None] when [commonpath] raises. *)
Definition escapes (f : fs) (base p : string) : option bool :=
  match commonpath [p; base] with
  | None => None
  | Some c => Some (negb (c =? base) || islink f p)
  end.

(** [list.sort()] on names. *)
Fixpoint insert_name (x : string) (l : list string) : list string :=
  match l with
  | [] => [x]
  | y :: l' => if String.ltb x y then x :: l else y :: insert_name x l'
  end.

Definition sort_names (l : list string) : list string :=
  fold_right insert_name [] l.

Definition dquote_char : ascii := ascii_of_nat 34.
Definition dquote : string := String dquote_char EmptyString.

(** Tornado's [set_header] raises [ValueError] ("Unsafe header value")
    unless every character of the value is a tab, a printable ASCII
    character or one of U+0080..U+00FF (version 6.5 and later; before, it
    refused the characters below U+0020 only).  The value is a Python
    [str]; held here in UTF-8, its characters U+0080..U+00FF are the
    two-byte sequences that start with [C2] or [C3]. *)
Fixpoint header_value_ok (v : string) : bool :=
  match v with
  | EmptyString => true
  | String c v' =>
      if Nat.eqb (nat_of_ascii c) 9 || between 32 126 c then header_value_ok v'
      else if between 194 195 c then
        match v' with
        | String c2 v'' => between 128 191 c2 && header_value_ok v''
        | EmptyString => false
        end
      else false
  end.

(** [MainHandler.get(path)] *)
Definition MainHandler_get (f : fs) (ROOT_DIR : string)
  (current_user : option string) (path : string)
  (download stream : option string) : response :=
  authenticated true current_user (fun r => r)
    (let realpath := realpath f (join ROOT_DIR [path]) in
     match escapes f ROOT_DIR realpath with
     | None => Uncaught
     | Some true => Reply 403 [] "Forbidden"
     | Some false =>
         if isdir f realpath then
           match listdir f realpath with
           | None => Uncaught
           | Some files =>
               Render (DirectoryPage path
                         (map (fun f_name =>
                                 (f_name, isdir f (join realpath [f_name])))
                              (sort_names files)))
           end
         else if isfile f realpath then
           let filename := basename realpath in
           if truthy download then
             let disposition :=
               "attachment; filename=" ++ dquote ++ filename ++ dquote in
             if negb (header_value_ok disposition) then Uncaught
             else
               match read_file f realpath with
               | None => Uncaught
               | Some content =>
                   Reply 200
                     [("Content-Type", "application/octet-stream");
                      ("Content-Disposition", disposition)]
                     content
               end
           else
             match read_file f realpath with
             | None => Uncaught
             | Some content =>
                 Render (FilePage filename path (read_text content)
                           (match stream with Some _ => true | None => false end))
             end
         else Reply 404 [] "File not found"
     end).

(** The batch entry of a multipart upload: [filename] and [body]. *)
Definition file_info : Type := (string * string)%type.

(** One round of the loop of the drag-and-drop upload; [Some r] ends the
    request with [r], [None] goes on to the next entry. *)
Definition upload_entry (f : fs) (dir_real : string) (info : file_info)
  : fs * option response :=
  let relative_path := fst info in
  let file_body := snd info in
  let final_path_real := realpath f (join dir_real [relative_path]) in
  match escapes f dir_real final_path_real with
  | None => (f, Some Uncaught)
  | Some true => (f, Some (Reply 403 [] ("Forbidden path: " ++ relative_path)))
  | Some false =>
      match makedirs f (dirname final_path_real) with
      | None => (f, Some Uncaught)
      | Some f1 =>
          match write_file f1 final_path_real file_body with
          | None => (f1, Some Uncaught)
          | Some f2 => (f2, None)
          end
      end
  end.

Fixpoint upload_batch (f : fs) (dir_real : string) (file_infos : list file_info)
  : fs * response :=
  match file_infos with
  | [] => (f, Reply 200 [] "Upload successful")
  | info :: more =>
      match upload_entry f dir_real info with
      | (f', Some r) => (f', r)
      | (f', None) => upload_batch f' dir_real more
      end
  end.

(** [UploadHandler.post()]: [files] and [file] are the two form fields. *)
Definition UploadHandler_post (f : fs) (ROOT_DIR : string)
  (current_user : option string) (directory : string)
  (files file : list file_info) : fs * response :=
  authenticated false current_user (fun r => (f, r))
    (match files with
     | [] =>
         match file with
         | [] => (f, Uncaught)
         | info :: _ =>
             let filename := fst info in
             let upload_path := join ROOT_DIR [directory] in
             let realpath_ := realpath f upload_path in
             match escapes f ROOT_DIR realpath_ with
             | None => (f, Uncaught)
             | Some true => (f, Reply 403 [] "Forbidden")
             | Some false =>
                 match makedirs f realpath_ with
                 | None => (f, Uncaught)
                 | Some f1 =>
                     let file_realpath := realpath f1 (join realpath_ [filename]) in
                     match escapes f1 ROOT_DIR file_realpath with
                     | None => (f1, Uncaught)
                     | Some true => (f1, Reply 403 [] "Forbidden")
                     | Some false =>
                         match write_file f1 file_realpath (snd info) with
                         | None => (f1, Uncaught)
                         | Some f2 => (f2, Redirect ("/" ++ directory))
                         end
                     end
                 end
             end
         end
     | _ :: _ =>
         let dir_real := realpath f (join ROOT_DIR [directory]) in
         match escapes f ROOT_DIR dir_real with
         | None => (f, Uncaught)
         | Some true => (f, Reply 403 [] "Forbidden")
         | Some false => upload_batch f dir_real files
         end
     end).

(** [self.redirect("/" + parent if parent else "/")] *)
Definition redirect_parent (path : string) : response :=
  let parent := dirname path in
  Redirect (if negb (parent =? "") then "/" ++ parent else "/").

(** [DeleteHandler.post()] *)
Definition DeleteHandler_post (f : fs) (ROOT_DIR : string)
  (current_user : option string) (path : string) : fs * response :=
  authenticated false current_user (fun r => (f, r))
    (let realpath := realpath f (join ROOT_DIR [path]) in
     match escapes f ROOT_DIR realpath with
     | None => (f, Uncaught)
     | Some true => (f, Reply 403 [] "Forbidden")
     | Some false =>
         if isdir f realpath then
           match rmtree f realpath with
           | (f', true) => (f', Uncaught)
           | (f', false) => (f', redirect_parent path)
           end
         else if isfile f realpath then
           match remove f realpath with
           | None => (f, Uncaught)
           | Some f' => (f', redirect_parent path)
           end
         else (f, redirect_parent path)
     end).

(** [RenameHandler.post()] *)
Definition RenameHandler_post (f : fs) (ROOT_DIR : string)
  (current_user : option string) (path new_name : string) : fs * response :=
  authenticated false current_user (fun r => (f, r))
    (let realpath_ := realpath f (join ROOT_DIR [path]) in
     let new_realpath := realpath f (join ROOT_DIR [dirname path; new_name]) in
     match escapes f ROOT_DIR realpath_ with
     | None => (f, Uncaught)
     | Some true => (f, Reply 403 [] "Forbidden")
     | Some false =>
         match escapes f ROOT_DIR new_realpath with
         | None => (f, Uncaught)
         | Some true => (f, Reply 403 [] "Forbidden")
         | Some false =>
             match rename f realpath_ new_realpath with
             | None => (f, Uncaught)
             | Some f' => (f', redirect_parent path)
             end
         end
     end).

(** *** [FileStreamHandler]: the live tail over a WebSocket

    The attributes the handler sets on itself; [file] and [periodic] are
    [None] until assigned ([hasattr] is false).  [periodic] holds whether
    the [PeriodicCallback] is running, [ws_closed] whether [self.close()]
    was called. *)
Record session : Type := mksession {
  file_path : string;
  running : bool;
  file : option handle;
  periodic : option bool;
  ws_closed : bool
}.

Definition new_session : session := mksession "" false None None false.

Definition ws_close (s : session) : session :=
  mksession (file_path s) (running s) (file s) (periodic s) true.

(** What an invocation leaves: the handler's state, the messages written
    to the client in order, and whether an exception left the coroutine. *)
Record outcome : Type := mkoutcome {
  state : session;
  sent : list string;
  raised : bool
}.

(** [FileStreamHandler.open(path)].  A [ValueError] of [realpath] leaves
    the coroutine before [file_path] is assigned. *)
Definition FileStreamHandler_open (f : fs) (ROOT_DIR : string)
  (current_user : option string) (path : string) (s : session) : outcome :=
  if negb (truthy current_user) then mkoutcome (ws_close s) [] false
  else if realpath_raises f (join ROOT_DIR [path]) then mkoutcome s [] true
  else
    let fp := realpath f (join ROOT_DIR [path]) in
    let s1 := mksession fp (running s) (file s) (periodic s) (ws_closed s) in
    match escapes f ROOT_DIR fp with
    | None => mkoutcome s1 [] true
    | Some true => mkoutcome (ws_close s1) ["Forbidden"] false
    | Some false =>
        let s2 := mksession fp true (file s1) (periodic s1) (ws_closed s1) in
        if negb (isfile f fp)
        then mkoutcome (ws_close s2) ["File not found: " ++ fp] false
        else
          let history :=
            match read_file f fp with
            | Some data =>
                let last_100_lines := deque (iter_lines data) 100 in
                if is_nil last_100_lines then []
                else [String.concat "" last_100_lines]
            | None => ["Error reading file history: "]
            end in
          match read_file f fp with
          | Some data =>
              let h := seek (mkhandle 0 false) (String.length data) in
              mkoutcome (mksession fp true (Some h) (Some true) (ws_closed s2))
                history false
          | None =>
              mkoutcome (ws_close s2)
                (history ++ ["Error opening file for streaming: "])%list false
          end
    end.

(** The [while line:] loop of [send_new_lines]; [data] is the bytes of the
    file during this tick. *)
Fixpoint send_loop (fuel : nat) (data : string) (h : handle) (where_ : nat)
  (line : string) (out : list string) : option (handle * nat * list string) :=
  match fuel with
  | 0 => None
  | S n =>
      if line =? "" then Some (h, where_, out)
      else
        let out' := (out ++ [line])%list in
        let where' := tell h in
        let (line', h') := readline data h in
        send_loop n data h' where' line' out'
  end.

(** [FileStreamHandler.send_new_lines()].  [env] is what reading the open
    file gives during this tick: its bytes, or [None] when the read raises
    [OSError].  The handler has no [try]: the exception leaves it with the
    state as it was. *)
Definition send_new_lines (env : option string) (s : session) : outcome :=
  if negb (running s) then mkoutcome s [] false
  else
    match file s with
    | None => mkoutcome s [] true
    | Some h =>
        if closed h then mkoutcome s [] true
        else
          match env with
          | None => mkoutcome s [] true
          | Some data =>
              let where_ := tell h in
              let (line, h1) := readline data h in
              match send_loop (S (String.length data)) data h1 where_ line [] with
              | None => mkoutcome s [] true
              | Some (h2, where', out) =>
                  mkoutcome
                    (mksession (file_path s) (running s)
                       (Some (seek h2 where')) (periodic s) (ws_closed s))
                    out false
              end
          end
    end.

(** [FileStreamHandler.on_close()] *)
Definition on_close (s : session) : session :=
  mksession (file_path s) false
    (option_map close (file s))
    (option_map (fun _ => false) (periodic s))
    (ws_closed s).

(** The session is closed when the flag is down, the timer stopped and the
    handle released. *)
Definition is_closed (s : session) : bool :=
  negb (running s)
  && match periodic s with Some true => false | _ => true end
  && match file s with Some h => closed h | None => true end.

End Server.

(** ** Signed cookies, login and start-up

    Tornado signs a cookie with an HMAC keyed by the application's
    [cookie_secret].  The keyed hash is left abstract: [signature secret
    fields] stands for the digest of the timestamp, name and value fields
    under [secret]. *)

Module Auth.
Import Server.

Section SignedCookies.

Variable signature : string -> Z * string * string -> string.

(** The fields of a version 2 signed value. *)
Record signed_value : Type := mksigned {
  timestamp : Z;
  name_field : string;
  value_field : string;
  passed_sig : string
}.

Definition create_signed_value (secret name value : string) (clock : Z)
  : signed_value :=
  mksigned clock name value (signature secret (clock, name, value)).

(** [decode_signed_value]: the signature, then the name, then the age. *)
Definition decode_signed_value (secret name : string) (v : signed_value)
  (max_age_days clock : Z) : option string :=
  if negb (passed_sig v
           =? signature secret (timestamp v, name_field v, value_field v))
  then None
  else if negb (name_field v =? name) then None
  else if (timestamp v <? clock - max_age_days * 86400)%Z then None
  else Some (value_field v).

Record settings : Type := mksettings {
  cookie_secret : option string;
  login_url : string;
  template_path : string
}.

Inductive handler_class : Type :=
| LoginHandler | FileStreamHandler | UploadHandler | DeleteHandler
| RenameHandler | MainHandler.

Record application : Type := mkapp {
  routes : list (string * handler_class);
  app_settings : settings
}.

(** [make_app(settings)] *)
Definition make_app (secret : option string) (login : string)
  (module_dir : string) : application :=
  mkapp
    [("/login", LoginHandler); ("/stream/(.*)", FileStreamHandler);
     ("/upload", UploadHandler); ("/delete", DeleteHandler);
     ("/rename", RenameHandler); ("/(.*)", MainHandler)]
    (mksettings secret login (PosixPath.join module_dir ["templates"])).

(** [RequestHandler.get_secure_cookie(name)]: the outer [None] is the
    exception of [require_setting] when no secret is configured. *)
Definition get_secure_cookie (app : application) (name : string)
  (cookie : option signed_value) (clock : Z) : option (option string) :=
  if negb (truthy (cookie_secret (app_settings app))) then None
  else
    match cookie_secret (app_settings app), cookie with
    | Some secret, Some v => Some (decode_signed_value secret name v 31 clock)
    | _, _ => Some None
    end.

(** [RequestHandler.set_secure_cookie(name, value)] *)
Definition set_secure_cookie (app : application) (name value : string)
  (clock : Z) : option signed_value :=
  match cookie_secret (app_settings app) with
  | Some secret =>
      if secret =? "" then None
      else Some (create_signed_value secret name value clock)
  | None => None
  end.

(** [BaseHandler.get_current_user] and [FileStreamHandler.get_current_user] *)
Definition get_current_user (app : application)
  (cookie : option signed_value) (clock : Z) : option (option string) :=
  get_secure_cookie app "user" cookie clock.

(** The process after [main()] has set its globals and built the
    application. *)
Record server : Type := mkserver {
  ACCESS_TOKEN : string;
  ROOT_DIR : string;
  port : Z;
  app : application
}.

(** [LoginHandler.post()]: the cookie set, if any, and the response. *)
Definition LoginHandler_post (srv : server) (token : string) (clock : Z)
  : option signed_value * response :=
  if token =? ACCESS_TOKEN srv then
    match set_secure_cookie (app srv) "user" "authenticated" clock with
    | Some c => (Some c, Redirect "/")
    | None => (None, Uncaught)
    end
  else (None, Render (LoginPage (Some "Invalid token. Try again."))).

(** Python's [a or b]. *)
Definition or_else (a : option string) (b : option string) : option string :=
  if truthy a then a else b.

Definition or_default (a : option string) (d : string) : string :=
  match a with
  | Some s => if s =? "" then d else s
  | None => d
  end.

Record cli : Type := mkcli {
  arg_root : option string;
  arg_port : option Z;
  arg_token : option string
}.

Record config_file : Type := mkconfig {
  cfg_root : option string;
  cfg_port : option Z;
  cfg_token : option string
}.

Definition port_or (a : option Z) (b : Z) : Z :=
  match a with
  | Some p => if (p =? 0)%Z then b else p
  | None => b
  end.

(** [main()] up to [make_app]: [env_token] is [AIRD_ACCESS_TOKEN],
    [generated] the value of [secrets.token_urlsafe(32)], [f] the file
    system [realpath] sees, [module_dir] the directory of [main.py]. *)
Definition main (f : FS.fs) (args : cli) (config : config_file)
  (env_token : option string) (generated module_dir : string) : server :=
  let root := or_default (or_else (arg_root args) (cfg_root config)) (FS.cwd f) in
  let port := port_or (arg_port args) (port_or (cfg_port config) 8000%Z) in
  let token :=
    or_default (or_else (arg_token args) (or_else (cfg_token config) env_token))
      generated in
  mkserver token (FS.realpath f root) port
    (make_app (Some token) "/login" module_dir).

End SignedCookies.

End Auth.

(** ** Shapes of paths used in the statements *)

Module Shape.
Import PosixPath.

Fixpoint no_sep (s : string) : bool :=
  match s with
  | EmptyString => true
  | String c s' => negb (is_sep c) && no_sep s'
  end.

(** A name of a directory entry: not empty, not [.] or [..], no slash. *)
Definition valid_name (n : string) : bool :=
  negb (n =? "") && negb (n =? curdir) && negb (n =? pardir) && no_sep n.

Definition valid_names (cs : list string) : bool := forallb valid_name cs.

(** The canonical absolute path of a location: [/], [/a], [/a/b], ... *)
Definition render (cs : list string) : string := "/" ++ String.concat "/" cs.

(** The components [commonpath] compares. *)
Definition comps_of (s : string) : list string :=
  filter keep_comp (str_split s).

(** The longest common prefix of two lists of names. *)
Fixpoint lcp (a b : list string) : list string :=
  match a, b with
  | x :: a', y :: b' => if x =? y then x :: lcp a' b' else []
  | _, _ => []
  end.

(** An absolute path as [normpath] leaves it: one or two slashes, then
    names joined by single slashes. *)
Definition normal_abs (s : string) : Prop :=
  exists k cs, (k = 1 \/ k = 2) /\ valid_names cs = true
               /\ s = repeat_sep k ++ String.concat "/" cs.

(** Containment as the specification has it: [base] is a canonical path
    and the names of [p] start with the names of [base], so [p] is [base]
    itself or lies below it. *)
Definition contained (base p : string) : bool :=
  (base =? render (comps_of base)) && FS.is_prefix (comps_of base) (comps_of p).

Definition canonical (p : string) : Prop :=
  exists cs, valid_names cs = true /\ p = render cs.

(** The measure of [_joinrealpath]: links of the store not yet entered in
    the dictionary. *)
Definition mem_key (k : string) (seen : FS.seen_t) : bool :=
  match FS.seen_get k seen with
  | Some _ => true
  | None => false
  end.

Definition link_paths (f : FS.fs) : list string :=
  map render (FS.link_locs (FS.entries f)).

Definition unseen (f : FS.fs) (seen : FS.seen_t) : nat :=
  List.length (filter (fun l => negb (mem_key l seen)) (link_paths f)).

Definition seen_ok (seen : FS.seen_t) : Prop :=
  forall k p, FS.seen_get k seen = Some (Some p) -> canonical p.

(** A header parameter that is a well-formed quoted string: after the
    opening quote no bare quote, carriage return or line feed occurs (a
    backslash escapes the character after it) until the closing quote,
    which ends the value. *)
Fixpoint quoted_body_ok (s : string) : bool :=
  match s with
  | EmptyString => false
  | String c s' =>
      if Ascii.eqb c Server.dquote_char then s' =? ""
      else if Ascii.eqb c TextIO.cr || Ascii.eqb c TextIO.lf then false
      else if Ascii.eqb c "\"%char then
        match s' with
        | String _ s'' => quoted_body_ok s''
        | EmptyString => false
        end
      else quoted_body_ok s'
  end.

Fixpoint strip_prefix (pre s : string) : option string :=
  match pre, s with
  | EmptyString, _ => Some s
  | String a pre', String b s' =>
      if Ascii.eqb a b then strip_prefix pre' s' else None
  | String _ _, EmptyString => None
  end.

(** The [Content-Disposition] value carries a safely quoted file name. *)
Definition disposition_safe (v : string) : bool :=
  match strip_prefix "attachment; filename=" v with
  | Some (String q body) => Ascii.eqb q Server.dquote_char && quoted_body_ok body
  | _ => false
  end.

(** A name without quote, backslash or control character. *)
Fixpoint plain_name (n : string) : bool :=
  match n with
  | EmptyString => true
  | String c n' =>
      negb (Ascii.eqb c Server.dquote_char) && negb (Ascii.eqb c "\"%char)
      && negb (Nat.ltb (nat_of_ascii c) 32) && plain_name n'
  end.

(** A line that ends with the newline character. *)
Fixpoint ends_nl (l : string) : bool :=
  match l with
  | EmptyString => false
  | String c EmptyString => Ascii.eqb c TextIO.lf
  | String _ l' => ends_nl l'
  end.

(** Every message but the last one is a terminated line. *)
Definition complete_but_last (ls : list string) : bool :=
  forallb ends_nl (removelast ls).

Fixpoint no_cr (s : string) : bool :=
  match s with
  | EmptyString => true
  | String c s' => negb (Ascii.eqb c TextIO.cr) && no_cr s'
  end.

(** Bytes that are well-formed UTF-8 from end to end ([n] bytes of a
    character still to come). *)
Fixpoint utf8_in (n : nat) (s : string) : bool :=
  match s with
  | EmptyString => Nat.eqb n 0
  | String c s' =>
      match n with
      | S n' => utf8_in n' s'
      | 0 => let (ok, m) := TextIO.char_at c s' in ok && utf8_in m s'
      end
  end.

Definition utf8 (s : string) : bool := utf8_in 0 s.


(** The store after the entries of a batch were all written in order;
    [None] if one of them ended the request. *)
Fixpoint written (f : FS.fs) (dir_real : string)
  (file_infos : list Server.file_info) : option FS.fs :=
  match file_infos with
  | [] => Some f
  | info :: more =>
      match Server.upload_entry f dir_real info with
      | (f', None) => written f' dir_real more
      | (_, Some _) => None
      end
  end.

End Shape.

(** ** Concrete stores and requests used as examples *)

Module Fixtures.
Import FS.

Definition authenticated_user : option string := Some "authenticated".

(** [/srv] is the root served; [/srv-evil] a sibling whose name starts
    with the root's; [/srv/evil] a link leaving the root. *)
Definition sample : fs :=
  mkfs "/"
    [ (["srv"], Dir);
      (["srv"; "a"], Dir);
      (["srv"; "a"; "f.txt"], File "hi");
      (["srv"; "b"], Dir);
      (["srv"; "evil"], Link "/etc");
      (["etc"], Dir);
      (["etc"; "passwd"], File "root");
      (["srv-evil"], Dir);
      (["srv-evil"; "x"], File "x") ].

(** The same tree without the link. *)
Definition plain : fs :=
  mkfs "/"
    [ (["srv"], Dir);
      (["srv"; "a"], Dir);
      (["srv"; "a"; "f.txt"], File "hi");
      (["srv"; "b"], Dir);
      (["etc"], Dir);
      (["etc"; "passwd"], File "root");
      (["srv-evil"], Dir);
      (["srv-evil"; "x"], File "x") ].

(** A link that points at itself. *)
Definition with_loop : fs :=
  mkfs "/" [ (["srv"], Dir); (["srv"; "loop"], Link "loop") ].

(** A file whose name holds a double quote. *)
Definition quote_name : string := "a" ++ Server.dquote ++ "b.txt".

Definition with_quote : fs :=
  mkfs "/" [ (["srv"], Dir); (["srv"; quote_name], File "data") ].

(** A stand-in for the keyed hash, to run the cookie functions. *)
Definition toy_signature (secret : string) (fields : Z * string * string)
  : string :=
  secret ++ "|" ++ snd (fst fields) ++ "|" ++ snd fields.

Definition no_args : Auth.cli := Auth.mkcli None None None.
Definition no_config : Auth.config_file := Auth.mkconfig None None None.

(** A text file with CR LF line ends. *)
Definition crlf_text : string :=
  "a" ++ String TextIO.cr TextIO.nl ++ "b" ++ String TextIO.cr TextIO.nl.

Definition with_crlf : fs :=
  mkfs "/" [ (["srv"], Dir); (["srv"; "log.txt"], File crlf_text) ].

(** A text file in Latin-1: the byte [E9] is no UTF-8. *)
Definition latin1_text : string :=
  "caf" ++ String (ascii_of_nat 233) TextIO.nl.

Definition with_latin1 : fs :=
  mkfs "/" [ (["srv"], Dir); (["srv"; "log.txt"], File latin1_text) ].

(** A link to itself and a link out of the root, side by side. *)
Definition with_loop_and_exit : fs :=
  mkfs "/"
    [ (["srv"], Dir);
      (["srv"; "a"], Dir);
      (["srv"; "a"; "f.txt"], File "hi");
      (["srv"; "loop"], Link "loop");
      (["srv"; "evil"], Link "/etc");
      (["etc"], Dir);
      (["etc"; "passwd"], File "root") ].

(** The same below an upload directory: [out] leads to its sibling. *)
Definition with_loop_in_target : fs :=
  mkfs "/"
    [ (["srv"], Dir);
      (["srv"; "a"], Dir);
      (["srv"; "a"; "loop"], Link "loop");
      (["srv"; "a"; "out"], Link "/srv/b");
      (["srv"; "b"], Dir) ].

(** A tail session in its streaming state, the cursor at [n]. *)
Definition streaming_at (n : nat) : Server.session :=
  Server.mksession "/srv/a/f.txt" true (Some (TextIO.mkhandle n false))
    (Some true) false.

End Fixtures.

(** ** The rest of [main.py]: the login form and the listen loop *)

Module Startup.
Import Server Auth.

(** [LoginHandler.get()] *)
Definition LoginHandler_get (current_user : option string) : response :=
  if truthy current_user then Redirect "/" else Render (LoginPage None).

(** [FileStreamHandler.check_origin(origin)] *)
Definition check_origin (origin : string) : bool := true.

(** What one round of the [try] in [main] meets: [app.listen(port)] binds
    and the loop is left, or it raises [OSError], or something else is
    raised and leaves [main]. *)
Inductive attempt : Type :=
| Bound
| RaisesOSError
| RaisesOther.

(** [while True: try: app.listen(port); ...; break
     except OSError: port += 1]
    The result is the port served on; [None] when another exception ends
    the program or the fuel runs out. *)
Fixpoint listen_loop (fuel : nat) (try_port : Z -> attempt) (port : Z)
  : option Z :=
  match fuel with
  | 0 => None
  | S n =>
      match try_port port with
      | Bound => Some port
      | RaisesOSError => listen_loop n try_port (port + 1)%Z
      | RaisesOther => None
      end
  end.

End Startup.

(** ** Predicates for the further properties *)

Module Props.
Import FS.


(** A place of the store that holds no directory and no link. *)
Definition leaf (o : option node) : bool :=
  match o with
  | None | Some (File _) => true
  | _ => false
  end.

(** Two stores that hold the same at every location but [l]. *)
Definition same_but (l : loc) (f f' : fs) : Prop :=
  cwd f = cwd f' /\ forall k, k <> l -> node_at f k = node_at f' k.

(** The messages of a run of poll ticks: before each tick one more chunk
    has been appended to the file. *)
Fixpoint stream (s : Server.session) (data : string) (chunks : list string)
  : list string :=
  match chunks with
  | [] => []
  | c :: more =>
      let o := Server.send_new_lines (Some (data ++ c)) s in
      (Server.sent o ++ stream (Server.state o) (data ++ c) more)%list
  end.

(** A lookup result that is no symbolic link. *)
Definition not_link (f : fs) (r : option loc) : Prop :=
  match r with
  | Some k => forall t, node_at f k <> Some (Link t)
  | None => True
  end.

(** The entries after [os.rename] moved what stood at or below [ks] to
    [kd]. *)
Definition moved (ks kd : loc) (es : store) : store :=
  map (rebase ks kd) (filter (fun e => negb (is_prefix kd (fst e))) es).

(** A store without symbolic links. *)
Definition link_free (f : fs) : Prop :=
  forall k t, node_at f k <> Some (Link t).

Definition no_links (f : fs) : bool :=
  forallb (fun e => match snd e with Link _ => false | _ => true end)
    (entries f).

(** No component is [..]. *)
Definition no_pardir (cs : list string) : bool :=
  forallb (fun c => negb (c =? PosixPath.pardir)) cs.

(** The root and every directory above it are directories of the
    store. *)
Definition rooted (f : fs) (rc : loc) : Prop :=
  forall a, a <> [] -> is_prefix a rc = true -> node_at f a = Some Dir.

End Props.

(** ** Facts about the path functions *)
Module PathFacts.
Import PosixPath Shape.

(** *** The functions on sample paths *)

Example join_abs : join "/srv" ["/etc/passwd"] = "/etc/passwd".
Proof. reflexivity. Qed.
Example join_rel : join "/srv" ["a/b"; "c"] = "/srv/a/b/c".
Proof. reflexivity. Qed.
Example join_empty : join "/srv" [""] = "/srv/".
Proof. reflexivity. Qed.
Example split_example : split "/srv/a/b" = ("/srv/a", "b").
Proof. reflexivity. Qed.
Example split_of_root : split "/" = ("/", "").
Proof. reflexivity. Qed.
Example dirname_ex : dirname "a/b/c.txt" = "a/b".
Proof. reflexivity. Qed.
Example dirname_bare : dirname "c.txt" = "".
Proof. reflexivity. Qed.
Example normpath_ex : normpath "/srv/a/../b/./c//" = "/srv/b/c".
Proof. reflexivity. Qed.
Example normpath_two : normpath "//x/../.." = "//".
Proof. reflexivity. Qed.
Example normpath_three : normpath "///x" = "/x".
Proof. reflexivity. Qed.
Example commonpath_sibling :
  commonpath ["/root-evil/x"; "/root"] = Some "/".
Proof. reflexivity. Qed.
Example commonpath_inside :
  commonpath ["/root/a/b"; "/root"] = Some "/root".
Proof. reflexivity. Qed.

Lemma append_nil_r (s : string) : s ++ "" = s.
Proof. induction s; simpl; congruence. Qed.

Lemma append_assoc (a b c : string) : (a ++ b) ++ c = a ++ (b ++ c).
Proof. induction a; simpl; congruence. Qed.

Lemma length_append (a b : string) :
  String.length (a ++ b) = String.length a + String.length b.
Proof. induction a; simpl; congruence. Qed.

Lemma is_sep_true c : is_sep c = true -> c = sep.
Proof. apply Ascii.eqb_eq. Qed.

Lemma is_sep_sep : is_sep sep = true.
Proof. reflexivity. Qed.

Lemma eqb_empty_false c s : (String c s =? "") = false.
Proof. reflexivity. Qed.

(** *** [str_split] *)

Lemma str_split_not_nil s : str_split s <> [].
Proof.
  destruct s as [|c s]; simpl; [discriminate|].
  destruct (is_sep c); [discriminate|].
  destruct (str_split s); discriminate.
Qed.

Lemma str_split_no_sep s : Forall (fun c => no_sep c = true) (str_split s).
Proof.
  induction s as [|c s IH]; simpl.
  - repeat constructor.
  - destruct (is_sep c) eqn:E.
    + constructor; [reflexivity | exact IH].
    + destruct (str_split s) as [|x xs]; inversion IH; subst;
        constructor; simpl; rewrite ?E; auto.
Qed.

Lemma str_split_cons_sep s : str_split (String sep s) = "" :: str_split s.
Proof. reflexivity. Qed.

Lemma str_split_name (n : string) : no_sep n = true -> str_split n = [n].
Proof.
  induction n as [|c n IH]; simpl; [reflexivity|].
  intros H. apply andb_prop in H as [Hc Hn].
  apply negb_true_iff in Hc. rewrite Hc, (IH Hn). reflexivity.
Qed.

Lemma str_split_name_sep (n rest : string) :
  no_sep n = true -> str_split (n ++ String sep rest) = n :: str_split rest.
Proof.
  induction n as [|c n IH]; simpl; [reflexivity|].
  intros H. apply andb_prop in H as [Hc Hn].
  apply negb_true_iff in Hc. rewrite Hc, (IH Hn). reflexivity.
Qed.

Lemma concat_cons2 (x y : string) (l : list string) :
  String.concat "/" (x :: y :: l) = x ++ String sep (String.concat "/" (y :: l)).
Proof. reflexivity. Qed.

Lemma str_split_concat (cs : list string) :
  Forall (fun c => no_sep c = true) cs -> cs <> [] ->
  str_split (String.concat "/" cs) = cs.
Proof.
  induction cs as [|x cs IH]; intros HF Hne; [congruence|].
  inversion HF as [|? ? Hx HF']; subst.
  destruct cs as [|y cs].
  - simpl. apply str_split_name; assumption.
  - rewrite concat_cons2, str_split_name_sep by assumption.
    f_equal. apply IH; [assumption | discriminate].
Qed.

Lemma valid_name_no_sep n : valid_name n = true -> no_sep n = true.
Proof. unfold valid_name. intros H. apply andb_prop in H as [_ H]. exact H. Qed.

Lemma valid_name_keep n : valid_name n = true -> keep_comp n = true.
Proof.
  unfold valid_name, keep_comp. intros H.
  repeat (apply andb_prop in H as [H ?]).
  rewrite H. simpl. assumption.
Qed.

Lemma valid_names_Forall cs :
  valid_names cs = true <-> Forall (fun c => valid_name c = true) cs.
Proof. unfold valid_names. rewrite forallb_forall, Forall_forall. tauto. Qed.

Lemma valid_names_no_sep cs :
  valid_names cs = true -> Forall (fun c => no_sep c = true) cs.
Proof.
  rewrite valid_names_Forall. apply Forall_impl. apply valid_name_no_sep.
Qed.

Lemma filter_keep_valid cs :
  valid_names cs = true -> filter keep_comp cs = cs.
Proof.
  induction cs as [|c cs IH]; simpl; [reflexivity|].
  intros H. apply andb_prop in H as [Hc Hcs].
  rewrite (valid_name_keep _ Hc), (IH Hcs). reflexivity.
Qed.

Lemma comps_of_concat cs :
  valid_names cs = true -> comps_of (String.concat "/" cs) = cs.
Proof.
  intros H. unfold comps_of. destruct cs as [|c cs]; [reflexivity|].
  rewrite str_split_concat.
  - apply filter_keep_valid; assumption.
  - apply valid_names_no_sep; assumption.
  - discriminate.
Qed.

Lemma comps_of_sep s : comps_of (String sep s) = comps_of s.
Proof. reflexivity. Qed.

Lemma comps_of_render cs : valid_names cs = true -> comps_of (render cs) = cs.
Proof. intros H. unfold render. simpl. rewrite comps_of_sep. apply comps_of_concat, H. Qed.

Lemma render_inj a b :
  valid_names a = true -> valid_names b = true -> render a = render b -> a = b.
Proof.
  intros Ha Hb E. rewrite <- (comps_of_render a Ha), <- (comps_of_render b Hb).
  congruence.
Qed.

(** *** [join] and [split] on canonical paths *)

Lemma endswith_sep_append a c b :
  endswith_sep (a ++ String c b) = endswith_sep (String c b).
Proof.
  induction a as [|x a IH]; [reflexivity|].
  change (String x a ++ String c b) with (String x (a ++ String c b)).
  simpl endswith_sep at 1. rewrite <- IH.
  destruct (a ++ String c b) eqn:E; [|reflexivity].
  destruct a; discriminate.
Qed.

Lemma endswith_sep_name n :
  no_sep n = true -> endswith_sep n = false.
Proof.
  induction n as [|c n IH]; [reflexivity|].
  simpl. intros H. apply andb_prop in H as [Hc Hn].
  apply negb_true_iff in Hc.
  destruct n; [exact Hc | apply IH, Hn].
Qed.

Lemma valid_name_cons n : valid_name n = true -> exists c r, n = String c r /\ is_sep c = false.
Proof.
  intros H. destruct n as [|c r].
  - discriminate.
  - exists c, r. split; [reflexivity|].
    apply valid_name_no_sep in H. simpl in H.
    apply andb_prop in H as [H _]. apply negb_true_iff in H. exact H.
Qed.

Lemma concat_snoc cs n :
  cs <> [] ->
  String.concat "/" (cs ++ [n]) = String.concat "/" cs ++ String sep n.
Proof.
  induction cs as [|x cs IH]; [congruence|]. intros _.
  destruct cs as [|y cs].
  - reflexivity.
  - change ((x :: y :: cs) ++ [n])%list with (x :: (y :: cs) ++ [n])%list.
    change ((y :: cs) ++ [n])%list with (y :: (cs ++ [n]))%list.
    rewrite concat_cons2.
    change (y :: (cs ++ [n]))%list with ((y :: cs) ++ [n])%list.
    rewrite IH by discriminate.
    rewrite concat_cons2, append_assoc. reflexivity.
Qed.

Lemma render_snoc cs n :
  render (cs ++ [n]) =
  match cs with
  | [] => String sep n
  | _ => render cs ++ String sep n
  end.
Proof.
  destruct cs as [|x cs]; [reflexivity|].
  unfold render. rewrite concat_snoc by discriminate.
  reflexivity.
Qed.

Lemma endswith_sep_render cs :
  valid_names cs = true -> endswith_sep (render cs) = is_nil cs.
Proof.
  intros H. destruct cs as [|x cs] using rev_ind; [reflexivity|].
  clear IHcs. rewrite render_snoc.
  apply valid_names_Forall, Forall_app in H as [_ Hx].
  inversion Hx as [|? ? Hv _]; subst.
  destruct (valid_name_cons _ Hv) as (c & r & -> & Hc).
  assert (Hn : endswith_sep (String c r) = false)
    by (apply endswith_sep_name, valid_name_no_sep, Hv).
  assert (Hnil : is_nil (cs ++ [String c r])%list = false)
    by (destruct cs; reflexivity).
  rewrite Hnil.
  destruct cs as [|y cs].
  - exact Hn.
  - change (String sep (String c r)) with (String sep "" ++ String c r).
    rewrite <- append_assoc, endswith_sep_append. exact Hn.
Qed.

Lemma render_not_empty cs : (render cs =? "") = false.
Proof. reflexivity. Qed.

Lemma join_render cs n :
  valid_names cs = true -> valid_name n = true ->
  join (render cs) [n] = render (cs ++ [n]).
Proof.
  intros Hcs Hn. unfold join. simpl. unfold join_step.
  destruct (valid_name_cons _ Hn) as (c & r & -> & Hc).
  simpl startswith_sep. rewrite Hc, render_not_empty, (endswith_sep_render _ Hcs).
  rewrite render_snoc. destruct cs; reflexivity.
Qed.

Lemma rfind_succ_name n : no_sep n = true -> rfind_succ n = 0.
Proof.
  induction n as [|c n IH]; [reflexivity|]. simpl.
  intros H. apply andb_prop in H as [Hc Hn]. apply negb_true_iff in Hc.
  rewrite (IH Hn), Hc. reflexivity.
Qed.

Lemma rfind_succ_sep_name h n :
  no_sep n = true ->
  rfind_succ (h ++ String sep n) = S (String.length h).
Proof.
  intros Hn. induction h as [|c h IH]; simpl.
  - rewrite (rfind_succ_name _ Hn). reflexivity.
  - rewrite IH. reflexivity.
Qed.

Lemma substring_all s : substring 0 (String.length s) s = s.
Proof. induction s; simpl; congruence. Qed.

Lemma substring_head a b : substring 0 (String.length a) (a ++ b) = a.
Proof.
  induction a as [|c a IH]; simpl.
  - destruct b; reflexivity.
  - rewrite IH. reflexivity.
Qed.

Lemma substring_tail a b :
  substring (String.length a) (String.length b) (a ++ b) = b.
Proof.
  induction a as [|c a IH]; simpl.
  - apply substring_all.
  - exact IH.
Qed.

Lemma rstrip_sep_name n :
  no_sep n = true -> rstrip_sep n = n.
Proof.
  induction n as [|c n IH]; [reflexivity|]. simpl.
  intros H. apply andb_prop in H as [Hc Hn]. apply negb_true_iff in Hc.
  rewrite (IH Hn). destruct n; [rewrite Hc|]; reflexivity.
Qed.

Lemma rstrip_sep_app_name a c r :
  no_sep (String c r) = true ->
  rstrip_sep (a ++ String c r) = a ++ String c r.
Proof.
  intros Hn. induction a as [|x a IH].
  - apply rstrip_sep_name, Hn.
  - change (String x a ++ String c r) with (String x (a ++ String c r)).
    simpl rstrip_sep. rewrite IH.
    destruct (a ++ String c r) eqn:E; [destruct a; discriminate | reflexivity].
Qed.

Lemma rstrip_sep_app_sep a :
  rstrip_sep (a ++ String sep "") = rstrip_sep a.
Proof.
  induction a as [|x a IH]; [reflexivity|].
  change (String x a ++ String sep "") with (String x (a ++ String sep "")).
  simpl. rewrite IH. reflexivity.
Qed.

Lemma all_sep_app_name a c r :
  is_sep c = false -> all_sep (a ++ String c r) = false.
Proof.
  intros Hc. induction a as [|x a IH]; simpl.
  - rewrite Hc. reflexivity.
  - rewrite IH. apply andb_false_r.
Qed.

Lemma render_last cs :
  valid_names cs = true -> cs <> [] ->
  exists a c r, render cs = a ++ String c r
                /\ no_sep (String c r) = true /\ is_sep c = false.
Proof.
  intros H Hne. destruct cs as [|x cs] using rev_ind; [congruence|].
  clear IHcs Hne.
  apply valid_names_Forall, Forall_app in H as [_ Hx].
  inversion Hx as [|? ? Hv _]; subst.
  destruct (valid_name_cons _ Hv) as (c & r & -> & Hc).
  rewrite render_snoc.
  exists (match cs with [] => "" | _ => render cs end ++ String sep ""), c, r.
  repeat split.
  - rewrite append_assoc. destruct cs; reflexivity.
  - apply valid_name_no_sep, Hv.
  - exact Hc.
Qed.

Lemma strip_head_render_sep cs :
  valid_names cs = true -> cs <> [] ->
  strip_head (render cs ++ String sep "") = render cs.
Proof.
  intros H Hne. destruct (render_last cs H Hne) as (a & c & r & E & Hn & Hc).
  rewrite E. unfold strip_head.
  rewrite rstrip_sep_app_sep, rstrip_sep_app_name by assumption.
  rewrite append_assoc.
  change (String c r ++ String sep "") with (String c (r ++ String sep "")).
  rewrite all_sep_app_name by assumption.
  destruct (a ++ String c (r ++ String sep "")) eqn:E2;
    [destruct a; discriminate | reflexivity].
Qed.

Lemma split_render cs n :
  valid_names cs = true -> valid_name n = true ->
  split (render (cs ++ [n])) = (render cs, n).
Proof.
  intros Hcs Hn. pose proof (valid_name_no_sep _ Hn) as Hns.
  unfold split. rewrite render_snoc.
  destruct cs as [|x cs].
  - change (String sep n) with ("" ++ String sep n).
    rewrite rfind_succ_sep_name by assumption. simpl String.length.
    change ("" ++ String sep n) with (String sep "" ++ n).
    replace (S (String.length n) - 1) with (String.length n) by lia.
    change 1 with (String.length (String sep "")).
    rewrite substring_head, substring_tail. reflexivity.
  - set (h := render (x :: cs)) in *.
    rewrite rfind_succ_sep_name by assumption.
    replace (h ++ String sep n) with ((h ++ String sep "") ++ n)
      by (rewrite append_assoc; reflexivity).
    replace (S (String.length h)) with (String.length (h ++ String sep ""))
      by (rewrite length_append; simpl; lia).
    replace (String.length ((h ++ String sep "") ++ n)
             - String.length (h ++ String sep ""))
      with (String.length n) by (rewrite (length_append (h ++ _)); lia).
    rewrite substring_head, substring_tail. f_equal.
    apply strip_head_render_sep; [assumption | discriminate].
Qed.

Lemma split_root : split (render []) = (render [], "").
Proof. reflexivity. Qed.

(** *** [normpath] on absolute paths *)

Lemma valid_names_app a b :
  valid_names (a ++ b) = valid_names a && valid_names b.
Proof. apply forallb_app. Qed.

Lemma valid_names_removelast a :
  valid_names a = true -> valid_names (removelast a) = true.
Proof.
  destruct a as [|x a] using rev_ind; [reflexivity|].
  rewrite removelast_last, valid_names_app. intros H.
  apply andb_prop in H as [H _]. exact H.
Qed.

Lemma last_is_pardir_valid a :
  valid_names a = true -> last_is_pardir a = false.
Proof.
  destruct a as [|x a] using rev_ind; [reflexivity|]. clear IHa.
  rewrite valid_names_app. intros H. apply andb_prop in H as [_ H].
  simpl in H. rewrite andb_true_r in H.
  unfold last_is_pardir. rewrite last_last.
  destruct (a ++ [x])%list eqn:E; [reflexivity|].
  unfold valid_name in H. repeat (apply andb_prop in H as [H ?]).
  apply negb_true_iff. assumption.
Qed.

Lemma norm_step_valid k acc c :
  1 <= k -> valid_names acc = true -> no_sep c = true ->
  valid_names (norm_step k acc c) = true.
Proof.
  intros Hk Hacc Hc. unfold norm_step.
  destruct ((c =? "") || (c =? curdir)) eqn:E1; [assumption|].
  apply orb_false_elim in E1 as [E1 E2].
  rewrite (last_is_pardir_valid _ Hacc), orb_false_r.
  replace (Nat.eqb k 0) with false by (destruct k; [lia | reflexivity]).
  simpl andb. rewrite orb_false_r.
  destruct (c =? pardir) eqn:E3; simpl negb; cbv iota.
  - apply valid_names_removelast, Hacc.
  - rewrite valid_names_app, Hacc. simpl.
    unfold valid_name. rewrite E1, E2, E3, Hc. reflexivity.
Qed.

Lemma fold_norm_valid k l acc :
  1 <= k -> valid_names acc = true -> Forall (fun c => no_sep c = true) l ->
  valid_names (fold_left (norm_step k) l acc) = true.
Proof.
  intros Hk. revert acc. induction l as [|c l IH]; intros acc Hacc HF.
  - exact Hacc.
  - inversion HF; subst. simpl. apply IH; [|assumption].
    apply norm_step_valid; assumption.
Qed.

Lemma norm_step_valid_name k acc c :
  valid_name c = true -> norm_step k acc c = (acc ++ [c])%list.
Proof.
  unfold valid_name, norm_step. intros H.
  repeat (apply andb_prop in H as [H ?]).
  apply negb_true_iff in H, H1, H2. rewrite H, H2, H1. reflexivity.
Qed.

Lemma fold_norm_names k cs acc :
  valid_names cs = true ->
  fold_left (norm_step k) cs acc = (acc ++ cs)%list.
Proof.
  revert acc. induction cs as [|c cs IH]; intros acc H; simpl.
  - rewrite app_nil_r. reflexivity.
  - apply andb_prop in H as [Hc Hcs].
    rewrite norm_step_valid_name, IH by assumption.
    rewrite <- app_assoc. reflexivity.
Qed.

Lemma initial_slashes_abs p :
  isabs p = true -> initial_slashes p = 1 \/ initial_slashes p = 2.
Proof.
  unfold isabs. destruct p as [|c1 [|c2 [|c3 p]]]; simpl;
    try discriminate; intros ->; simpl.
  - left; reflexivity.
  - destruct (is_sep c2); auto.
  - destruct (is_sep c2 && negb (is_sep c3)); auto.
Qed.

Lemma normpath_abs p :
  isabs p = true -> normal_abs (normpath p).
Proof.
  intros Habs. unfold normpath.
  destruct p as [|c p]; [discriminate|]. rewrite eqb_empty_false.
  destruct (initial_slashes_abs _ Habs) as [E|E]; rewrite E.
  - exists 1. eexists. split; [auto|]. split; [|reflexivity].
    apply fold_norm_valid; [lia | reflexivity | apply str_split_no_sep].
  - exists 2. eexists. split; [auto|]. split; [|reflexivity].
    apply fold_norm_valid; [lia | reflexivity | apply str_split_no_sep].
Qed.

Lemma normal_abs_isabs s : normal_abs s -> isabs s = true.
Proof. intros (k & cs & [-> | ->] & _ & ->); reflexivity. Qed.

Lemma normal_abs_comps s :
  normal_abs s ->
  valid_names (comps_of s) = true
  /\ exists k, (k = 1 \/ k = 2)
               /\ s = repeat_sep k ++ String.concat "/" (comps_of s).
Proof.
  intros (k & cs & Hk & Hcs & ->).
  assert (E : comps_of (repeat_sep k ++ String.concat "/" cs) = cs).
  { destruct Hk as [-> | ->]; simpl; rewrite ?comps_of_sep;
      apply comps_of_concat, Hcs. }
  rewrite E. split; [assumption|]. exists k. auto.
Qed.

Lemma render_normal cs : valid_names cs = true -> normal_abs (render cs).
Proof. intros H. exists 1, cs. auto. Qed.

Lemma join_step_isabs a b : isabs a = true -> isabs (join_step a b) = true.
Proof.
  intros Ha. unfold join_step.
  destruct (startswith_sep b) eqn:E; [exact E|].
  destruct a as [|c a]; [discriminate|].
  destruct (_ || _); exact Ha.
Qed.

Lemma join_isabs a l : isabs a = true -> isabs (join a l) = true.
Proof.
  revert a. induction l as [|b l IH]; intros a Ha; [exact Ha|].
  apply IH, join_step_isabs, Ha.
Qed.

(** *** [commonpath] of two absolute paths *)

Lemma ltb_asym x y : String.ltb x y = true -> String.ltb y x = false.
Proof.
  unfold String.ltb. rewrite (String.compare_antisym y x).
  destruct (String.compare x y); simpl; congruence.
Qed.

Lemma ltb_total x y :
  String.ltb x y = false -> String.ltb y x = false -> x = y.
Proof.
  unfold String.ltb. rewrite (String.compare_antisym y x).
  destruct (String.compare x y) eqn:E; simpl; try congruence.
  intros _ _. apply String.compare_eq_iff, E.
Qed.

Lemma list_lt_irrefl a : list_lt a a = false.
Proof. induction a as [|x a IH]; simpl; [|rewrite String.eqb_refl]; auto. Qed.

Lemma list_lt_asym a b : list_lt a b = true -> list_lt b a = false.
Proof.
  revert b. induction a as [|x a IH]; intros [|y b]; simpl; try congruence.
  rewrite (String.eqb_sym y x). destruct (x =? y); [apply IH | apply ltb_asym].
Qed.

Lemma list_lt_total a b :
  list_lt a b = false -> list_lt b a = false -> a = b.
Proof.
  revert b. induction a as [|x a IH]; intros [|y b]; simpl; try congruence.
  rewrite (String.eqb_sym y x). destruct (x =? y) eqn:E.
  - apply String.eqb_eq in E. subst. intros. f_equal. auto.
  - intros H1 H2. apply String.eqb_neq in E. elim E. apply ltb_total; assumption.
Qed.

Lemma common_loop_ordered a b :
  list_lt b a = false -> common_loop a b = Some (lcp a b).
Proof.
  revert b. induction a as [|x a IH]; intros [|y b]; simpl; try congruence.
  rewrite (String.eqb_sym y x). destruct (x =? y); [|reflexivity].
  intros H. rewrite (IH _ H). reflexivity.
Qed.

Lemma lcp_comm a b : lcp a b = lcp b a.
Proof.
  revert b. induction a as [|x a IH]; intros [|y b]; simpl; try reflexivity.
  rewrite (String.eqb_sym y x). destruct (x =? y) eqn:E; [|reflexivity].
  apply String.eqb_eq in E. subst. f_equal. apply IH.
Qed.

Lemma lcp_refl a : lcp a a = a.
Proof. induction a; simpl; [|rewrite String.eqb_refl]; congruence. Qed.

Lemma lcp_prefix a b : lcp a b = a <-> FS.is_prefix a b = true.
Proof.
  revert b. induction a as [|x a IH]; intros [|y b]; simpl;
    try (split; congruence).
  destruct (x =? y) eqn:E; simpl.
  - apply String.eqb_eq in E. subst. rewrite <- IH. split; congruence.
  - split; congruence.
Qed.

Lemma lcp_valid a b : valid_names a = true -> valid_names (lcp a b) = true.
Proof.
  revert b. induction a as [|x a IH]; intros [|y b]; simpl; try reflexivity.
  intros H. apply andb_prop in H as [Hx Ha].
  destruct (x =? y); [|reflexivity]. simpl. rewrite Hx. apply IH, Ha.
Qed.

Lemma commonpath_two p q :
  isabs p = true -> isabs q = true ->
  commonpath [p; q] = Some (render (lcp (comps_of p) (comps_of q))).
Proof.
  unfold isabs. intros Hp Hq. unfold commonpath. simpl map.
  rewrite Hp, Hq. simpl all_same. cbv iota. simpl negb. cbv iota.
  fold (comps_of p) (comps_of q).
  unfold py_min, py_max. simpl fold_left.
  destruct (list_lt (comps_of q) (comps_of p)) eqn:E1.
  - rewrite (list_lt_asym _ _ E1).
    rewrite common_loop_ordered by (apply list_lt_asym, E1).
    rewrite lcp_comm. reflexivity.
  - destruct (list_lt (comps_of p) (comps_of q)) eqn:E2.
    + rewrite common_loop_ordered by assumption. reflexivity.
    + rewrite common_loop_ordered by apply list_lt_irrefl.
      rewrite <- (list_lt_total _ _ E1 E2). reflexivity.
Qed.

(** Inside [base] means: the names of [base] start the names of the path. *)
Lemma commonpath_contained p rc :
  normal_abs p -> valid_names rc = true ->
  exists c, commonpath [p; render rc] = Some c
            /\ (c =? render rc) = FS.is_prefix rc (comps_of p).
Proof.
  intros Hp Hrc. eexists. split.
  - apply commonpath_two; [apply normal_abs_isabs, Hp | reflexivity].
  - rewrite (comps_of_render _ Hrc).
    destruct (normal_abs_comps _ Hp) as (Hv & _).
    destruct (FS.is_prefix rc (comps_of p)) eqn:E.
    + apply String.eqb_eq. f_equal. rewrite lcp_comm. apply lcp_prefix, E.
    + apply String.eqb_neq. intros H.
      apply render_inj in H; [|apply lcp_valid, Hv | exact Hrc].
      rewrite lcp_comm in H. apply lcp_prefix in H. congruence.
Qed.

End PathFacts.

Module ResolveFacts.
Import PosixPath FS Shape PathFacts.

Lemma loc_eqb_eq a b : loc_eqb a b = true -> a = b.
Proof.
  revert b. induction a as [|x a IH]; intros [|y b]; simpl; try congruence.
  intros H. apply andb_prop in H as [H1 H2].
  apply String.eqb_eq in H1. f_equal; auto.
Qed.

Lemma loc_eqb_refl a : loc_eqb a a = true.
Proof. induction a; simpl; [|rewrite String.eqb_refl]; auto. Qed.

Lemma lookup_link k es t :
  lookup k es = Some (Link t) ->
  In k (link_locs es) /\ String.length t <= max_target es.
Proof.
  induction es as [|[k' v] es IH]; simpl; [discriminate|].
  destruct (loc_eqb k k') eqn:E.
  - apply loc_eqb_eq in E. subst k'. intros [= ->]. simpl. split; [auto | lia].
  - intros H. destruct (IH H) as [H1 H2].
    destruct v; simpl; auto; split; auto; lia.
Qed.

Lemma key_of_render cs : valid_names cs = true -> key_of (render cs) = cs.
Proof.
  intros H. unfold key_of, render. simpl append.
  destruct cs as [|c cs]; [reflexivity|].
  change (str_split (String "/" (String.concat "/" (c :: cs))))
    with ("" :: str_split (String.concat "/" (c :: cs))).
  rewrite str_split_concat;
    [| apply valid_names_no_sep, H | discriminate].
  change (fold_left (norm_step 1) ("" :: c :: cs) [])
    with (fold_left (norm_step 1) (c :: cs) []).
  apply fold_norm_names, H.
Qed.

Lemma canonical_isabs p : canonical p -> isabs p = true.
Proof. intros (cs & _ & ->). reflexivity. Qed.

Lemma canonical_root : canonical "/".
Proof. exists []. split; reflexivity. Qed.

Lemma locate_canonical f cs :
  valid_names cs = true -> locate f (render cs) = cs.
Proof. intros H. unfold locate. simpl isabs. cbv iota. apply key_of_render, H. Qed.

Lemma is_link_here_in f cs :
  valid_names cs = true -> is_link_here f (render cs) = true ->
  In (render cs) (link_paths f)
  /\ String.length (readlink_here f (render cs)) <= max_target (entries f).
Proof.
  intros Hcs. unfold is_link_here, readlink_here.
  rewrite (locate_canonical f cs Hcs).
  destruct cs as [|c cs]; [discriminate|]. simpl node_at.
  destruct (lookup (c :: cs) (entries f)) as [[| |t]|] eqn:E; try discriminate.
  intros _. destruct (lookup_link _ _ _ E) as [H1 H2].
  split; [|assumption]. unfold link_paths. apply in_map, H1.
Qed.

(** *** The measure goes down when a link enters the dictionary *)

Lemma filter_length_le {A} (g h : A -> bool) (l : list A) :
  (forall x, In x l -> g x = true -> h x = true) ->
  List.length (filter g l) <= List.length (filter h l).
Proof.
  induction l as [|x l IH]; intros H; simpl; [lia|].
  assert (IH' := IH (fun y Hy => H y (or_intror Hy))).
  destruct (g x) eqn:Eg.
  - rewrite (H x (or_introl eq_refl) Eg). simpl. lia.
  - destruct (h x); simpl; lia.
Qed.

Lemma filter_length_lt {A} (g h : A -> bool) (l : list A) (k : A) :
  (forall x, In x l -> g x = true -> h x = true) ->
  In k l -> h k = true -> g k = false ->
  List.length (filter g l) < List.length (filter h l).
Proof.
  induction l as [|x l IH]; intros H Hin Hh Hg; [destruct Hin|].
  assert (Hle := filter_length_le g h l (fun y Hy => H y (or_intror Hy))).
  simpl. destruct Hin as [-> | Hin].
  - rewrite Hg, Hh. simpl. lia.
  - assert (IH' := IH (fun y Hy => H y (or_intror Hy)) Hin Hh Hg).
    destruct (g x) eqn:Eg.
    + rewrite (H x (or_introl eq_refl) Eg). simpl. lia.
    + destruct (h x); simpl; lia.
Qed.

Lemma mem_key_cons l k v seen :
  mem_key l ((k, v) :: seen) = (l =? k) || mem_key l seen.
Proof. unfold mem_key. simpl. destruct (l =? k); reflexivity. Qed.

Lemma unseen_mono f seen seen' :
  (forall l, mem_key l seen = true -> mem_key l seen' = true) ->
  unseen f seen' <= unseen f seen.
Proof.
  intros H. unfold unseen. apply filter_length_le. intros x _ Hx.
  apply negb_true_iff in Hx. apply negb_true_iff.
  destruct (mem_key x seen) eqn:E; [|reflexivity].
  rewrite (H x E) in Hx. discriminate.
Qed.

Lemma unseen_enter f seen k v :
  In k (link_paths f) -> mem_key k seen = false ->
  unseen f ((k, v) :: seen) < unseen f seen.
Proof.
  intros Hin Hk. unfold unseen. apply filter_length_lt with (k := k).
  - intros x _. rewrite mem_key_cons. intros Hx.
    apply negb_true_iff in Hx. apply orb_false_elim in Hx as [_ Hx].
    apply negb_true_iff, Hx.
  - exact Hin.
  - rewrite Hk. reflexivity.
  - rewrite mem_key_cons, String.eqb_refl. reflexivity.
Qed.

Lemma unseen_nil f : unseen f [] = List.length (link_locs (entries f)).
Proof.
  unfold unseen, link_paths.
  assert (H : forall l : list string,
             List.length (filter (fun k => negb (mem_key k [])) l) = List.length l).
  { induction l as [|x l IH]; [reflexivity|]. simpl. f_equal. exact IH. }
  rewrite H. apply length_map.
Qed.

(** *** Each round of the loop takes a piece of [rest] *)

Lemma partition_sep_shorter rest name rest' :
  rest <> "" -> partition_sep rest = (name, rest') ->
  String.length rest' < String.length rest /\ no_sep name = true.
Proof.
  revert name rest'. induction rest as [|c rest IH]; intros name rest' Hne;
    [congruence|].
  simpl. destruct (is_sep c) eqn:Ec.
  - intros [= <- <-]. simpl. split; [lia | reflexivity].
  - destruct (partition_sep rest) as [n r] eqn:E. intros [= <- <-].
    destruct rest as [|c' rest0].
    + simpl in E. injection E as <- <-. simpl. rewrite Ec. split; [lia | reflexivity].
    + destruct (IH n r) as [H1 H2]; [discriminate | reflexivity |].
      simpl in *. rewrite Ec, H2. split; [lia | reflexivity].
Qed.

Lemma enter_shape path t p0 r0 :
  canonical path -> enter path t = (p0, r0) ->
  canonical p0 /\ String.length r0 <= String.length t.
Proof.
  intros Hp. unfold enter. destruct (isabs t) eqn:E; intros [= <- <-].
  - split; [apply canonical_root|]. destruct t; simpl; lia.
  - split; [assumption | lia].
Qed.

Lemma walk_S n f path rest seen :
  walk (S n) f path rest seen =
  if rest =? "" then Some (path, true, seen)
  else
    let (name, rest') := partition_sep rest in
    if (name =? "") || (name =? curdir) then walk n f path rest' seen
    else if name =? pardir then
      let path' :=
        if path =? "" then pardir
        else let (h, t) := split path in
             if t =? pardir then join h [pardir; pardir] else h in
      walk n f path' rest' seen
    else
      let newpath := join path [name] in
      if negb (is_link_here f newpath) then walk n f newpath rest' seen
      else
        match seen_get newpath seen with
        | Some (Some p) => walk n f p rest' seen
        | Some None => Some (join newpath [rest'], false, seen)
        | None =>
            let (p0, r0) := enter path (readlink_here f newpath) in
            match walk n f p0 r0 ((newpath, None) :: seen) with
            | None => None
            | Some (p, false, seen') => Some (join p [rest'], false, seen')
            | Some (p, true, seen') =>
                walk n f p rest' ((newpath, Some p) :: seen')
            end
        end.
Proof. reflexivity. Qed.

Lemma parent_canonical path :
  canonical path ->
  canonical (if path =? "" then pardir
             else let (h, t) := split path in
                  if t =? pardir then join h [pardir; pardir] else h).
Proof.
  intros (cs & Hcs & ->). rewrite render_not_empty.
  destruct cs as [|x cs] using rev_ind.
  - rewrite split_root. simpl. apply canonical_root.
  - clear IHcs. rewrite valid_names_app in Hcs.
    apply andb_prop in Hcs as [Hcs Hx]. simpl in Hx. rewrite andb_true_r in Hx.
    rewrite split_render by assumption.
    assert (E : (x =? pardir) = false).
    { unfold valid_name in Hx. repeat (apply andb_prop in Hx as [Hx ?]).
      apply negb_true_iff. assumption. }
    rewrite E. exists cs. auto.
Qed.

Lemma seen_ok_cons_none k seen : seen_ok seen -> seen_ok ((k, None) :: seen).
Proof.
  intros H k' p. simpl. destruct (k' =? k); [discriminate | apply H].
Qed.

Lemma seen_ok_cons_some k q seen :
  canonical q -> seen_ok seen -> seen_ok ((k, Some q) :: seen).
Proof.
  intros Hq H k' p. simpl. destruct (k' =? k); [intros [= <-]; exact Hq | apply H].
Qed.

(** [_joinrealpath] terminates: the length of [rest] and, for each link
    not yet in the dictionary, the longest target are fuel enough. *)
Lemma walk_total f n :
  forall path rest seen,
    canonical path -> seen_ok seen ->
    String.length rest + unseen f seen * (max_target (entries f) + 2) + 1 <= n ->
    exists p ok seen',
      walk n f path rest seen = Some (p, ok, seen')
      /\ isabs p = true
      /\ (ok = true -> canonical p)
      /\ seen_ok seen'
      /\ (forall l, mem_key l seen = true -> mem_key l seen' = true).
Proof.
  set (K := max_target (entries f) + 2).
  induction n as [|n IH]; intros path rest seen Hp Hs Hn; [lia|].
  rewrite walk_S. destruct (rest =? "") eqn:Er.
  { exists path, true, seen. repeat split; auto. apply canonical_isabs, Hp. }
  apply String.eqb_neq in Er.
  destruct (partition_sep rest) as [name rest'] eqn:Epart.
  destruct (partition_sep_shorter _ _ _ Er Epart) as [Hlen Hname].
  destruct ((name =? "") || (name =? curdir)) eqn:E1.
  { apply IH; auto. lia. }
  destruct (name =? pardir) eqn:E2.
  { apply IH; auto; [apply parent_canonical, Hp | lia]. }
  assert (Hv : valid_name name = true).
  { apply orb_false_elim in E1 as [E1 E1']. unfold valid_name.
    rewrite E1, E1', E2, Hname. reflexivity. }
  destruct Hp as (cs & Hcs & ->).
  cbv zeta. rewrite (join_render _ _ Hcs Hv).
  assert (Hcs' : valid_names (cs ++ [name]) = true)
    by (rewrite valid_names_app, Hcs; simpl; rewrite Hv; reflexivity).
  assert (Hnew : canonical (render (cs ++ [name]))) by (eexists; eauto).
  destruct (is_link_here f (render (cs ++ [name]))) eqn:El; simpl negb; cbv iota.
  2:{ apply IH; auto. lia. }
  destruct (is_link_here_in f _ Hcs' El) as [Hin Htgt].
  destruct (seen_get (render (cs ++ [name])) seen) as [[q|]|] eqn:Eseen.
  - apply IH; auto; [apply (Hs _ _ Eseen) | lia].
  - exists (join (render (cs ++ [name])) [rest']), false, seen.
    repeat split; auto; [|discriminate].
    apply join_isabs, canonical_isabs, Hnew.
  - destruct (enter (render cs) (readlink_here f (render (cs ++ [name]))))
      as [p0 r0] eqn:Eenter.
    destruct (enter_shape _ _ _ _ (ex_intro _ cs (conj Hcs eq_refl)) Eenter)
      as [Hp0 Hr0].
    assert (Hmem : mem_key (render (cs ++ [name])) seen = false)
      by (unfold mem_key; rewrite Eseen; reflexivity).
    pose proof (unseen_enter f seen _ None Hin Hmem) as Hlt.
    set (seen1 := (render (cs ++ [name]), None) :: seen) in *.
    assert (Hmul : unseen f seen1 * K + K <= unseen f seen * K).
    { change (unseen f seen1 * K + K) with (unseen f seen1 * K + K).
      replace (unseen f seen1 * K + K) with (S (unseen f seen1) * K) by (simpl; lia).
      apply Nat.mul_le_mono_r. lia. }
    destruct (IH p0 r0 seen1 Hp0 (seen_ok_cons_none _ _ Hs))
      as (p & ok & seen2 & Ew & Habs & Hok & Hs2 & Hmono).
    { unfold K in *. lia. }
    rewrite Ew. destruct ok.
    + specialize (Hok eq_refl).
      set (seen3 := (render (cs ++ [name]), Some p) :: seen2).
      assert (Hmono3 : forall l, mem_key l seen1 = true -> mem_key l seen3 = true).
      { intros l Hl. unfold seen3. rewrite mem_key_cons.
        rewrite (Hmono l Hl). apply orb_true_r. }
      pose proof (unseen_mono f seen1 seen3 Hmono3) as Hle.
      assert (Hmul3 : unseen f seen3 * K <= unseen f seen1 * K)
        by (apply Nat.mul_le_mono_r; exact Hle).
      destruct (IH p rest' seen3 Hok (seen_ok_cons_some _ _ _ Hok Hs2))
        as (p' & ok' & seen4 & Ew' & Habs' & Hok' & Hs4 & Hmono4).
      { unfold K in *. lia. }
      exists p', ok', seen4. repeat split; auto.
      intros l Hl. apply Hmono4, Hmono3. unfold seen1.
      rewrite mem_key_cons, Hl. apply orb_true_r.
    + exists (join p [rest']), false, seen2. repeat split; auto.
      * apply join_isabs, Habs.
      * discriminate.
      * intros l Hl. apply Hmono. unfold seen1.
        rewrite mem_key_cons, Hl. apply orb_true_r.
Qed.

Lemma walk_raises_S n f path rest seen :
  walk_raises (S n) f path rest seen =
  if rest =? "" then Some false
  else
    let (name, rest') := partition_sep rest in
    if (name =? "") || (name =? curdir) then walk_raises n f path rest' seen
    else if name =? pardir then
      let path' :=
        if path =? "" then pardir
        else let (h, t) := split path in
             if t =? pardir then join h [pardir; pardir] else h in
      walk_raises n f path' rest' seen
    else
      let newpath := join path [name] in
      if has_nul newpath then Some true
      else if negb (is_link_here f newpath) then
        walk_raises n f newpath rest' seen
      else
        match seen_get newpath seen with
        | Some (Some p) => walk_raises n f p rest' seen
        | Some None => Some false
        | None =>
            let (p0, r0) := enter path (readlink_here f newpath) in
            match walk_raises n f p0 r0 ((newpath, None) :: seen) with
            | None => None
            | Some true => Some true
            | Some false =>
                match walk n f p0 r0 ((newpath, None) :: seen) with
                | None => None
                | Some (_, false, _) => Some false
                | Some (p, true, seen') =>
                    walk_raises n f p rest' ((newpath, Some p) :: seen')
                end
            end
        end.
Proof. reflexivity. Qed.

(** The fuel that is enough for [walk] is enough to tell whether the walk
    raises. *)
Lemma walk_raises_total f n :
  forall path rest seen,
    canonical path -> seen_ok seen ->
    String.length rest + unseen f seen * (max_target (entries f) + 2) + 1 <= n ->
    exists b, walk_raises n f path rest seen = Some b.
Proof.
  set (K := max_target (entries f) + 2).
  induction n as [|n IH]; intros path rest seen Hp Hs Hn; [lia|].
  rewrite walk_raises_S. destruct (rest =? "") eqn:Er; [eauto|].
  apply String.eqb_neq in Er.
  destruct (partition_sep rest) as [name rest'] eqn:Epart.
  destruct (partition_sep_shorter _ _ _ Er Epart) as [Hlen Hname].
  destruct ((name =? "") || (name =? curdir)) eqn:E1.
  { apply IH; auto. lia. }
  destruct (name =? pardir) eqn:E2.
  { apply IH; auto; [apply parent_canonical, Hp | lia]. }
  assert (Hv : valid_name name = true).
  { apply orb_false_elim in E1 as [E1 E1']. unfold valid_name.
    rewrite E1, E1', E2, Hname. reflexivity. }
  destruct Hp as (cs & Hcs & ->).
  cbv zeta. rewrite (join_render _ _ Hcs Hv).
  destruct (has_nul (render (cs ++ [name]))); [eauto|].
  assert (Hcs' : valid_names (cs ++ [name]) = true)
    by (rewrite valid_names_app, Hcs; simpl; rewrite Hv; reflexivity).
  assert (Hnew : canonical (render (cs ++ [name]))) by (eexists; eauto).
  destruct (is_link_here f (render (cs ++ [name]))) eqn:El; simpl negb; cbv iota.
  2:{ apply IH; auto. lia. }
  destruct (is_link_here_in f _ Hcs' El) as [Hin Htgt].
  destruct (seen_get (render (cs ++ [name])) seen) as [[q|]|] eqn:Eseen.
  - apply IH; auto; [apply (Hs _ _ Eseen) | lia].
  - eauto.
  - destruct (enter (render cs) (readlink_here f (render (cs ++ [name]))))
      as [p0 r0] eqn:Eenter.
    destruct (enter_shape _ _ _ _ (ex_intro _ cs (conj Hcs eq_refl)) Eenter)
      as [Hp0 Hr0].
    assert (Hmem : mem_key (render (cs ++ [name])) seen = false)
      by (unfold mem_key; rewrite Eseen; reflexivity).
    pose proof (unseen_enter f seen _ None Hin Hmem) as Hlt.
    set (seen1 := (render (cs ++ [name]), None) :: seen) in *.
    assert (Hmul : unseen f seen1 * K + K <= unseen f seen * K).
    { replace (unseen f seen1 * K + K) with (S (unseen f seen1) * K)
        by (simpl; lia).
      apply Nat.mul_le_mono_r. lia. }
    assert (Hfuel : String.length r0 + unseen f seen1 * K + 1 <= n)
      by (unfold K in *; lia).
    destruct (IH p0 r0 seen1 Hp0 (seen_ok_cons_none _ _ Hs) Hfuel) as [b0 Eb].
    rewrite Eb. destruct b0; [eauto|].
    destruct (walk_total f n p0 r0 seen1 Hp0 (seen_ok_cons_none _ _ Hs) Hfuel)
      as (p & ok & seen2 & Ew & Habs & Hok & Hs2 & Hmono).
    rewrite Ew. destruct ok; [|eauto].
    specialize (Hok eq_refl).
    set (seen3 := (render (cs ++ [name]), Some p) :: seen2).
    assert (Hmono3 : forall l, mem_key l seen1 = true -> mem_key l seen3 = true).
    { intros l Hl. unfold seen3. rewrite mem_key_cons.
      rewrite (Hmono l Hl). apply orb_true_r. }
    pose proof (unseen_mono f seen1 seen3 Hmono3) as Hle.
    assert (Hmul3 : unseen f seen3 * K <= unseen f seen1 * K)
      by (apply Nat.mul_le_mono_r; exact Hle).
    apply IH; [exact Hok | apply (seen_ok_cons_some _ _ _ Hok Hs2) |].
    unfold K in *. lia.
Qed.

End ResolveFacts.

Module GuardFacts.
Import PosixPath FS Shape PathFacts ResolveFacts Server.

(** For an absolute file name [_joinrealpath] comes back from the walk
    (the fuel is enough) with an absolute path. *)
Lemma joinrealpath_abs f s :
  isabs s = true ->
  exists p ok seen,
    walk (walk_fuel f (str_tail s)) f "/" (str_tail s) [] = Some (p, ok, seen)
    /\ joinrealpath f "" s [] = (p, ok, seen)
    /\ isabs p = true /\ (ok = true -> canonical p).
Proof.
  intros Habs. unfold joinrealpath, enter. rewrite Habs.
  destruct (walk_total f (walk_fuel f (str_tail s)) "/" (str_tail s) [])
    as (p & ok & seen & Ew & Hp & Hok & _ & _).
  - apply canonical_root.
  - intros k q. discriminate.
  - unfold walk_fuel. rewrite unseen_nil. lia.
  - exists p, ok, seen. rewrite Ew. auto.
Qed.

Lemma realpath_normal f s : isabs s = true -> normal_abs (realpath f s).
Proof.
  intros Habs. unfold realpath.
  destruct (joinrealpath_abs f s Habs) as (p & ok & seen & _ & -> & Hp & _).
  unfold abspath. rewrite Hp. apply normpath_abs, Hp.
Qed.

Lemma realpath_join_normal f base l :
  isabs base = true -> normal_abs (realpath f (join base l)).
Proof. intros H. apply realpath_normal, join_isabs, H. Qed.

Lemma concat_not_sep cs :
  valid_names cs = true -> startswith_sep (String.concat "/" cs) = false.
Proof.
  destruct cs as [|c cs]; [reflexivity|]. simpl valid_names.
  intros H. apply andb_prop in H as [Hc _].
  destruct (valid_name_cons _ Hc) as (x & r & -> & Hx).
  destruct cs; simpl; exact Hx.
Qed.

Lemma two_slashes_not_render cs l :
  valid_names cs = true -> valid_names l = true ->
  (render l =? repeat_sep 2 ++ String.concat "/" cs) = false.
Proof.
  intros _ Hl. apply String.eqb_neq. unfold render. simpl.
  intros [= H]. pose proof (concat_not_sep l Hl) as Hn.
  rewrite H in Hn. discriminate.
Qed.

(** The test of the handlers says "outside" exactly when the path is not
    contained in the base, or is a link. *)
Lemma escapes_spec f base p :
  normal_abs base -> normal_abs p ->
  escapes f base p = Some (negb (contained base p) || islink f p).
Proof.
  intros Hb Hp. unfold escapes, contained.
  rewrite commonpath_two
    by (apply normal_abs_isabs; assumption).
  f_equal. f_equal.
  destruct (normal_abs_comps _ Hb) as (Hvb & k & Hk & Eb).
  destruct (normal_abs_comps _ Hp) as (Hvp & _).
  set (bc := comps_of base) in *. set (pc := comps_of p) in *.
  assert (Hl : valid_names (lcp pc bc) = true) by (apply lcp_valid, Hvp).
  destruct Hk as [-> | ->].
  - assert (E : base = render bc) by exact Eb.
    rewrite <- E, String.eqb_refl. simpl andb. f_equal.
    destruct (is_prefix bc pc) eqn:Epre.
    + apply String.eqb_eq. rewrite E. f_equal.
      rewrite lcp_comm. apply lcp_prefix, Epre.
    + apply String.eqb_neq. rewrite E. intros H.
      apply render_inj in H; [|assumption|assumption].
      rewrite lcp_comm in H. apply lcp_prefix in H. congruence.
  - rewrite Eb at 1 2.
    rewrite (two_slashes_not_render bc (lcp pc bc) Hvb Hl).
    rewrite (String.eqb_sym _ (render bc)).
    rewrite (two_slashes_not_render bc bc Hvb Hvb).
    reflexivity.
Qed.

Lemma contained_canonical rc p :
  valid_names rc = true ->
  contained (render rc) p = is_prefix rc (comps_of p).
Proof.
  intros H. unfold contained. rewrite (comps_of_render _ H), String.eqb_refl.
  reflexivity.
Qed.

Lemma is_prefix_app a b : is_prefix a b = true <-> exists more, b = (a ++ more)%list.
Proof.
  revert b. induction a as [|x a IH]; intros b; simpl.
  - split; [eauto | reflexivity].
  - destruct b as [|y b].
    + split; [discriminate | intros (m & H); discriminate].
    + rewrite andb_true_iff, String.eqb_eq, IH. split.
      * intros (-> & m & ->). eauto.
      * intros (m & [= -> ->]). eauto.
Qed.

(** For an absolute file name the fuel is enough to tell whether
    [realpath] raises. *)
Lemma realpath_raises_decided f s :
  isabs s = true ->
  exists b,
    walk_raises (walk_fuel f (str_tail s)) f "/" (str_tail s) [] = Some b
    /\ realpath_raises f s = b.
Proof.
  intros Habs.
  destruct (walk_raises_total f (walk_fuel f (str_tail s)) "/" (str_tail s) [])
    as [b Hb].
  - apply canonical_root.
  - intros k q. discriminate.
  - unfold walk_fuel. rewrite unseen_nil. lia.
  - exists b. split; [exact Hb|].
    unfold realpath_raises, enter. rewrite Habs, Hb. reflexivity.
Qed.

End GuardFacts.

(** ** Facts about lookups in a changed store *)

Module StoreFacts.
Import PosixPath FS Shape Props PathFacts ResolveFacts Server.

Lemma namei_nil b f len fl cur : namei b f len fl cur [] = Some cur.
Proof. destruct b; reflexivity. Qed.

Lemma namei_cons b f len fl cur name rest' :
  namei b f len fl cur (name :: rest') =
  if (name =? "") || (name =? curdir) then namei b f len fl cur rest'
  else if name =? pardir then namei b f len fl (removelast cur) rest'
  else
    match node_at f (cur ++ [name])%list with
    | Some (Link t) =>
        if is_nil rest' && negb fl then Some (cur ++ [name])%list
        else
          match b with
          | 0 => None
          | S b' =>
              if t =? "" then None
              else namei b' f len fl (if isabs t then [] else cur)
                     (str_split t ++ rest')%list
          end
    | Some Dir => namei b f len fl (cur ++ [name])%list rest'
    | Some (File _) => if is_nil rest' then Some (cur ++ [name])%list else None
    | None =>
        if is_nil rest' || len then namei b f len fl (cur ++ [name])%list rest'
        else None
    end.
Proof. destruct b; reflexivity. Qed.

Lemma loc_eq_dec (a b : loc) : {a = b} + {a <> b}.
Proof. apply list_eq_dec, string_dec. Qed.

Lemma is_nil_true {A} (l : list A) : is_nil l = true -> l = [].
Proof. destruct l; [reflexivity | discriminate]. Qed.

(** A strict lookup does not see whether a place holds a file or nothing:
    it can only end there. *)
Lemma namei_same_but_leaf l f f' :
  same_but l f f' ->
  leaf (node_at f l) = true -> leaf (node_at f' l) = true ->
  forall b fl cur rest,
    namei b f false fl cur rest = namei b f' false fl cur rest.
Proof.
  intros [_ Hsame] Hl Hl'.
  assert (Step : forall b,
             (forall b', b = S b' -> forall fl cur rest,
                   namei b' f false fl cur rest = namei b' f' false fl cur rest) ->
             forall fl cur rest,
               namei b f false fl cur rest = namei b f' false fl cur rest).
  { intros b IHb fl cur rest. revert cur.
    induction rest as [|name rest' IHr]; intros cur.
    - rewrite !namei_nil. reflexivity.
    - rewrite !namei_cons.
      destruct ((name =? "") || (name =? curdir)); [apply IHr|].
      destruct (name =? pardir); [apply IHr|].
      destruct (loc_eq_dec (cur ++ [name])%list l) as [E|E].
      + rewrite E.
        destruct (node_at f l) as [[| |]|]; try discriminate Hl;
          destruct (node_at f' l) as [[| |]|]; try discriminate Hl';
          rewrite ?orb_false_r;
          destruct (is_nil rest') eqn:En; try reflexivity;
          apply is_nil_true in En; subst rest'; rewrite ?namei_nil, ?E;
          reflexivity.
      + rewrite <- (Hsame _ E).
        destruct (node_at f (cur ++ [name])%list) as [[| |t]|].
        * reflexivity.
        * apply IHr.
        * destruct (is_nil rest' && negb fl); [reflexivity|].
          destruct b as [|b']; [reflexivity|].
          destruct (t =? ""); [reflexivity|]. apply (IHb b' eq_refl).
        * destruct (is_nil rest' || false); [apply IHr | reflexivity]. }
  induction b as [|b IH].
  - apply Step. intros b' Hb. discriminate Hb.
  - apply Step. intros b' [= <-]. exact IH.
Qed.

(** Following a link in the last place makes no difference when there is
    none. *)
Lemma namei_follow_last f len :
  forall b cur rest,
    not_link f (namei b f len false cur rest) ->
    namei b f len true cur rest = namei b f len false cur rest.
Proof.
  assert (Step : forall b,
             (forall b', b = S b' -> forall cur rest,
                   not_link f (namei b' f len false cur rest) ->
                   namei b' f len true cur rest = namei b' f len false cur rest) ->
             forall cur rest,
               not_link f (namei b f len false cur rest) ->
               namei b f len true cur rest = namei b f len false cur rest).
  { intros b IHb cur rest. revert cur.
    induction rest as [|name rest' IHr]; intros cur.
    - rewrite !namei_nil. reflexivity.
    - rewrite !namei_cons.
      destruct ((name =? "") || (name =? curdir)); [apply IHr|].
      destruct (name =? pardir); [apply IHr|].
      destruct (node_at f (cur ++ [name])%list) as [[| |t]|] eqn:En.
      * reflexivity.
      * apply IHr.
      * destruct (is_nil rest'); cbn [andb negb].
        -- intros H. elim (H t). exact En.
        -- destruct b as [|b']; [reflexivity|].
           destruct (t =? ""); [reflexivity|]. apply (IHb b' eq_refl).
      * destruct (is_nil rest' || len); [apply IHr | reflexivity]. }
  induction b as [|b IH].
  - apply Step. intros b' Hb. discriminate Hb.
  - apply Step. intros b' [= <-]. exact IH.
Qed.

(** No link at the path and something there when followed: the entry
    stands where the path leads. *)
Lemma entry_where_path_leads f s n :
  islink f s = false -> stat f s = Some n ->
  exists k, resolve_entry f s = Some k /\ resolve f s = Some k
            /\ node_at f k = Some n.
Proof.
  unfold islink, lstat, stat, resolve, resolve_entry, lookup_path, bind.
  destruct (s =? ""); [discriminate|].
  intros Hl Hs.
  match type of Hl with
  | context [namei ?b f false false ?st ?r] =>
      pose proof (namei_follow_last f false b st r) as Hf;
      destruct (namei b f false false st r) as [k|] eqn:Er
  end.
  - assert (Hn : not_link f (Some k)).
    { intros t Ht. rewrite Ht in Hl. discriminate Hl. }
    specialize (Hf Hn). rewrite Hf in Hs |- *.
    exists k. auto.
  - rewrite (Hf I) in Hs. discriminate Hs.
Qed.

Lemma lookup_filter_key (p : loc -> bool) k es :
  lookup k (filter (fun e => p (fst e)) es)
  = if p k then lookup k es else None.
Proof.
  induction es as [|[k' v] es IH]; simpl; [destruct (p k); reflexivity|].
  destruct (p k') eqn:Ep; simpl.
  - destruct (loc_eqb k k') eqn:E.
    + apply loc_eqb_eq in E. subst. rewrite Ep. reflexivity.
    + exact IH.
  - destruct (loc_eqb k k') eqn:E.
    + apply loc_eqb_eq in E. subst. rewrite Ep in *. exact IH.
    + exact IH.
Qed.

Lemma loc_eqb_neq a b : a <> b -> loc_eqb a b = false.
Proof.
  intros H. destruct (loc_eqb a b) eqn:E; [|reflexivity].
  elim H. apply loc_eqb_eq, E.
Qed.

Lemma lookup_remove_key l k es :
  lookup k (remove_key l es) = if loc_eqb l k then None else lookup k es.
Proof.
  unfold remove_key.
  rewrite (lookup_filter_key (fun k' => negb (loc_eqb l k'))).
  destruct (loc_eqb l k); reflexivity.
Qed.

Lemma node_at_set f l v k :
  l <> [] ->
  node_at (with_entries f (set_node l v (entries f))) k
  = if loc_eqb k l then Some v else node_at f k.
Proof.
  intros Hl. destruct k as [|x k].
  - simpl. destruct l; [congruence | reflexivity].
  - unfold node_at, with_entries, set_node. cbn [entries lookup].
    destruct (loc_eqb (x :: k) l) eqn:E; [reflexivity|].
    rewrite lookup_remove_key.
    destruct (loc_eqb l (x :: k)) eqn:E2; [|reflexivity].
    apply loc_eqb_eq in E2. subst. rewrite loc_eqb_refl in E. discriminate.
Qed.

Lemma node_at_remove f l k :
  l <> [] ->
  node_at (with_entries f (remove_key l (entries f))) k
  = if loc_eqb k l then None else node_at f k.
Proof.
  intros Hl. destruct k as [|x k].
  - simpl. destruct l; [congruence | reflexivity].
  - unfold node_at, with_entries. cbn [entries].
    rewrite lookup_remove_key.
    destruct (loc_eqb l (x :: k)) eqn:E.
    + apply loc_eqb_eq in E. subst. rewrite loc_eqb_refl. reflexivity.
    + destruct (loc_eqb (x :: k) l) eqn:E2; [|reflexivity].
      apply loc_eqb_eq in E2. subst. rewrite loc_eqb_refl in E. discriminate.
Qed.

(** [makedirs] only adds directories where nothing was. *)
Lemma mkdirs_keeps es pre rest es' k v :
  mkdirs es pre rest = Some es' -> lookup k es = Some v -> lookup k es' = Some v.
Proof.
  revert es pre. induction rest as [|n r IH]; intros es pre; simpl.
  - intros [= <-]. auto.
  - destruct (lookup (pre ++ [n])%list es) as [[| |]|] eqn:E; try discriminate.
    + apply IH.
    + intros Hm Hk. apply (IH _ _ Hm). simpl.
      destruct (loc_eqb k (pre ++ [n])%list) eqn:E2; [|exact Hk].
      apply loc_eqb_eq in E2. subst. congruence.
Qed.

Lemma makedirs_keeps f s f1 k v :
  makedirs f s = Some f1 -> node_at f k = Some v -> node_at f1 k = Some v.
Proof.
  unfold makedirs. destruct (lookup_path f true true s) as [l|]; [|discriminate].
  destruct (mkdirs (entries f) [] l) as [es'|] eqn:E; [|discriminate].
  intros [= <-]. destruct k as [|x k]; [auto|]. simpl.
  apply (mkdirs_keeps _ _ _ _ _ _ E).
Qed.

Lemma lookup_path_same_but_leaf l f f' fl s :
  same_but l f f' ->
  leaf (node_at f l) = true -> leaf (node_at f' l) = true ->
  lookup_path f false fl s = lookup_path f' false fl s.
Proof.
  intros Hs Hl Hl'. unfold lookup_path. destruct (s =? ""); [reflexivity|].
  rewrite <- (proj1 Hs). apply (namei_same_but_leaf l); assumption.
Qed.

Lemma same_but_pointwise l f f' v :
  cwd f' = cwd f ->
  (forall k, node_at f' k = if loc_eqb k l then v else node_at f k) ->
  same_but l f f'.
Proof.
  intros Hc Hp. split; [symmetry; exact Hc|].
  intros k Hk. rewrite Hp, (loc_eqb_neq _ _ Hk). reflexivity.
Qed.

(** What [write_file] does to the store: the place the path leads to held
    a file or nothing and holds the new file afterwards. *)
Lemma write_file_spec f s body f2 :
  write_file f s body = Some f2 ->
  exists l, resolve f s = Some l /\ l <> []
            /\ leaf (node_at f l) = true
            /\ cwd f2 = cwd f
            /\ forall k, node_at f2 k
                         = if loc_eqb k l then Some (File body) else node_at f k.
Proof.
  unfold write_file.
  destruct (resolve f s) as [[|x l]|] eqn:Er; try discriminate.
  destruct (node_at f (removelast (x :: l))) as [[| |]|]; try discriminate.
  destruct (node_at f (x :: l)) as [[| |]|] eqn:En; try discriminate;
    intros [= <-]; exists (x :: l);
    (split; [reflexivity|]); (split; [discriminate|]);
    (split; [rewrite En; reflexivity|]); (split; [reflexivity|]);
    intros k; apply node_at_set; discriminate.
Qed.

Lemma write_file_reads_back f s body f2 :
  write_file f s body = Some f2 ->
  exists l, resolve f s = Some l /\ resolve f2 s = Some l
            /\ read_file f2 s = Some body
            /\ forall k, k <> l -> node_at f2 k = node_at f k.
Proof.
  intros H. destruct (write_file_spec _ _ _ _ H) as (l & Er & Hl & Hleaf & Hc & Hp).
  assert (Hs : same_but l f f2) by (eapply same_but_pointwise; eassumption).
  assert (Hl2 : node_at f2 l = Some (File body))
    by (rewrite Hp, loc_eqb_refl; reflexivity).
  assert (Er2 : resolve f2 s = Some l).
  { unfold resolve in *.
    rewrite <- (lookup_path_same_but_leaf l f f2 true s Hs Hleaf); [exact Er|].
    rewrite Hl2. reflexivity. }
  exists l. split; [exact Er|]. split; [exact Er2|]. split.
  - unfold read_file, stat, bind. rewrite Er2, Hl2. reflexivity.
  - intros k Hk. rewrite Hp, (loc_eqb_neq _ _ Hk). reflexivity.
Qed.

(** What [remove] does on a path that is a regular file and no link. *)
Lemma remove_file_spec f s :
  islink f s = false -> isfile f s = true ->
  exists l f', resolve f s = Some l /\ remove f s = Some f'
               /\ stat f' s = None
               /\ forall k, node_at f' k = if loc_eqb k l then None else node_at f k.
Proof.
  intros Hl Hf. unfold isfile in Hf.
  destruct (stat f s) as [[b| |]|] eqn:Es; try discriminate Hf.
  destruct (entry_where_path_leads f s _ Hl Es) as (l & Ee & Er & En).
  assert (Hne : l <> []) by (intros ->; discriminate En).
  exists l, (with_entries f (remove_key l (entries f))).
  assert (Hp : forall k,
             node_at (with_entries f (remove_key l (entries f))) k
             = if loc_eqb k l then None else node_at f k)
    by (intros k; apply node_at_remove, Hne).
  split; [exact Er|]. split.
  - unfold remove. rewrite Ee. destruct l; [congruence|]. rewrite En. reflexivity.
  - split; [|exact Hp].
    assert (Hs : same_but l f (with_entries f (remove_key l (entries f))))
      by (eapply same_but_pointwise; [reflexivity | exact Hp]).
    unfold stat, bind, resolve in *.
    rewrite <- (lookup_path_same_but_leaf l f _ true s Hs).
    + rewrite Er, Hp, loc_eqb_refl. reflexivity.
    + rewrite En. reflexivity.
    + rewrite Hp, loc_eqb_refl. reflexivity.
Qed.

(** What [rmtree] does on a path that is a directory and no link. *)
Lemma rmtree_dir_spec f s :
  islink f s = false -> isdir f s = true ->
  exists l, resolve f s = Some l
            /\ snd (rmtree f s) = is_nil l
            /\ forall k, k <> [] ->
                 node_at (fst (rmtree f s)) k
                 = if is_prefix l k then None else node_at f k.
Proof.
  intros Hl Hd. unfold isdir in Hd.
  destruct (stat f s) as [[| |]|] eqn:Es; try discriminate Hd.
  destruct (entry_where_path_leads f s _ Hl Es) as (l & Ee & Er & En).
  exists l. split; [exact Er|].
  unfold rmtree. rewrite Ee, En. cbn [fst snd]. split; [reflexivity|].
  intros [|x k] Hk; [congruence|].
  unfold node_at, with_entries. cbn [entries].
  rewrite (lookup_filter_key (fun k' => negb (is_prefix l k'))).
  destruct (is_prefix l (x :: k)); reflexivity.
Qed.


Lemma loc_eqb_app_nil (a m : loc) : loc_eqb a (a ++ m)%list = is_nil m.
Proof.
  induction a as [|x a IH]; simpl.
  - destruct m; reflexivity.
  - rewrite String.eqb_refl. exact IH.
Qed.

Lemma loc_eqb_is_prefix a b : loc_eqb a b = true -> is_prefix a b = true.
Proof.
  intros H. apply loc_eqb_eq in H. subst.
  apply GuardFacts.is_prefix_app. exists []. symmetry. apply app_nil_r.
Qed.

Lemma is_prefix_split a b :
  is_prefix a b = true -> b = (a ++ skipn (List.length a) b)%list.
Proof.
  intros H. apply GuardFacts.is_prefix_app in H as [m ->].
  rewrite skipn_app, skipn_all, Nat.sub_diag. reflexivity.
Qed.

Lemma not_prefix_neq a b k :
  is_prefix a k = false -> is_prefix a b = true -> loc_eqb k b = false.
Proof.
  intros Hk Hb. destruct (loc_eqb k b) eqn:E; [|reflexivity].
  apply loc_eqb_eq in E. subst. congruence.
Qed.

Lemma is_prefix_app_l (a m : loc) : is_prefix a (a ++ m)%list = true.
Proof. apply GuardFacts.is_prefix_app. exists m. reflexivity. Qed.

Lemma not_prefix_neqb a k : is_prefix a k = false -> loc_eqb a k = false.
Proof.
  intros H. destruct (loc_eqb a k) eqn:E; [|reflexivity].
  apply loc_eqb_is_prefix in E. congruence.
Qed.

(** The three lookups after [os.rename] moved [ks] to [kd]. *)
Section Rebase.
Variables ks kd : loc.
Hypothesis apart : is_prefix kd ks = false.

Lemma lookup_rebase_dst es : lookup kd (moved ks kd es) = lookup ks es.
Proof.
  unfold moved. induction es as [|[k' v] es IH]; [reflexivity|].
  cbn [filter fst lookup].
  destruct (is_prefix kd k') eqn:Ed; cbn [negb].
  - rewrite (not_prefix_neq kd k' ks apart Ed). exact IH.
  - cbn [map lookup]. unfold rebase at 1. cbn [fst snd].
    destruct (is_prefix ks k') eqn:Es; cbn [fst].
    + rewrite (is_prefix_split _ _ Es) at 2.
      rewrite !loc_eqb_app_nil.
      destruct (is_nil (skipn (List.length ks) k')); [reflexivity | exact IH].
    + rewrite (not_prefix_neqb _ _ Ed), (not_prefix_neqb _ _ Es). exact IH.
Qed.

Lemma lookup_rebase_src es : lookup ks (moved ks kd es) = None.
Proof.
  unfold moved. induction es as [|[k' v] es IH]; [reflexivity|].
  cbn [filter fst].
  destruct (is_prefix kd k') eqn:Ed; cbn [negb]; [exact IH|].
  cbn [map lookup]. unfold rebase at 1. cbn [fst snd].
  destruct (is_prefix ks k') eqn:Es; cbn [fst].
  - rewrite (not_prefix_neq kd _ ks apart (is_prefix_app_l kd _)). exact IH.
  - rewrite (not_prefix_neqb _ _ Es). exact IH.
Qed.

Lemma lookup_rebase_other k es :
  is_prefix ks k = false -> is_prefix kd k = false ->
  lookup k (moved ks kd es) = lookup k es.
Proof.
  intros Hs Hd. unfold moved. induction es as [|[k' v] es IH]; [reflexivity|].
  cbn [filter fst lookup].
  destruct (is_prefix kd k') eqn:Ed; cbn [negb].
  - rewrite (not_prefix_neq kd k' k Hd Ed). exact IH.
  - cbn [map lookup]. unfold rebase at 1. cbn [fst snd].
    destruct (is_prefix ks k') eqn:Es; cbn [fst].
    + rewrite (not_prefix_neq kd _ k Hd (is_prefix_app_l kd _)).
      rewrite (not_prefix_neq ks k' k Hs Es). exact IH.
    + rewrite IH. reflexivity.
Qed.

End Rebase.

(** *** Stores without symbolic links: lookups are lexical *)

Lemma namei_lexical f :
  link_free f ->
  forall cs, no_pardir cs = true ->
  forall b len fl cur l,
    namei b f len fl cur cs = Some l -> l = (cur ++ filter keep_comp cs)%list.
Proof.
  intros Hlf cs. induction cs as [|name rest IH]; intros Hp b len fl cur l.
  - rewrite namei_nil. intros [= <-]. simpl. symmetry. apply app_nil_r.
  - simpl in Hp. apply andb_prop in Hp as [Hn Hp].
    rewrite namei_cons. cbn [filter]. unfold keep_comp at 1.
    destruct (name =? "") eqn:E1; cbn [orb negb andb]; [apply (IH Hp)|].
    destruct (name =? curdir) eqn:E2; cbn [orb negb andb]; [apply (IH Hp)|].
    apply negb_true_iff in Hn. rewrite Hn.
    assert (Hgo : forall l0,
               namei b f len fl (cur ++ [name])%list rest = Some l0 ->
               l0 = (cur ++ name :: filter keep_comp rest)%list).
    { intros l0 H0. rewrite (IH Hp _ _ _ _ _ H0), <- app_assoc. reflexivity. }
    assert (Hend : is_nil rest = true ->
                   (cur ++ [name])%list
                   = (cur ++ name :: filter keep_comp rest)%list).
    { intros Hr. apply is_nil_true in Hr. subst rest. reflexivity. }
    destruct (node_at f (cur ++ [name])%list) as [[bd| |t]|] eqn:En.
    + destruct (is_nil rest) eqn:Er; [|discriminate].
      intros [= <-]. apply Hend, eq_refl.
    + apply Hgo.
    + elim (Hlf _ _ En).
    + destruct (is_nil rest || len); [apply Hgo | discriminate].
Qed.

Lemma no_pardir_valid cs : valid_names cs = true -> no_pardir cs = true.
Proof.
  unfold valid_names, no_pardir. intros H. apply forallb_forall.
  intros c Hc. apply (proj1 (forallb_forall _ _) H) in Hc.
  unfold valid_name in Hc. repeat (apply andb_prop in Hc as [Hc ?]).
  assumption.
Qed.

Lemma str_split_concat_no_pardir cs :
  valid_names cs = true -> no_pardir (str_split (String.concat "/" cs)) = true.
Proof.
  intros H. destruct cs as [|c cs]; [reflexivity|].
  rewrite str_split_concat;
    [apply no_pardir_valid, H | apply valid_names_no_sep, H | discriminate].
Qed.

Lemma normal_abs_no_pardir p : normal_abs p -> no_pardir (str_split p) = true.
Proof.
  intros (k & cs & [-> | ->] & Hcs & ->); simpl;
    rewrite ?is_sep_sep; simpl; apply str_split_concat_no_pardir, Hcs.
Qed.

(** In a store without links a path in normal form leads to the place it
    spells. *)
Lemma lookup_path_lexical f p len fl l :
  link_free f -> normal_abs p ->
  lookup_path f len fl p = Some l -> l = comps_of p.
Proof.
  intros Hlf Hp. unfold lookup_path.
  destruct (p =? ""); [discriminate|].
  rewrite (normal_abs_isabs _ Hp). intros H.
  apply (namei_lexical f Hlf _ (normal_abs_no_pardir _ Hp)) in H.
  exact H.
Qed.

Lemma is_prefix_trans a b c :
  is_prefix a b = true -> is_prefix b c = true -> is_prefix a c = true.
Proof.
  intros H1 H2. apply GuardFacts.is_prefix_app in H1 as [m ->].
  apply GuardFacts.is_prefix_app in H2 as [m' ->].
  rewrite <- app_assoc. apply is_prefix_app_l.
Qed.

Lemma outside_not_below a b k :
  is_prefix a b = true -> is_prefix a k = false -> is_prefix b k = false.
Proof.
  intros Hab Hk. destruct (is_prefix b k) eqn:E; [|reflexivity].
  rewrite (is_prefix_trans _ _ _ Hab E) in Hk. discriminate Hk.
Qed.

Lemma contained_below rc p :
  valid_names rc = true -> contained (render rc) p = true ->
  is_prefix rc (comps_of p) = true.
Proof.
  intros Hrc H. unfold contained in H. apply andb_prop in H as [_ H].
  rewrite (comps_of_render _ Hrc) in H. exact H.
Qed.

Lemma no_links_link_free f : no_links f = true -> link_free f.
Proof.
  unfold no_links, link_free. intros H [|x k] t; [discriminate|].
  unfold node_at. induction (entries f) as [|[k' v] es IH]; [discriminate|].
  simpl in H. apply andb_prop in H as [Hv H]. cbn [lookup].
  destruct (loc_eqb (x :: k) k'); [|apply IH, H].
  destruct v; [discriminate | discriminate | discriminate Hv].
Qed.

(** What [os.rename] leaves: the source entry at the destination, nothing
    at the source, every place outside the two as it was. *)
Lemma rename_effect f src dst f' :
  rename f src dst = Some f' ->
  exists ks kd n,
    resolve_entry f src = Some ks
    /\ resolve_entry f dst = Some kd
    /\ node_at f ks = Some n
    /\ (ks = kd -> f' = f)
    /\ (is_prefix kd ks = false ->
        node_at f' kd = Some n
        /\ node_at f' ks = None
        /\ forall k, is_prefix ks k = false -> is_prefix kd k = false ->
                     node_at f' k = node_at f k).
Proof.
  intros Er. unfold rename in Er.
  destruct (resolve_entry f src) as [[|x ks]|]; try discriminate Er.
  destruct (resolve_entry f dst) as [[|y kd]|]; try discriminate Er.
  destruct (node_at f (x :: ks)) as [n|] eqn:En; [|discriminate Er].
  destruct (node_at f (removelast (y :: kd))) as [[| |]|]; try discriminate Er.
  exists (x :: ks), (y :: kd), n.
  split; [reflexivity|]. split; [reflexivity|]. split; [exact En|].
  destruct (loc_eqb (x :: ks) (y :: kd)) eqn:E.
  - injection Er as <-. split; [reflexivity|].
    intros Hp. apply loc_eqb_eq in E. rewrite E in Hp.
    rewrite (loc_eqb_is_prefix _ _ (loc_eqb_refl _)) in Hp. discriminate Hp.
  - split.
    { intros Heq. rewrite Heq, loc_eqb_refl in E. discriminate E. }
    cbv zeta in Er.
    match type of Er with
    | (if ?c then _ else _) = _ => destruct c; [|discriminate Er]
    end.
    injection Er as <-. intros Hp.
    change (with_entries f _)
      with (with_entries f (moved (x :: ks) (y :: kd) (entries f))).
    split; [|split].
    + unfold node_at, with_entries. cbn [entries].
      rewrite (lookup_rebase_dst _ _ Hp). exact En.
    + unfold node_at, with_entries. cbn [entries].
      apply (lookup_rebase_src _ _ Hp).
    + intros [|z k] Hs Hd; [reflexivity|].
      unfold node_at, with_entries. cbn [entries].
      apply (lookup_rebase_other _ _ _ _ Hs Hd).
Qed.

End StoreFacts.

(** ** Facts about stores without symbolic links *)

Module LinkFreeFacts.
Import PosixPath FS Shape Props PathFacts ResolveFacts GuardFacts Server.
Import StoreFacts.

Lemma is_link_here_free f s : link_free f -> is_link_here f s = false.
Proof.
  intros H. unfold is_link_here.
  destruct (node_at f (locate f s)) as [[| |t]|] eqn:E; try reflexivity.
  elim (H _ _ E).
Qed.

(** Without links [_joinrealpath] never meets a loop and stays
    canonical. *)
Lemma walk_link_free f :
  link_free f ->
  forall n path rest seen p ok seen',
    canonical path ->
    walk n f path rest seen = Some (p, ok, seen') -> canonical p.
Proof.
  intros Hlf. induction n as [|n IH]; intros path rest seen p ok seen' Hp;
    [discriminate|].
  rewrite walk_S. destruct (rest =? "") eqn:Er.
  { intros [= <- _ _]. exact Hp. }
  apply String.eqb_neq in Er.
  destruct (partition_sep rest) as [name rest'] eqn:Epart.
  destruct (partition_sep_shorter _ _ _ Er Epart) as [_ Hname].
  destruct ((name =? "") || (name =? curdir)) eqn:E1.
  { apply IH, Hp. }
  destruct (name =? pardir) eqn:E2.
  { apply IH, parent_canonical, Hp. }
  assert (Hv : valid_name name = true).
  { apply orb_false_elim in E1 as [E1 E1']. unfold valid_name.
    rewrite E1, E1', E2, Hname. reflexivity. }
  destruct Hp as (cs & Hcs & ->).
  cbv zeta. rewrite (join_render _ _ Hcs Hv).
  rewrite (is_link_here_free f _ Hlf). cbn [negb].
  apply IH. exists (cs ++ [name])%list. split; [|reflexivity].
  rewrite valid_names_app, Hcs. simpl. rewrite Hv. reflexivity.
Qed.

Lemma initial_slashes_render cs :
  valid_names cs = true -> initial_slashes (render cs) = 1.
Proof.
  intros H. destruct cs as [|c cs]; [reflexivity|].
  simpl in H. apply andb_prop in H as [Hc _].
  destruct (valid_name_cons _ Hc) as (ch & r & -> & Hch).
  unfold render. destruct cs as [|c2 cs].
  - simpl. destruct r; simpl; rewrite Hch; reflexivity.
  - rewrite concat_cons2. simpl. rewrite Hch.
    destruct (r ++ _); reflexivity.
Qed.

Lemma normpath_render cs : valid_names cs = true -> normpath (render cs) = render cs.
Proof.
  intros H. unfold normpath. rewrite render_not_empty.
  rewrite (initial_slashes_render _ H).
  change (fold_left (norm_step 1) (str_split (render cs)) [])
    with (key_of (render cs)).
  rewrite (key_of_render _ H). cbv zeta.
  change (repeat_sep 1 ++ String.concat "/" cs) with (render cs).
  rewrite render_not_empty. reflexivity.
Qed.

Lemma realpath_canonical f s :
  link_free f -> isabs s = true -> canonical (realpath f s).
Proof.
  intros Hlf Habs. unfold realpath.
  destruct (joinrealpath_abs f s Habs) as (p & ok & seen & Ew & -> & Hp & _).
  apply (walk_link_free f Hlf) in Ew; [|apply canonical_root].
  destruct Ew as (cs & Hcs & ->).
  unfold abspath. simpl isabs. cbv iota.
  rewrite (normpath_render _ Hcs). exists cs. auto.
Qed.

Lemma dirname_render cs n :
  valid_names cs = true -> valid_name n = true ->
  dirname (render (cs ++ [n])) = render cs.
Proof.
  intros Hcs Hn. change (dirname (render (cs ++ [n])))
    with (fst (split (render (cs ++ [n])))).
  rewrite (split_render _ _ Hcs Hn). reflexivity.
Qed.

Lemma is_prefix_snoc a cs n :
  is_prefix a (cs ++ [n])%list = true ->
  is_prefix a cs = true \/ a = (cs ++ [n])%list.
Proof.
  revert a. induction cs as [|c cs IH]; intros [|x a]; simpl; auto.
  - rewrite andb_true_iff, String.eqb_eq. intros [-> H].
    destruct a; [auto | discriminate H].
  - rewrite !andb_true_iff, String.eqb_eq. intros [-> H].
    destruct (IH _ H) as [H1 | ->]; auto.
Qed.

Lemma is_prefix_refl a : is_prefix a a = true.
Proof. apply loc_eqb_is_prefix, loc_eqb_refl. Qed.

(** Two places above the same place: one is above the other. *)
Lemma prefix_comparable a b l :
  is_prefix a l = true -> is_prefix b l = true ->
  is_prefix a b = true \/ is_prefix b a = true.
Proof.
  revert a b. induction l as [|x l IH]; intros [|y a] [|z b]; simpl; auto;
    try discriminate.
  rewrite !andb_true_iff, !String.eqb_eq.
  intros [-> Ha] [-> Hb].
  destruct (IH a b Ha Hb); [left | right]; auto.
Qed.

(** The directory of the root: the walk to it passed directories only. *)
Lemma namei_passes_dirs f :
  link_free f ->
  forall cs, valid_names cs = true ->
  forall b fl cur l,
    namei b f false fl cur cs = Some l -> node_at f l = Some Dir ->
    forall a, a <> [] -> is_prefix a cs = true ->
              node_at f (cur ++ a)%list = Some Dir.
Proof.
  intros Hlf cs. induction cs as [|name rest IH]; intros Hv b fl cur l.
  - intros _ _ [|x a] Ha; [congruence | discriminate].
  - simpl in Hv. apply andb_prop in Hv as [Hn Hv].
    rewrite namei_cons.
    unfold valid_name in Hn. repeat (apply andb_prop in Hn as [Hn ?]).
    apply negb_true_iff in Hn, H0, H1. rewrite Hn, H1, H0. cbn [orb].
    intros Hw Hd [|x a] Hne Hpre; [congruence|].
    simpl in Hpre. apply andb_prop in Hpre as [Hx Hpre].
    apply String.eqb_eq in Hx. subst x.
    assert (Hhere : node_at f (cur ++ [name])%list = Some Dir
                    /\ namei b f false fl (cur ++ [name])%list rest = Some l).
    { destruct (node_at f (cur ++ [name])%list) as [[bd| |t]|] eqn:En.
      - destruct (is_nil rest); [|discriminate Hw].
        injection Hw as <-. congruence.
      - auto.
      - elim (Hlf _ _ En).
      - rewrite orb_false_r in Hw. destruct (is_nil rest) eqn:Er;
          [|discriminate Hw].
        apply is_nil_true in Er. subst rest. rewrite namei_nil in Hw.
        injection Hw as <-. congruence. }
    destruct Hhere as [Hdir Hw'].
    destruct a as [|y a]; [exact Hdir|].
    replace (cur ++ name :: y :: a)%list with ((cur ++ [name]) ++ y :: a)%list
      by (rewrite <- app_assoc; reflexivity).
    apply (IH Hv b fl _ l Hw' Hd); [discriminate | exact Hpre].
Qed.

Lemma isdir_rooted f rc :
  link_free f -> valid_names rc = true ->
  isdir f (render rc) = true -> rooted f rc.
Proof.
  intros Hlf Hrc Hd a Hne Ha. unfold isdir, stat, bind, resolve in Hd.
  destruct (lookup_path f false true (render rc)) as [l|] eqn:El;
    [|discriminate Hd].
  destruct (node_at f l) as [[| |]|] eqn:En; try discriminate Hd.
  unfold lookup_path in El. rewrite render_not_empty in El.
  simpl isabs in El. cbv iota in El.
  destruct rc as [|c rc]; [destruct a; [congruence | discriminate Ha]|].
  unfold render in El.
  change ("/" ++ String.concat "/" (c :: rc))
    with (String sep (String.concat "/" (c :: rc))) in El.
  rewrite str_split_cons_sep, str_split_concat in El;
    [| apply valid_names_no_sep, Hrc | discriminate].
  rewrite namei_cons in El. cbn [String.eqb orb] in El.
  apply (namei_passes_dirs f Hlf (c :: rc) Hrc _ _ [] l El En a Hne Ha).
Qed.

(** [makedirs] adds entries only on the way to its target. *)
Lemma mkdirs_elsewhere es pre rest es' k :
  mkdirs es pre rest = Some es' ->
  is_prefix k (pre ++ rest)%list = false -> lookup k es' = lookup k es.
Proof.
  revert es pre. induction rest as [|n r IH]; intros es pre; simpl.
  - intros [= <-]. reflexivity.
  - intros Hm Hk.
    assert (Hk' : is_prefix k ((pre ++ [n]) ++ r)%list = false)
      by (rewrite <- app_assoc; exact Hk).
    destruct (lookup (pre ++ [n])%list es) as [[| |]|];
      try discriminate Hm.
    + apply (IH _ _ Hm Hk').
    + rewrite (IH _ _ Hm Hk'). simpl.
      destruct (loc_eqb k (pre ++ [n])%list) eqn:E; [|reflexivity].
      apply loc_eqb_eq in E. subst k.
      rewrite is_prefix_app_l in Hk'. discriminate Hk'.
Qed.

Lemma mkdirs_no_links es pre rest es' :
  mkdirs es pre rest = Some es' ->
  no_links (mkfs "" es) = true -> no_links (mkfs "" es') = true.
Proof.
  unfold no_links. cbn [entries].
  revert es pre. induction rest as [|n r IH]; intros es pre; simpl.
  - intros [= <-]. auto.
  - destruct (lookup (pre ++ [n])%list es) as [[| |]|]; try discriminate.
    + apply IH.
    + intros Hm Hes. apply (IH _ _ Hm). simpl. exact Hes.
Qed.

Lemma remove_key_no_links l es :
  no_links (mkfs "" es) = true -> no_links (mkfs "" (remove_key l es)) = true.
Proof.
  unfold no_links, remove_key. cbn [entries].
  induction es as [|e es IH]; simpl; [auto|].
  intros H. apply andb_prop in H as [He Hes].
  destruct (negb (loc_eqb l (fst e))); simpl; [rewrite He|]; auto.
Qed.

(** One [makedirs] towards a place at, below or above the root. *)
Lemma makedirs_confined f rc p f1 :
  no_links f = true -> rooted f rc -> normal_abs p ->
  is_prefix rc (comps_of p) = true \/ is_prefix (comps_of p) rc = true ->
  makedirs f p = Some f1 ->
  no_links f1 = true /\ rooted f1 rc
  /\ forall k, is_prefix rc k = false -> node_at f1 k = node_at f k.
Proof.
  intros Hnl Hr Hp Hrel Hm.
  pose proof (no_links_link_free f Hnl) as Hlf.
  assert (Hr1 : rooted f1 rc).
  { intros a Hne Ha. apply (makedirs_keeps _ _ _ _ _ Hm), Hr; assumption. }
  unfold makedirs in Hm.
  destruct (lookup_path f true true p) as [l|] eqn:El; [|discriminate Hm].
  destruct (mkdirs (entries f) [] l) as [es'|] eqn:Em; [|discriminate Hm].
  injection Hm as <-.
  rewrite (lookup_path_lexical _ _ _ _ _ Hlf Hp El) in Em.
  split; [|split; [exact Hr1|]].
  - apply (mkdirs_no_links _ _ _ _ Em). exact Hnl.
  - intros k Hk. destruct k as [|x k]; [reflexivity|].
    destruct (is_prefix (x :: k) (comps_of p)) eqn:Ek.
    + assert (Hup : is_prefix (x :: k) rc = true).
      { destruct Hrel as [Hrel | Hrel].
        - destruct (prefix_comparable _ _ _ Ek Hrel) as [H | H]; [exact H|].
          congruence.
        - apply (is_prefix_trans _ _ _ Ek Hrel). }
      rewrite (Hr (x :: k) ltac:(discriminate) Hup).
      apply Hr1; [discriminate | exact Hup].
    + unfold node_at, with_entries. cbn [entries].
      apply (mkdirs_elsewhere _ _ _ _ _ Em). exact Ek.
Qed.

(** One [write_file] at a place at or below the root. *)
Lemma write_confined f rc p body f2 :
  no_links f = true -> rooted f rc -> normal_abs p ->
  is_prefix rc (comps_of p) = true ->
  write_file f p body = Some f2 ->
  no_links f2 = true /\ rooted f2 rc
  /\ forall k, is_prefix rc k = false -> node_at f2 k = node_at f k.
Proof.
  intros Hnl Hr Hp Hin Hw.
  pose proof (no_links_link_free f Hnl) as Hlf.
  destruct (write_file_spec _ _ _ _ Hw) as (l & Er & Hne & Hleaf & _ & Hat).
  unfold resolve in Er.
  pose proof (lookup_path_lexical _ _ _ _ _ Hlf Hp Er) as El. subst l.
  split; [|split].
  - unfold write_file in Hw. unfold resolve in Hw. rewrite Er in Hw.
    destruct (comps_of p) as [|c cs]; [elim Hne; reflexivity|].
    destruct (node_at f (removelast (c :: cs))) as [[| |]|];
      try discriminate Hw.
    destruct (node_at f (c :: cs)) as [[| |]|]; try discriminate Hw;
      injection Hw as <-; unfold no_links, with_entries, set_node;
      cbn [entries forallb snd andb];
      apply (remove_key_no_links (c :: cs) (entries f) Hnl).
  - intros a Hna Ha. rewrite Hat.
    destruct (loc_eqb a (comps_of p)) eqn:E; [|apply Hr; assumption].
    apply loc_eqb_eq in E. subst a. rewrite (Hr _ Hna Ha) in Hleaf.
    discriminate Hleaf.
  - intros k Hk. rewrite Hat, (not_prefix_neq rc _ k Hk Hin). reflexivity.
Qed.

Lemma lookup_entry_below f rc p fl l :
  link_free f -> valid_names rc = true -> normal_abs p ->
  contained (render rc) p = true ->
  lookup_path f false fl p = Some l -> is_prefix rc l = true.
Proof.
  intros Hlf Hrc Hp Hc El.
  rewrite (lookup_path_lexical _ _ _ _ _ Hlf Hp El).
  apply contained_below; assumption.
Qed.

End LinkFreeFacts.

(** ** Path resolution (C1) *)

Module Containment.
Import PosixPath FS Shape PathFacts ResolveFacts GuardFacts Server Fixtures.

Lemma root_normal rc : valid_names rc = true -> normal_abs (render rc).
Proof. apply render_normal. Qed.

Lemma guard_at_root f rc path :
  valid_names rc = true ->
  escapes f (render rc) (realpath f (join (render rc) [path]))
  = Some (negb (contained (render rc) (realpath f (join (render rc) [path]))
                && negb (islink f (realpath f (join (render rc) [path]))))).
Proof.
  intros H. rewrite escapes_spec.
  - rewrite negb_andb, negb_involutive. reflexivity.
  - apply root_normal, H.
  - apply realpath_join_normal. reflexivity.
Qed.

(** What the handlers test: for a canonical root and any logical path
    the request goes on exactly when the path [realpath] hands back has
    the root's names as a prefix of its own names (names are compared
    whole, a sibling [/srv-evil] is outside [/srv]) and is no symbolic
    link; otherwise [MainHandler.get] answers 403 "Forbidden". *)
Lemma guard_accepts_iff_name_prefix :
  forall (f : fs) (rc : list string) (path : string),
    valid_names rc = true ->
    let root := render rc in
    let rp := realpath f (join root [path]) in
    let accepted := contained root rp && negb (islink f rp) in
    escapes f root rp = Some (negb accepted)
    /\ (contained root rp = true
        <-> exists more, comps_of rp = (rc ++ more)%list)
    /\ (forall user download stream,
          truthy user = true ->
          (MainHandler_get f root user path download stream
           = Reply 403 [] "Forbidden" <-> accepted = false)).
Proof.
  intros f rc path Hrc root rp accepted.
  assert (G : escapes f root rp = Some (negb accepted))
    by (apply guard_at_root, Hrc).
  split; [exact G|]. split.
  { unfold root. rewrite (contained_canonical _ _ Hrc). apply is_prefix_app. }
  intros user download stream Hu.
  unfold MainHandler_get, authenticated. rewrite Hu.
  cbv zeta. fold root. fold rp. rewrite G.
  destruct accepted; cbn [negb]; cbv iota.
  + split; [|discriminate]. intros H. exfalso.
    destruct (isdir f rp).
    * destruct (listdir f rp); discriminate.
    * destruct (isfile f rp); [|discriminate].
      destruct (truthy download).
      -- destruct (header_value_ok _); cbn [negb] in H;
           [destruct (read_file f rp)|]; discriminate H.
      -- destruct (read_file f rp); discriminate H.
  + split; reflexivity.
Qed.

(** C1: the test is made on the path [realpath] hands back, and on a
    link loop that path is not resolved to the end: [realpath] gives up
    at the loop, leaves the rest of the path as it was asked, and
    [abspath] then folds [loop/..] away by name.  With a link to itself
    and a link out of the root in the served directory, the path
    [loop/../evil/passwd] passes the test although it leads to
    [/etc/passwd], which is neither the root nor below it: the file is
    sent as a download, shown as a page and tailed.  The same link asked
    for directly is refused. *)
Theorem link_loop_defeats_containment :
  let f := with_loop_and_exit in
  let path := "loop/../evil/passwd" in
  let rp := realpath f (join "/srv" [path]) in
  rp = "/srv/evil/passwd"
  /\ contained "/srv" rp = true
  /\ islink f rp = false
  /\ resolve f rp = Some ["etc"; "passwd"]
  /\ is_prefix ["srv"] ["etc"; "passwd"] = false
  /\ MainHandler_get f "/srv" authenticated_user path (Some "1") None
     = Reply 200
         [("Content-Type", "application/octet-stream");
          ("Content-Disposition",
           "attachment; filename=" ++ dquote ++ "passwd" ++ dquote)]
         "root"
  /\ MainHandler_get f "/srv" authenticated_user path None None
     = Render (FilePage "passwd" path "root" false)
  /\ sent (FileStreamHandler_open f "/srv" authenticated_user path new_session)
     = ["root"]
  /\ MainHandler_get f "/srv" authenticated_user "evil/passwd" (Some "1") None
     = Reply 403 [] "Forbidden".
Proof. repeat split; reflexivity. Qed.

(** The sibling whose name merely starts with the root's name is refused,
    a path inside the root is served, a link leaving the root is refused. *)
Example sibling_prefix_refused :
  realpath sample (join "/srv" ["../srv-evil/x"]) = "/srv-evil/x"
  /\ String.prefix "/srv" "/srv-evil/x" = true
  /\ MainHandler_get sample "/srv" authenticated_user "../srv-evil/x" None None
     = Reply 403 [] "Forbidden".
Proof. repeat split; reflexivity. Qed.

Example inside_root_served :
  MainHandler_get sample "/srv" authenticated_user "b/../a/./f.txt" None None
  = Render (FilePage "f.txt" "b/../a/./f.txt" "hi" false).
Proof. reflexivity. Qed.

Example link_out_refused :
  MainHandler_get sample "/srv" authenticated_user "evil/passwd" None None
  = Reply 403 [] "Forbidden"
  /\ MainHandler_get sample "/srv" authenticated_user "evil" None None
     = Reply 403 [] "Forbidden".
Proof. split; reflexivity. Qed.

(** On a link loop [realpath] hands the path back with the link still in
    it; the [islink] test then refuses it. *)
Example link_loop_refused :
  realpath with_loop (join "/srv" ["loop"]) = "/srv/loop"
  /\ contained "/srv" "/srv/loop" = true
  /\ islink with_loop "/srv/loop" = true
  /\ MainHandler_get with_loop "/srv" authenticated_user "loop" None None
     = Reply 403 [] "Forbidden".
Proof. repeat split; reflexivity. Qed.

Example empty_path_is_root :
  realpath sample (join "/srv" [""]) = "/srv"
  /\ MainHandler_get sample "/srv" authenticated_user "" None None
     = Render (DirectoryPage "" [("a", true); ("b", true); ("evil", true)]).
Proof. split; reflexivity. Qed.

End Containment.

(** ** Upload and rename (C2, C3, C7) *)

Module Writes.
Import PosixPath FS Shape Props PathFacts ResolveFacts GuardFacts Server Fixtures.
Import StoreFacts LinkFreeFacts.

Lemma guard_in_target f0 f rc directory rel :
  valid_names rc = true ->
  let dir_real := realpath f0 (join (render rc) [directory]) in
  let final := realpath f (join dir_real [rel]) in
  escapes f dir_real final
  = Some (negb (contained dir_real final) || islink f final).
Proof.
  intros Hrc dir_real final.
  assert (Hd : normal_abs dir_real) by (apply realpath_join_normal; reflexivity).
  apply escapes_spec; [exact Hd|].
  apply realpath_join_normal, normal_abs_isabs, Hd.
Qed.

(** What one round of the batch loop tests: the relative path is
    resolved from the resolved target directory and the path [realpath]
    hands back is compared, name by name, with that directory: when it is
    not below it the entry gets 403 "Forbidden path: ..." with the store
    untouched; the round writes only when it is, and then at that path. *)
Lemma upload_entry_stays_in_target :
  forall (f0 f : fs) (rc : list string) (directory : string) (info : file_info),
    valid_names rc = true ->
    let dir_real := realpath f0 (join (render rc) [directory]) in
    let final := realpath f (join dir_real [fst info]) in
    (contained dir_real final = false ->
     upload_entry f dir_real info
     = (f, Some (Reply 403 [] ("Forbidden path: " ++ fst info))))
    /\ (forall f',
          upload_entry f dir_real info = (f', None) ->
          contained dir_real final = true /\ islink f final = false
          /\ exists f1, makedirs f (dirname final) = Some f1
                        /\ write_file f1 final (snd info) = Some f')
    /\ (contained dir_real final = false \/ islink f final = true ->
        fst (upload_entry f dir_real info) = f).
Proof.
  intros f0 f rc directory info Hrc dir_real final.
  pose proof (guard_in_target f0 f rc directory (fst info) Hrc) as G.
  cbv zeta in G. fold dir_real in G. fold final in G.
  unfold upload_entry. cbv zeta. fold final. rewrite G.
  repeat split.
  - intros ->. reflexivity.
  - destruct (contained dir_real final); [reflexivity|].
    cbn [negb orb] in H. discriminate H.
  - destruct (contained dir_real final); cbn [negb orb] in H; [|discriminate H].
    destruct (islink f final); [discriminate H | reflexivity].
  - destruct (contained dir_real final); cbn [negb orb] in H; [|discriminate H].
    destruct (islink f final); [discriminate H|].
    destruct (makedirs f (dirname final)) as [f1|]; [|discriminate H].
    exists f1. split; [reflexivity|].
    destruct (write_file f1 final (snd info)); [|discriminate H].
    injection H as ->. reflexivity.
  - intros [-> | ->]; [reflexivity|].
    rewrite orb_true_r. reflexivity.
Qed.

(** A relative path that stays under the root but leaves the target
    directory is refused, and nothing is written for it. *)
Example upload_sibling_refused :
  realpath sample (join "/srv/a" ["../b/x"]) = "/srv/b/x"
  /\ contained "/srv" "/srv/b/x" = true
  /\ UploadHandler_post sample "/srv" authenticated_user "a"
       [("../b/x", "data")] []
     = (sample, Reply 403 [] "Forbidden path: ../b/x").
Proof. repeat split; reflexivity. Qed.

(** C3: the test is made on the path [realpath] hands back, and on a
    link loop that path is not resolved to the end.  With a link to itself
    in the target directory [/srv/a], the entry [loop/../out/x] passes the
    test as [/srv/a/out/x], although [out] leads to the sibling directory
    [/srv/b]: the upload is answered 200 and the file is written at
    [/srv/b/x], outside the target directory.  The sibling asked for by
    name, [../b/x], is refused. *)
Theorem link_loop_leaves_target_directory :
  let f := with_loop_in_target in
  let dir_real := realpath f (join "/srv" ["a"]) in
  let r := UploadHandler_post f "/srv" authenticated_user "a"
             [("loop/../out/x", "data")] [] in
  dir_real = "/srv/a"
  /\ realpath f (join dir_real ["loop/../out/x"]) = "/srv/a/out/x"
  /\ snd r = Reply 200 [] "Upload successful"
  /\ node_at f ["srv"; "b"; "x"] = None
  /\ node_at (fst r) ["srv"; "b"; "x"] = Some (File "data")
  /\ is_prefix ["srv"; "a"] ["srv"; "b"; "x"] = false
  /\ UploadHandler_post f "/srv" authenticated_user "a" [("../b/x", "data")] []
     = (f, Reply 403 [] "Forbidden path: ../b/x").
Proof. repeat split; reflexivity. Qed.




(** Entry 2 of 3 escapes: entry 1 is on disk afterwards, entry 3 is not. *)
Example batch_keeps_entry_one :
  let after := fst (UploadHandler_post sample "/srv" authenticated_user "a"
                      [("x/one.txt", "1"); ("../b/two.txt", "2");
                       ("three.txt", "3")] []) in
  read_file after "/srv/a/x/one.txt" = Some "1"
  /\ stat after "/srv/b/two.txt" = None
  /\ stat after "/srv/a/three.txt" = None.
Proof. repeat split; reflexivity. Qed.

(** C2 (as amended): the destination of a rename is the path [realpath]
    gives for the join of the root, the directory part of the source path
    and the new name; source and destination are each tested against the
    root.  The request is refused with 403 exactly when one of them is not
    under the root by its names or is a link; otherwise [os.rename] is
    called on the two paths, whatever directory under the root the
    destination lies in.  When it is answered with the redirect and the
    destination is neither the source itself nor a directory above it,
    the entry that stood where the source path leads stands where the
    destination path leads and no longer at the source (with the source
    itself as destination nothing changes); in a store without symbolic
    links both places are at or below the root. *)
Theorem rename_checks_both_ends_against_root :
  forall (f : fs) (rc : list string) (user : option string)
         (path new_name : string),
    valid_names rc = true ->
    truthy user = true ->
    let root := render rc in
    let src := realpath f (join root [path]) in
    let dst := realpath f (join root [dirname path; new_name]) in
    let ok := fun p => contained root p && negb (islink f p) in
    (RenameHandler_post f root user path new_name
     = (f, Reply 403 [] "Forbidden") <-> ok src && ok dst = false)
    /\ (ok src && ok dst = true ->
        RenameHandler_post f root user path new_name
        = match rename f src dst with
          | Some f' => (f', redirect_parent path)
          | None => (f, Uncaught)
          end)
    /\ (forall f',
          RenameHandler_post f root user path new_name
          = (f', redirect_parent path) ->
          exists ks kd n,
            resolve_entry f src = Some ks
            /\ resolve_entry f dst = Some kd
            /\ node_at f ks = Some n
            /\ (ks = kd -> f' = f)
            /\ (is_prefix kd ks = false ->
                node_at f' kd = Some n /\ node_at f' ks = None)
            /\ (no_links f = true ->
                is_prefix rc ks = true /\ is_prefix rc kd = true)).
Proof.
  intros f rc user path new_name Hrc Hu root src dst ok.
  assert (Hns : normal_abs src) by (apply realpath_join_normal; reflexivity).
  assert (Hnd : normal_abs dst) by (apply realpath_join_normal; reflexivity).
  assert (Gs : escapes f root src = Some (negb (ok src))).
  { unfold ok. rewrite escapes_spec; [| apply render_normal, Hrc | exact Hns ].
    rewrite negb_andb, negb_involutive. reflexivity. }
  assert (Gd : escapes f root dst = Some (negb (ok dst))).
  { unfold ok. rewrite escapes_spec; [| apply render_normal, Hrc | exact Hnd ].
    rewrite negb_andb, negb_involutive. reflexivity. }
  assert (E : RenameHandler_post f root user path new_name
              = if ok src && ok dst
                then match rename f src dst with
                     | Some f' => (f', redirect_parent path)
                     | None => (f, Uncaught)
                     end
                else (f, Reply 403 [] "Forbidden")).
  { unfold RenameHandler_post, authenticated. rewrite Hu.
    cbv zeta. fold root. fold src. fold dst. rewrite Gs, Gd.
    destruct (ok src), (ok dst); reflexivity. }
  rewrite E. clear E Gs Gd. unfold redirect_parent.
  destruct (ok src && ok dst) eqn:Eok.
  - split; [|split].
    + split; [|discriminate]. intros H.
      destruct (rename f src dst); inversion H.
    + reflexivity.
    + intros f' H.
      destruct (rename f src dst) as [f1|] eqn:Er; [|discriminate H].
      injection H as <-.
      destruct (rename_effect _ _ _ _ Er)
        as (ks & kd & n & Es & Ed & En & Hsame & Hmove).
      exists ks, kd, n.
      split; [exact Es|]. split; [exact Ed|]. split; [exact En|].
      split; [exact Hsame|]. split.
      * intros Hp. destruct (Hmove Hp) as (H1 & H2 & _). auto.
      * intros Hnl. pose proof (no_links_link_free f Hnl) as Hlf.
        apply andb_prop in Eok as [Hos Hod]. unfold ok in Hos, Hod.
        apply andb_prop in Hos as [Hcs _]. apply andb_prop in Hod as [Hcd _].
        split.
        -- apply (lookup_entry_below f rc src false ks Hlf Hrc Hns Hcs Es).
        -- apply (lookup_entry_below f rc dst false kd Hlf Hrc Hnd Hcd Ed).
  - split; [|split].
    + split; reflexivity.
    + discriminate.
    + intros f' H. discriminate H.
Qed.

Lemma rename_out_of_root_witness :
  valid_names ["srv"] = true
  /\ truthy authenticated_user = true
  /\ RenameHandler_post plain "/srv" authenticated_user "a/f.txt"
       "../../etc/g.txt"
     = (plain, Reply 403 [] "Forbidden")
  /\ exists ks kd n,
       resolve_entry plain "/srv/a/f.txt" = Some ks
       /\ resolve_entry plain "/srv/b/g.txt" = Some kd
       /\ node_at plain ks = Some n
       /\ node_at (fst (RenameHandler_post plain "/srv" authenticated_user
                          "a/f.txt" "../b/g.txt")) kd = Some n
       /\ node_at (fst (RenameHandler_post plain "/srv" authenticated_user
                          "a/f.txt" "../b/g.txt")) ks = None
       /\ is_prefix ["srv"] ks = true /\ is_prefix ["srv"] kd = true.
Proof.
  split; [reflexivity|]. split; [reflexivity|]. split.
  - apply (proj1 (rename_checks_both_ends_against_root
                    plain ["srv"] authenticated_user "a/f.txt"
                    "../../etc/g.txt" eq_refl eq_refl)).
    reflexivity.
  - destruct (proj2 (proj2 (rename_checks_both_ends_against_root
                              plain ["srv"] authenticated_user "a/f.txt"
                              "../b/g.txt" eq_refl eq_refl))
                (fst (RenameHandler_post plain "/srv" authenticated_user
                        "a/f.txt" "../b/g.txt")) eq_refl)
      as (ks & kd & n & Es & Ed & En & _ & Hmove & Hin).
    exists ks, kd, n.
    split; [exact Es|]. split; [exact Ed|]. split; [exact En|].
    assert (Hp : is_prefix kd ks = false).
    { injection (eq_trans (eq_sym Es)
                   (eq_refl : resolve_entry plain "/srv/a/f.txt"
                              = Some ["srv"; "a"; "f.txt"])) as ->.
      injection (eq_trans (eq_sym Ed)
                   (eq_refl : resolve_entry plain "/srv/b/g.txt"
                              = Some ["srv"; "b"; "g.txt"])) as ->.
      reflexivity. }
    destruct (Hmove Hp) as [H1 H2]. destruct (Hin eq_refl) as [H3 H4].
    auto.
Defined.

(** It is not so that every new name with separators whose destination
    lies in another directory than the source's parent is refused: one
    that stays under the root goes through and the file leaves its parent
    directory. *)
Lemma rename_leaves_parent_directory :
  ~ (forall (f : fs) (rc : list string) (user : option string)
            (path new_name : string),
        valid_names rc = true ->
        truthy user = true ->
        no_sep new_name = false ->
        dirname (realpath f (join (render rc) [dirname path; new_name]))
        <> realpath f (join (render rc) [dirname path]) ->
        RenameHandler_post f (render rc) user path new_name
        = (f, Reply 403 [] "Forbidden")).
Proof.
  intros H.
  specialize (H sample ["srv"] authenticated_user "a/f.txt" "../b/g.txt"
                eq_refl eq_refl eq_refl).
  assert (Hd : dirname (realpath sample
                          (join (render ["srv"]) [dirname "a/f.txt"; "../b/g.txt"]))
               <> realpath sample (join (render ["srv"]) [dirname "a/f.txt"]))
    by (vm_compute; discriminate).
  specialize (H Hd). vm_compute in H. discriminate H.
Qed.

Example rename_moves_to_sibling_directory :
  let r := RenameHandler_post sample "/srv" authenticated_user "a/f.txt"
             "../b/g.txt" in
  snd r = Redirect "/a"
  /\ read_file (fst r) "/srv/b/g.txt" = Some "hi"
  /\ stat (fst r) "/srv/a/f.txt" = None.
Proof. repeat split; reflexivity. Qed.

(** What the amended claim leaves out: with a link loop in the store the
    destination passes the test and leads out of the root all the same. *)
Example rename_through_link_loop :
  let r := RenameHandler_post with_loop_and_exit "/srv" authenticated_user
             "a/f.txt" "../loop/../evil/moved" in
  snd r = Redirect "/a"
  /\ node_at (fst r) ["etc"; "moved"] = Some (File "hi")
  /\ node_at (fst r) ["srv"; "a"; "f.txt"] = None.
Proof. repeat split; reflexivity. Qed.

End Writes.

(** ** Delete and download (C8, C9) *)

Module Responses.
Import PosixPath FS Shape PathFacts ResolveFacts GuardFacts Server Fixtures.

(** C8: a delete request for a path that names nothing under the root is
    answered like a successful one, with a redirect to the parent listing;
    no not-found result is produced and the store is unchanged. *)
Theorem delete_missing_target_redirects :
  stat sample (realpath sample (join "/srv" ["nope.txt"])) = None
  /\ DeleteHandler_post sample "/srv" authenticated_user "nope.txt"
     = (sample, Redirect "/")
  /\ MainHandler_get sample "/srv" authenticated_user "nope.txt" None None
     = Reply 404 [] "File not found".
Proof. repeat split; reflexivity. Qed.

(** On any store: a contained target that is neither directory nor file
    leaves the handler on the redirect. *)
Lemma delete_falls_through f rc user path :
  valid_names rc = true -> truthy user = true ->
  let rp := realpath f (join (render rc) [path]) in
  contained (render rc) rp = true -> islink f rp = false ->
  isdir f rp = false -> isfile f rp = false ->
  DeleteHandler_post f (render rc) user path = (f, redirect_parent path).
Proof.
  intros Hrc Hu rp Hc Hl Hd Hf.
  unfold DeleteHandler_post, authenticated. rewrite Hu. cbv zeta. fold rp.
  rewrite escapes_spec;
    [| apply render_normal, Hrc | apply realpath_join_normal; reflexivity ].
  rewrite Hc, Hl, Hd, Hf. reflexivity.
Qed.

(** The branches that are there: a directory goes with all below it, a
    file goes alone. *)
Example delete_directory_recursive :
  let r := DeleteHandler_post sample "/srv" authenticated_user "a" in
  snd r = Redirect "/"
  /\ stat (fst r) "/srv/a" = None
  /\ stat (fst r) "/srv/a/f.txt" = None
  /\ stat (fst r) "/srv/b" = Some Dir.
Proof. repeat split; reflexivity. Qed.

Example delete_single_file :
  let r := DeleteHandler_post sample "/srv" authenticated_user "a/f.txt" in
  snd r = Redirect "/a"
  /\ stat (fst r) "/srv/a/f.txt" = None
  /\ stat (fst r) "/srv/a" = Some Dir.
Proof. repeat split; reflexivity. Qed.

Lemma quoted_plain n :
  plain_name n = true -> quoted_body_ok (n ++ dquote) = true.
Proof.
  induction n as [|c n IH]; [reflexivity|].
  simpl. intros H. repeat (apply andb_prop in H as [H ?]).
  apply negb_true_iff in H, H2, H1.
  rewrite H.
  assert (Hcr : Ascii.eqb c TextIO.cr = false).
  { apply Ascii.eqb_neq. intros ->. discriminate H1. }
  assert (Hlf : Ascii.eqb c TextIO.lf = false).
  { apply Ascii.eqb_neq. intros ->. discriminate H1. }
  rewrite Hcr, Hlf, H2. simpl. apply IH. assumption.
Qed.

(** In download mode the response carries
    [Content-Disposition: attachment; filename="<base name>"] with the base
    name of the resolved path put between the quotes as it is; a base
    name free of quotes, backslashes and control characters gives a
    safely quoted value. *)
Lemma download_disposition_verbatim :
  forall (f : fs) (rc : list string) (user download stream : option string)
         (path : string) (headers : list (string * string)) (body : string),
    truthy user = true ->
    truthy download = true ->
    let rp := realpath f (join (render rc) [path]) in
    let value := "attachment; filename=" ++ dquote ++ basename rp ++ dquote in
    MainHandler_get f (render rc) user path download stream
    = Reply 200 headers body ->
    headers = [("Content-Type", "application/octet-stream");
               ("Content-Disposition", value)]
    /\ read_file f rp = Some body
    /\ (plain_name (basename rp) = true -> disposition_safe value = true).
Proof.
  intros f rc user download stream path headers body Hu Hd rp value H.
  unfold MainHandler_get, authenticated in H. rewrite Hu in H.
  cbv zeta in H. fold rp in H. fold value in H.
  destruct (escapes f (render rc) rp) as [[|]|]; try discriminate H.
  destruct (isdir f rp).
  { destruct (listdir f rp); discriminate H. }
  destruct (isfile f rp); [|discriminate H].
  rewrite Hd in H.
  destruct (header_value_ok value) eqn:Eok; cbn [negb] in H; [|discriminate H].
  destruct (read_file f rp) as [content|]; [|discriminate H].
  injection H as <- <-. repeat split.
  intros Hp. unfold value, disposition_safe. simpl.
  apply quoted_plain, Hp.
Qed.

(** C9: the handler puts the base name between double quotes and escapes
    nothing.  A file named [a"b.txt] is served with the header value
    [attachment; filename="a"b.txt"]: the quote of the name ends the
    quoted string, so the value is not safely quoted.  The framework's
    [set_header] lets the value pass; what it refuses is a line feed, a
    carriage return or another control character, where no response with
    the header is produced. *)
Theorem download_quote_served_bare :
  let value := "attachment; filename=" ++ dquote ++ quote_name ++ dquote in
  let lf_name := "a" ++ TextIO.nl ++ "b.txt" in
  MainHandler_get with_quote "/srv" authenticated_user quote_name
    (Some "1") None
  = Reply 200
      [("Content-Type", "application/octet-stream");
       ("Content-Disposition", value)]
      "data"
  /\ header_value_ok value = true
  /\ disposition_safe value = false
  /\ MainHandler_get
       (mkfs "/" [(["srv"], Dir); (["srv"; lf_name], File "data")])
       "/srv" authenticated_user lf_name (Some "1") None
     = Uncaught.
Proof. repeat split; reflexivity. Qed.

End Responses.

(** ** The live tail (C4, C5, C6) *)

Module TailFacts.
Import PosixPath FS TextIO Shape PathFacts GuardFacts Server Fixtures.

Lemma read_line_in_S keep n c s :
  read_line_in keep (S n) (String c s)
  = let (l, r) := read_line_in keep n s in
    (if keep then String c l else l, r).
Proof. reflexivity. Qed.

Lemma read_line_in_0 keep c s :
  read_line_in keep 0 (String c s)
  = if Ascii.eqb c lf then (nl, s)
    else if Ascii.eqb c cr then
      match s with
      | String c2 s2 => if Ascii.eqb c2 lf then (nl, s2) else (nl, s)
      | EmptyString => (nl, EmptyString)
      end
    else
      let (ok, m) := char_at c s in
      let (l, r) := read_line_in ok m s in
      (if ok then String c l else replacement ++ l, r).
Proof. reflexivity. Qed.

(** Every call takes the byte it stands on. *)
Lemma read_line_in_shorter s :
  forall keep n l r,
    read_line_in keep n s = (l, r) ->
    String.length r <= pred (String.length s).
Proof.
  induction s as [|c s IH]; intros keep n l r.
  { simpl. intros [= <- <-]. simpl. lia. }
  destruct n as [|n].
  - rewrite read_line_in_0. destruct (Ascii.eqb c lf).
    { intros [= <- <-]. simpl. lia. }
    destruct (Ascii.eqb c cr).
    { destruct s as [|c2 s2].
      - intros [= <- <-]. simpl. lia.
      - destruct (Ascii.eqb c2 lf); intros [= <- <-]; simpl; lia. }
    destruct (char_at c s) as [ok m].
    destruct (read_line_in ok m s) as [l0 r0] eqn:E. intros [= <- <-].
    apply IH in E. simpl. lia.
  - rewrite read_line_in_S.
    destruct (read_line_in keep n s) as [l0 r0] eqn:E. intros [= <- <-].
    apply IH in E. simpl. lia.
Qed.

Lemma read_line_nonempty s l r :
  s <> "" -> read_line s = (l, r) ->
  l <> "" /\ String.length r < String.length s.
Proof.
  intros Hne H. split.
  - destruct s as [|c s]; [congruence|]. unfold read_line in H.
    rewrite read_line_in_0 in H. destruct (Ascii.eqb c lf).
    { injection H as <- <-. discriminate. }
    destruct (Ascii.eqb c cr).
    { destruct s as [|c2 s2]; [|destruct (Ascii.eqb c2 lf)];
        injection H as <- <-; discriminate. }
    destruct (char_at c s) as [ok m].
    destruct (read_line_in ok m s) as [l0 r0]. injection H as <- <-.
    destruct ok; discriminate.
  - apply read_line_in_shorter in H. destruct s; [congruence|].
    simpl in *. lia.
Qed.

Lemma skip_nil n : skip n "" = "".
Proof. destruct n; reflexivity. Qed.

Lemma skip_add a b s : skip (a + b) s = skip b (skip a s).
Proof.
  revert s. induction a as [|a IH]; intros s; [reflexivity|].
  destruct s as [|c s]; simpl; [rewrite skip_nil; reflexivity | apply IH].
Qed.

Lemma skip_length n s : String.length (skip n s) = String.length s - n.
Proof.
  revert s. induction n as [|n IH]; intros [|c s]; simpl; auto.
Qed.

Lemma skip_append a b : skip (String.length a) (a ++ b) = b.
Proof. induction a; simpl; auto. Qed.

Lemma skip_all s n : String.length s <= n -> skip n s = "".
Proof.
  revert s. induction n as [|n IH]; intros [|c s] H; simpl in *;
    try reflexivity; [lia | apply IH; lia].
Qed.

(** What [readline] leaves are the bytes after what it took. *)
Lemma read_line_in_suffix s :
  forall keep n l r,
    read_line_in keep n s = (l, r) ->
    skip (String.length s - String.length r) s = r.
Proof.
  induction s as [|c s IH]; intros keep n l r.
  { simpl. intros [= <- <-]. reflexivity. }
  assert (Hrec : forall k m l0 r0,
             read_line_in k m s = (l0, r0) ->
             skip (String.length (String c s) - String.length r0) (String c s)
             = r0).
  { intros k m l0 r0 E. pose proof (read_line_in_shorter _ _ _ _ _ E) as Hle.
    apply IH in E. simpl String.length.
    replace (S (String.length s) - String.length r0)
      with (S (String.length s - String.length r0)) by lia.
    exact E. }
  destruct n as [|n].
  - rewrite read_line_in_0. destruct (Ascii.eqb c lf).
    { intros [= <- <-]. simpl String.length.
      replace (S (String.length s) - String.length s) with 1 by lia.
      reflexivity. }
    destruct (Ascii.eqb c cr).
    { destruct s as [|c2 s2].
      - intros [= <- <-]. reflexivity.
      - destruct (Ascii.eqb c2 lf); intros [= <- <-]; simpl String.length.
        + replace (S (S (String.length s2)) - String.length s2) with 2 by lia.
          reflexivity.
        + replace (S (S (String.length s2)) - S (String.length s2)) with 1
            by lia.
          reflexivity. }
    destruct (char_at c s) as [ok m].
    destruct (read_line_in ok m s) as [l0 r0] eqn:E. intros [= <- <-].
    apply (Hrec _ _ _ _ E).
  - rewrite read_line_in_S.
    destruct (read_line_in keep n s) as [l0 r0] eqn:E. intros [= <- <-].
    apply (Hrec _ _ _ _ E).
Qed.

Lemma read_line_suffix s l r :
  read_line s = (l, r) -> skip (String.length s - String.length r) s = r.
Proof. apply read_line_in_suffix. Qed.

Lemma read_lines_fuel n m s :
  String.length s <= n -> String.length s <= m ->
  read_lines n s = read_lines m s.
Proof.
  revert m s. induction n as [|n IH]; intros m s Hn Hm.
  - destruct s; [|simpl in Hn; lia]. destruct m; reflexivity.
  - destruct m as [|m].
    + destruct s; [reflexivity | simpl in Hm; lia].
    + simpl. destruct (s =? "") eqn:E; [reflexivity|].
      apply String.eqb_neq in E.
      destruct (read_line s) as [l r] eqn:Er.
      destruct (read_line_nonempty s l r E Er) as [_ Hlt].
      f_equal. apply IH; lia.
Qed.

Lemma iter_lines_nil : iter_lines "" = [].
Proof. reflexivity. Qed.

Lemma iter_lines_step s l r :
  s <> "" -> read_line s = (l, r) -> iter_lines s = l :: iter_lines r.
Proof.
  intros Hne Er. unfold iter_lines.
  destruct s as [|c s]; [congruence|].
  simpl String.length. cbn [read_lines]. rewrite Er.
  change (String c s =? "") with false. cbv iota. f_equal.
  destruct (read_line_nonempty _ l r Hne Er) as [_ Hlt]. simpl in Hlt.
  apply read_lines_fuel; lia.
Qed.

Lemma send_loop_S n data h w line out :
  send_loop (S n) data h w line out =
  if line =? "" then Some (h, w, out)
  else let (line', h') := readline data h in
       send_loop n data h' (tell h) line' (out ++ [line])%list.
Proof. reflexivity. Qed.

(** The loop sends the line in hand and every line left in the file, and
    stops at end of file with [where] there. *)
Lemma send_loop_spec n :
  forall data h w line out,
    line <> "" ->
    String.length (skip (pos h) data) + 1 < n ->
    send_loop n data h w line out
    = Some (mkhandle (pos h + String.length (skip (pos h) data)) (closed h),
            pos h + String.length (skip (pos h) data),
            (out ++ line :: iter_lines (skip (pos h) data))%list).
Proof.
  induction n as [|n IH]; intros data h w line out Hline Hn; [lia|].
  rewrite send_loop_S. apply String.eqb_neq in Hline. rewrite Hline.
  unfold readline. set (rest := skip (pos h) data) in *.
  destruct (read_line rest) as [l r] eqn:Er.
  destruct (rest =? "") eqn:Erest.
  - apply String.eqb_eq in Erest. rewrite Erest in *. simpl in Er.
    injection Er as <- <-. simpl String.length.
    destruct n as [|n]; [lia|]. rewrite send_loop_S. simpl.
    unfold tell. rewrite Nat.add_0_r. reflexivity.
  - apply String.eqb_neq in Erest.
    destruct (read_line_nonempty rest l r Erest Er) as [Hl Hlt].
    pose proof (read_line_suffix rest l r Er) as Hsuf.
    set (h' := mkhandle (pos h + (String.length rest - String.length r)) (closed h)).
    assert (Hskip : skip (pos h') data = r).
    { unfold h'. simpl pos. rewrite skip_add. exact Hsuf. }
    rewrite (IH data h' (tell h) l (out ++ [line])%list Hl);
      [| rewrite Hskip; lia ].
    rewrite Hskip. unfold h'. simpl pos. simpl closed.
    rewrite (iter_lines_step rest l r Erest Er).
    rewrite <- app_assoc. simpl.
    replace (pos h + (String.length rest - String.length r) + String.length r)
      with (pos h + String.length rest) by lia.
    reflexivity.
Qed.

(** One tick: every line from the cursor to the end of the file is sent,
    the unterminated rest included, and the cursor ends at the end. *)
Lemma send_new_lines_spec s h data :
  running s = true -> file s = Some h -> closed h = false ->
  send_new_lines (Some data) s
  = mkoutcome
      (mksession (file_path s) (running s)
         (Some (mkhandle (pos h + String.length (skip (pos h) data)) false))
         (periodic s) (ws_closed s))
      (iter_lines (skip (pos h) data)) false.
Proof.
  intros Hr Hf Hc. unfold send_new_lines. rewrite Hr, Hf, Hc. cbn [negb].
  unfold readline. set (rest := skip (pos h) data).
  destruct (read_line rest) as [l r] eqn:Er.
  destruct (rest =? "") eqn:Erest.
  - apply String.eqb_eq in Erest. rewrite Erest in *. simpl in Er.
    injection Er as <- <-. rewrite send_loop_S. simpl.
    unfold seek, tell. simpl. rewrite Hc, Nat.add_0_r. reflexivity.
  - apply String.eqb_neq in Erest.
    destruct (read_line_nonempty rest l r Erest Er) as [Hl Hlt].
    pose proof (read_line_suffix rest l r Er) as Hsuf.
    set (h' := mkhandle (pos h + (String.length rest - String.length r)) (closed h)).
    assert (Hskip : skip (pos h') data = r).
    { unfold h'. simpl pos. rewrite skip_add. exact Hsuf. }
    assert (Hlen : String.length rest <= String.length data)
      by (unfold rest; rewrite skip_length; lia).
    rewrite (send_loop_spec _ data h' (tell h) l [] Hl);
      [| rewrite Hskip; lia ].
    rewrite Hskip. unfold h', seek. simpl.
    rewrite (iter_lines_step rest l r Erest Er), Hc.
    replace (pos h + (String.length rest - String.length r) + String.length r)
      with (pos h + String.length rest) by lia.
    reflexivity.
Qed.

Lemma ends_nl_cons c l : l <> "" -> ends_nl (String c l) = ends_nl l.
Proof. destruct l; [congruence | reflexivity]. Qed.

Lemma ends_nl_app a l : l <> "" -> ends_nl (a ++ l) = ends_nl l.
Proof.
  intros Hl. induction a as [|c a IH]; [reflexivity|].
  change (String c a ++ l) with (String c (a ++ l)).
  rewrite ends_nl_cons; [exact IH|]. destruct a; [exact Hl | discriminate].
Qed.

Lemma read_line_in_terminated s :
  forall keep n l r,
    read_line_in keep n s = (l, r) -> r <> "" -> ends_nl l = true.
Proof.
  induction s as [|c s IH]; intros keep n l r.
  { simpl. intros [= <- <-]. congruence. }
  assert (Hne : forall l0, ends_nl l0 = true -> l0 <> "")
    by (intros l0 H ->; discriminate H).
  destruct n as [|n].
  - rewrite read_line_in_0. destruct (Ascii.eqb c lf).
    { intros [= <- <-] _. reflexivity. }
    destruct (Ascii.eqb c cr).
    { destruct s as [|c2 s2]; [|destruct (Ascii.eqb c2 lf)];
        intros [= <- <-] _; reflexivity. }
    destruct (char_at c s) as [ok m].
    destruct (read_line_in ok m s) as [l0 r0] eqn:E. intros [= <- <-] Hr.
    pose proof (IH _ _ _ _ E Hr) as H0.
    destruct ok; cbv iota.
    + rewrite ends_nl_cons; [exact H0 | apply Hne, H0].
    + change (ends_nl (replacement ++ l0) = true).
      rewrite ends_nl_app; [exact H0 | apply Hne, H0].
  - rewrite read_line_in_S.
    destruct (read_line_in keep n s) as [l0 r0] eqn:E. intros [= <- <-] Hr.
    pose proof (IH _ _ _ _ E Hr) as H0.
    destruct keep; [|exact H0].
    rewrite ends_nl_cons; [exact H0 | apply Hne, H0].
Qed.

Lemma read_line_terminated s l r :
  read_line s = (l, r) -> r <> "" -> ends_nl l = true.
Proof. apply read_line_in_terminated. Qed.

Lemma iter_lines_complete s : complete_but_last (iter_lines s) = true.
Proof.
  remember (String.length s) as n eqn:Hn.
  assert (Hle : String.length s <= n) by lia. clear Hn.
  revert s Hle. induction n as [|n IH]; intros s Hle.
  - destruct s; [reflexivity | simpl in Hle; lia].
  - destruct (s =? "") eqn:E.
    + apply String.eqb_eq in E. subst. reflexivity.
    + apply String.eqb_neq in E.
      destruct (read_line s) as [l r] eqn:Er.
      rewrite (iter_lines_step s l r E Er).
      destruct (read_line_nonempty s l r E Er) as [_ Hlt].
      destruct (r =? "") eqn:Er0.
      * apply String.eqb_eq in Er0. subst r. reflexivity.
      * apply String.eqb_neq in Er0.
        specialize (IH r ltac:(lia)).
        destruct (read_line r) as [l2 r2] eqn:Er2.
        rewrite (iter_lines_step r l2 r2 Er0 Er2) in *.
        unfold complete_but_last in *.
        change (removelast (l :: l2 :: iter_lines r2))
          with (l :: removelast (l2 :: iter_lines r2)).
        change (forallb ends_nl (l :: removelast (l2 :: iter_lines r2)))
          with (ends_nl l && forallb ends_nl (removelast (l2 :: iter_lines r2))).
        rewrite IH, (read_line_terminated s l r Er Er0).
        reflexivity.
Qed.

(** A partial line, with no terminator in it, is one message. *)
Lemma iter_lines_partial s :
  s <> "" -> snd (read_line s) = "" -> iter_lines s = [fst (read_line s)].
Proof.
  intros Hne Hr. destruct (read_line s) as [l r] eqn:E. simpl in Hr. subst r.
  rewrite (iter_lines_step s l "" Hne E). reflexivity.
Qed.

(** *** The bounded buffer of the backfill *)

Lemma deque_fold m l acc pre :
  0 < m ->
  acc = skipn (List.length pre - m) pre ->
  fold_left (deque_append m) l acc
  = skipn (List.length (pre ++ l) - m) (pre ++ l)%list.
Proof.
  intros Hm. revert acc pre. induction l as [|x l IH]; intros acc pre Hacc.
  - rewrite app_nil_r. exact Hacc.
  - simpl fold_left.
    replace (pre ++ x :: l)%list with ((pre ++ [x]) ++ l)%list
      by (rewrite <- app_assoc; reflexivity).
    apply IH. unfold deque_append. destruct m as [|m]; [lia|].
    rewrite Hacc, length_skipn, length_app. simpl List.length.
    destruct (Nat.ltb (List.length pre - (List.length pre - S m)) (S m)) eqn:E.
    + apply Nat.ltb_lt in E.
      replace (List.length pre - S m) with 0 by lia.
      replace (List.length pre + 1 - S m) with 0 by lia. reflexivity.
    + apply Nat.ltb_ge in E.
      replace (List.length pre + 1 - S m) with (S (List.length pre - S m)) by lia.
      rewrite skipn_app.
      replace (S (List.length pre - S m) - List.length pre) with 0 by lia.
      simpl skipn at 2. f_equal.
      generalize (List.length pre - S m). intros k.
      clear. revert k. induction pre as [|y pre IH]; intros k.
      * destruct k; reflexivity.
      * destruct k; [reflexivity|]. simpl. apply IH.
Qed.

Lemma deque_last m l :
  0 < m -> deque l m = skipn (List.length l - m) l.
Proof. intros Hm. unfold deque. apply (deque_fold m l [] [] Hm). reflexivity. Qed.

Lemma concat_empty_cons x l :
  String.concat "" (x :: l) = x ++ String.concat "" l.
Proof. destruct l; simpl; [rewrite append_nil_r|]; reflexivity. Qed.

Lemma char_at_lf s : char_at lf s = (true, 0).
Proof. reflexivity. Qed.

(** Well-formed text without carriage returns is read as it is. *)
Lemma read_line_in_plain s :
  forall n l r,
    utf8_in n s = true -> no_cr s = true ->
    read_line_in true n s = (l, r) ->
    s = l ++ r /\ no_cr r = true /\ utf8 r = true.
Proof.
  induction s as [|c s IH]; intros n l r Hu Hs.
  { simpl. intros [= <- <-]. auto. }
  simpl in Hs. apply andb_prop in Hs as [Hc Hs]. apply negb_true_iff in Hc.
  destruct n as [|n].
  - rewrite read_line_in_0, Hc. simpl in Hu.
    destruct (Ascii.eqb c lf) eqn:El.
    { apply Ascii.eqb_eq in El. subst c. rewrite char_at_lf in Hu.
      intros [= <- <-]. auto. }
    destruct (char_at c s) as [ok m]. apply andb_prop in Hu as [-> Hu].
    destruct (read_line_in true m s) as [l0 r0] eqn:E. intros [= <- <-].
    destruct (IH _ _ _ Hu Hs E) as (-> & Hr & Hur). auto.
  - rewrite read_line_in_S. simpl in Hu.
    destruct (read_line_in true n s) as [l0 r0] eqn:E. intros [= <- <-].
    destruct (IH _ _ _ Hu Hs E) as (-> & Hr & Hur). auto.
Qed.

(** Without carriage returns the lines of well-formed text are the text
    cut after each newline: joined again they give the text back. *)
Lemma iter_lines_plain s :
  utf8 s = true -> no_cr s = true -> String.concat "" (iter_lines s) = s.
Proof.
  remember (String.length s) as n eqn:Hn.
  assert (Hle : String.length s <= n) by lia. clear Hn.
  revert s Hle. induction n as [|n IH]; intros s Hle Hu Hs.
  - destruct s; [reflexivity | simpl in Hle; lia].
  - destruct (s =? "") eqn:E.
    + apply String.eqb_eq in E. subst. reflexivity.
    + apply String.eqb_neq in E.
      destruct (read_line s) as [l r] eqn:Er.
      rewrite (iter_lines_step s l r E Er), concat_empty_cons.
      destruct (read_line_nonempty s l r E Er) as [_ Hlt].
      destruct (read_line_in_plain s 0 l r Hu Hs Er) as (-> & Hr & Hur).
      rewrite IH; [reflexivity | lia | exact Hur | exact Hr].
Qed.

(** *** What is read holds no carriage return *)








End TailFacts.

Module Tailing.
Import PosixPath FS TextIO Shape PathFacts GuardFacts Server Fixtures TailFacts.

(** C4 (as amended): a poll tick sends, in order, every line [readline]
    returns from the cursor to the end of the file: all of them but the
    last are terminated lines, the last is the unterminated rest when the
    file ends without a terminator.  The cursor then stands at the end of
    the file, so the next tick reads exactly the bytes appended since, no
    byte twice and none left out, and sends them as text mode decodes
    them on their own: well-formed text without carriage returns arrives
    as it was appended, and the completion of a partial line is a message
    of its own. *)
Theorem tick_sends_all_lines_to_end_of_file :
  forall (s : session) (h : handle) (data more : string),
    running s = true ->
    file s = Some h ->
    closed h = false ->
    pos h <= String.length data ->
    let first := send_new_lines (Some data) s in
    let second := send_new_lines (Some (data ++ more)) (state first) in
    sent first = iter_lines (skip (pos h) data)
    /\ complete_but_last (sent first) = true
    /\ raised first = false
    /\ file (state first) = Some (mkhandle (String.length data) false)
    /\ sent second = iter_lines more
    /\ file (state second)
       = Some (mkhandle (String.length (data ++ more)) false)
    /\ (utf8 more = true -> no_cr more = true ->
        String.concat "" (sent second) = more).
Proof.
  intros s h data more Hr Hf Hc Hpos first second.
  assert (E1 : first
               = mkoutcome
                   (mksession (file_path s) (running s)
                      (Some (mkhandle (String.length data) false))
                      (periodic s) (ws_closed s))
                   (iter_lines (skip (pos h) data)) false).
  { unfold first. rewrite (send_new_lines_spec s h data Hr Hf Hc).
    rewrite skip_length.
    replace (pos h + (String.length data - pos h)) with (String.length data)
      by lia.
    reflexivity. }
  assert (E2 : second
               = mkoutcome
                   (mksession (file_path s) (running s)
                      (Some (mkhandle (String.length (data ++ more)) false))
                      (periodic s) (ws_closed s))
                   (iter_lines more) false).
  { unfold second. rewrite E1. simpl state.
    rewrite (send_new_lines_spec _ (mkhandle (String.length data) false)
               (data ++ more)); [|exact Hr|reflexivity|reflexivity].
    simpl pos. rewrite skip_append, length_append. reflexivity. }
  rewrite E1, E2. cbn [sent state raised file].
  split; [reflexivity|]. split; [apply iter_lines_complete|].
  split; [reflexivity|]. split; [reflexivity|]. split; [reflexivity|].
  split; [reflexivity|]. apply iter_lines_plain.
Qed.

Lemma tick_partial_line_witness :
  running (streaming_at 2) = true
  /\ sent (send_new_lines (Some ("hi" ++ "abc")) (streaming_at 2))
     = iter_lines (skip 2 ("hi" ++ "abc")).
Proof.
  split; [reflexivity|].
  exact (proj1 (tick_sends_all_lines_to_end_of_file
                  (streaming_at 2) (mkhandle 2 false) ("hi" ++ "abc") ""
                  eq_refl eq_refl eq_refl
                  (le_S _ _ (le_S _ _ (le_S _ _ (le_n 2)))))).
Defined.

(** A partial line, then its completion on the next tick: two messages,
    not the one full line. *)
Lemma partial_line_sent_in_two_fragments :
  let first := send_new_lines (Some "abc") (streaming_at 0) in
  let second := send_new_lines (Some ("abc" ++ "def" ++ nl)) (state first) in
  (sent first ++ sent second)%list = ["abc"; "def" ++ nl]
  /\ (sent first ++ sent second)%list <> ["abcdef" ++ nl].
Proof. split; [reflexivity | discriminate]. Qed.

(** A character whose bytes are cut between two ticks is decoded in two
    parts: each arrives as U+FFFD. *)
Example cut_character_is_replaced :
  let c3 := String (ascii_of_nat 195) "" in
  let a9 := String (ascii_of_nat 169) "" in
  let first := send_new_lines (Some c3) (streaming_at 0) in
  let second := send_new_lines (Some (c3 ++ a9 ++ nl)) (state first) in
  sent first = [replacement]
  /\ sent second = [replacement ++ nl]
  /\ iter_lines (c3 ++ a9 ++ nl) = [c3 ++ a9 ++ nl].
Proof. repeat split; reflexivity. Qed.

Lemma read_file_isfile f p data : read_file f p = Some data -> isfile f p = true.
Proof.
  unfold read_file, isfile. destruct (stat f p) as [[| |]|]; congruence.
Qed.

(** C5 (as amended): opening a tail on an accepted regular file sends, if
    the file has any line, one message made of its last 100 lines at most
    (all of them when there are fewer) in their order, each as text-mode
    reading gives it: decoded as UTF-8 with every ill-formed sequence
    replaced by U+FFFD, and with a terminator ["\r\n"] or ["\r"] turned
    into ["\n"]; a file of well-formed text without carriage returns is
    sent with its bytes and terminators as they are.  The streaming handle
    then stands at the end of the file and the timer runs. *)
Theorem backfill_last_hundred_lines :
  forall (f : fs) (rc : list string) (user : option string)
         (path data : string),
    valid_names rc = true ->
    truthy user = true ->
    let root := render rc in
    let rp := realpath f (join root [path]) in
    realpath_raises f (join root [path]) = false ->
    contained root rp = true ->
    islink f rp = false ->
    read_file f rp = Some data ->
    let lines := iter_lines data in
    let opened := FileStreamHandler_open f root user path new_session in
    sent opened
    = (if is_nil lines then []
       else [String.concat "" (skipn (List.length lines - 100) lines)])
    /\ state opened
       = mksession rp true (Some (mkhandle (String.length data) false))
           (Some true) false
    /\ raised opened = false
    /\ (List.length lines = 150 ->
        sent opened = [String.concat "" (skipn 50 lines)])
    /\ (utf8 data = true -> no_cr data = true ->
        String.concat "" lines = data).
Proof.
  intros f rc user path data Hrc Hu root rp Hnr Hc Hl Hread lines opened.
  assert (E : opened
              = mkoutcome
                  (mksession rp true (Some (mkhandle (String.length data) false))
                     (Some true) false)
                  (if is_nil (deque lines 100) then []
                   else [String.concat "" (deque lines 100)]) false).
  { unfold opened, FileStreamHandler_open. rewrite Hu. cbn [negb].
    fold root. rewrite Hnr. cbv zeta. fold rp.
    rewrite escapes_spec;
      [| apply render_normal, Hrc | apply realpath_join_normal; reflexivity ].
    rewrite Hc, Hl. cbn [negb orb].
    rewrite (read_file_isfile _ _ _ Hread), Hread. reflexivity. }
  rewrite E. cbn [sent state raised]. rewrite deque_last by lia.
  assert (Hnil : forall k, k < List.length lines \/ lines = [] ->
                           is_nil (skipn k lines) = is_nil lines).
  { intros k [Hk | ->]; [|destruct k; reflexivity].
    destruct lines as [|x l]; [simpl in Hk; lia|].
    destruct (skipn k (x :: l)) eqn:Es; [|reflexivity].
    apply (f_equal (@List.length string)) in Es.
    rewrite length_skipn in Es.
    change (List.length (@nil string)) with 0 in Es. lia. }
  repeat split.
  - rewrite Hnil; [reflexivity|].
    destruct lines; [right; reflexivity | left; simpl; lia].
  - intros H150. rewrite H150. change (150 - 100) with 50.
    rewrite Hnil by (left; lia).
    destruct lines; [discriminate H150 | reflexivity].
  - apply iter_lines_plain.
Qed.

Lemma backfill_short_file_witness :
  valid_names ["srv"] = true
  /\ truthy authenticated_user = true
  /\ contained "/srv" (realpath sample (join "/srv" ["a/f.txt"])) = true
  /\ sent (FileStreamHandler_open sample "/srv" authenticated_user "a/f.txt"
             new_session)
     = ["hi"].
Proof.
  split; [reflexivity|]. split; [reflexivity|]. split; [reflexivity|].
  exact (proj1 (backfill_last_hundred_lines
                  sample ["srv"] authenticated_user "a/f.txt" "hi"
                  eq_refl eq_refl eq_refl eq_refl eq_refl eq_refl)).
Defined.

(** A file with CR LF line ends is sent with bare newlines: the original
    terminators are not kept. *)
Lemma backfill_translates_crlf :
  ~ (forall (f : fs) (rc : list string) (user : option string)
            (path data : string),
        valid_names rc = true ->
        truthy user = true ->
        contained (render rc) (realpath f (join (render rc) [path])) = true ->
        islink f (realpath f (join (render rc) [path])) = false ->
        read_file f (realpath f (join (render rc) [path])) = Some data ->
        List.length (iter_lines data) <= 100 ->
        data <> "" ->
        sent (FileStreamHandler_open f (render rc) user path new_session)
        = [data]).
Proof.
  intros H.
  specialize (H with_crlf ["srv"] authenticated_user "log.txt" crlf_text
                eq_refl eq_refl eq_refl eq_refl eq_refl).
  assert (Hlen : List.length (iter_lines crlf_text) <= 100)
    by (vm_compute; repeat constructor).
  assert (Hne : crlf_text <> "") by discriminate.
  specialize (H Hlen Hne). vm_compute in H. discriminate H.
Qed.

Example backfill_crlf_message :
  sent (FileStreamHandler_open with_crlf "/srv" authenticated_user "log.txt"
          new_session)
  = ["a" ++ nl ++ "b" ++ nl].
Proof. reflexivity. Qed.

(** A byte that is no UTF-8 is sent as U+FFFD, in the backfill as on the
    file page; the download serves it as it is. *)
Example backfill_replaces_ill_formed_byte :
  sent (FileStreamHandler_open with_latin1 "/srv" authenticated_user "log.txt"
          new_session)
  = ["caf" ++ replacement ++ nl]
  /\ MainHandler_get with_latin1 "/srv" authenticated_user "log.txt" None None
     = Render (FilePage "log.txt" "log.txt" ("caf" ++ replacement ++ nl) false)
  /\ exists headers,
       MainHandler_get with_latin1 "/srv" authenticated_user "log.txt"
         (Some "1") None
       = Reply 200 headers latin1_text.
Proof. repeat split. eexists. reflexivity. Qed.

(** C6: a read error during a tick leaves [send_new_lines] as an exception
    with the session as it was: still running, timer started, handle open.
    Only [on_close] brings the session to the closed state, and the tick
    does not call it. *)
Theorem read_error_leaves_session_streaming :
  let s := streaming_at 2 in
  send_new_lines None s = mkoutcome s [] true
  /\ is_closed (state (send_new_lines None s)) = false
  /\ is_closed (on_close s) = true.
Proof. repeat split; reflexivity. Qed.

(** The same on every streaming session. *)
Lemma read_error_propagates s h :
  running s = true -> file s = Some h -> closed h = false ->
  send_new_lines None s = mkoutcome s [] true /\ is_closed s = false.
Proof.
  intros Hr Hf Hc. unfold send_new_lines, is_closed.
  rewrite Hr, Hf, Hc. split; reflexivity.
Qed.

(** [on_close] is idempotent and closes from any state. *)
Lemma on_close_closes s : is_closed (on_close s) = true.
Proof.
  unfold is_closed, on_close. simpl.
  destruct (periodic s), (file s); reflexivity.
Qed.

Lemma on_close_idempotent s : on_close (on_close s) = on_close s.
Proof.
  unfold on_close. simpl. destruct (periodic s), (file s); reflexivity.
Qed.

End Tailing.

(** ** The access gate (C10) *)

Module AccessGate.
Import Server Auth Fixtures.

Lemma or_default_truthy a d :
  truthy (Some d) = true -> truthy (Some (or_default a d)) = true.
Proof.
  unfold or_default. destruct a as [s|]; [|auto].
  destruct (s =? "") eqn:E; [auto|]. intros _. simpl. rewrite E. reflexivity.
Qed.

Section Gate.

Variable signature : string -> Z * string * string -> string.

(** C10: [main] builds the application with [cookie_secret] equal to
    [ACCESS_TOKEN].  So two servers with the same token give every cookie
    the same verdict, whatever else differs between them, and a value
    signed directly under the token, with no login request made, is
    accepted as the user for as long as it is not older than 31 days; it
    is the very cookie a login with the token sets. *)
Theorem cookie_secret_is_access_token :
  forall (f1 f2 : FS.fs) (args1 args2 : cli) (cfg1 cfg2 : config_file)
         (env1 env2 : option string) (gen1 gen2 dir1 dir2 : string),
    truthy (Some gen1) = true ->
    let srv1 := main f1 args1 cfg1 env1 gen1 dir1 in
    let srv2 := main f2 args2 cfg2 env2 gen2 dir2 in
    cookie_secret (app_settings (app srv1)) = Some (ACCESS_TOKEN srv1)
    /\ (ACCESS_TOKEN srv1 = ACCESS_TOKEN srv2 ->
        forall cookie clock,
          get_current_user signature (app srv1) cookie clock
          = get_current_user signature (app srv2) cookie clock)
    /\ (forall issued clock,
          (issued <? clock - 31 * 86400)%Z = false ->
          let forged :=
            create_signed_value signature (ACCESS_TOKEN srv1)
              "user" "authenticated" issued in
          get_current_user signature (app srv1) (Some forged) clock
          = Some (Some "authenticated")
          /\ LoginHandler_post signature srv1 (ACCESS_TOKEN srv1) issued
             = (Some forged, Redirect "/")).
Proof.
  intros f1 f2 args1 args2 cfg1 cfg2 env1 env2 gen1 gen2 dir1 dir2 Hg srv1 srv2.
  assert (Ht : truthy (Some (ACCESS_TOKEN srv1)) = true)
    by (apply or_default_truthy, Hg).
  split; [reflexivity|]. split.
  - intros E cookie clock. unfold get_current_user, get_secure_cookie.
    change (cookie_secret (app_settings (app srv1))) with (Some (ACCESS_TOKEN srv1)).
    change (cookie_secret (app_settings (app srv2))) with (Some (ACCESS_TOKEN srv2)).
    rewrite E. reflexivity.
  - intros issued clock Hage forged. split.
    + unfold get_current_user, get_secure_cookie.
      change (cookie_secret (app_settings (app srv1)))
        with (Some (ACCESS_TOKEN srv1)).
      rewrite Ht. cbn [negb]. f_equal.
      unfold decode_signed_value, forged, create_signed_value.
      cbn [passed_sig timestamp name_field value_field].
      rewrite !String.eqb_refl. cbn [negb]. rewrite Hage. reflexivity.
    + unfold LoginHandler_post, set_secure_cookie.
      rewrite String.eqb_refl.
      change (cookie_secret (app_settings (app srv1)))
        with (Some (ACCESS_TOKEN srv1)).
      unfold truthy in Ht. apply negb_true_iff in Ht.
      cbv iota beta. rewrite Ht. reflexivity.
Qed.

End Gate.

Lemma secret_from_cli_witness :
  truthy (Some "generated-token") = true
  /\ cookie_secret
       (app_settings
          (app (main sample (mkcli None None (Some "s3cret")) no_config None
                  "generated-token" "/opt/app")))
     = Some "s3cret".
Proof.
  split; [reflexivity|].
  exact (proj1 (cookie_secret_is_access_token toy_signature
                  sample sample (mkcli None None (Some "s3cret")) no_args
                  no_config no_config None None
                  "generated-token" "generated-token" "/opt/app" "/opt/app"
                  eq_refl)).
Defined.

(** A cookie made from the token alone is accepted by a server started
    with that token; one made under another secret is not. *)
Example forged_cookie_accepted :
  let srv := main sample (mkcli None None (Some "s3cret")) no_config None
               "generated-token" "/opt/app" in
  get_current_user toy_signature (app srv)
    (Some (create_signed_value toy_signature "s3cret" "user" "authenticated"
             1700000000))
    1700000100
  = Some (Some "authenticated")
  /\ get_current_user toy_signature (app srv)
       (Some (create_signed_value toy_signature "guess" "user" "authenticated"
                1700000000))
       1700000100
     = Some None.
Proof. split; reflexivity. Qed.

End AccessGate.

(** ** Further properties: who gets in, and start-up *)

Module Entry.
Import PosixPath FS TextIO Shape PathFacts GuardFacts Server Auth Startup
  Fixtures.

(** X1: without a user no handler does anything: the page handler sends
    the client to the login form, the three writing handlers answer 403
    with the store as it was, and the WebSocket is closed with no message,
    no handle and no timer. *)
Theorem no_user_no_effect :
  forall (f : fs) (root : string) (user : option string),
    truthy user = false ->
    (forall path download stream,
        MainHandler_get f root user path download stream = ToLogin)
    /\ (forall directory files file,
          UploadHandler_post f root user directory files file
          = (f, HTTPError 403))
    /\ (forall path, DeleteHandler_post f root user path = (f, HTTPError 403))
    /\ (forall path new_name,
          RenameHandler_post f root user path new_name = (f, HTTPError 403))
    /\ (forall path s,
          FileStreamHandler_open f root user path s
          = mkoutcome (ws_close s) [] false).
Proof.
  intros f root user Hu. repeat split; intros;
    unfold MainHandler_get, UploadHandler_post, DeleteHandler_post,
      RenameHandler_post, FileStreamHandler_open, authenticated;
    rewrite Hu; reflexivity.
Qed.

Lemma empty_cookie_no_effect_witness :
  truthy (Some "") = false
  /\ DeleteHandler_post sample "/srv" (Some "") "a" = (sample, HTTPError 403).
Proof.
  split; [reflexivity|].
  exact (proj1 (proj2 (proj2 (no_user_no_effect sample "/srv" (Some "")
                                eq_refl))) "a").
Defined.

Lemma isfile_read_file f p :
  isfile f p = true -> exists data, read_file f p = Some data.
Proof.
  unfold isfile, read_file. destruct (stat f p) as [[b| |]|]; try discriminate.
  eauto.
Qed.

(** X2: a tail is started (handle opened, timer running) exactly for an
    authenticated client and a path on which [realpath] does not raise
    and whose resolved path passes the test of the root, is no link and is
    a regular file.  In every other case there is neither handle nor
    timer, and the connection is closed by the handler unless the
    exception of [realpath] (a path with a NUL byte) left it; that
    exception is the only one that leaves [open]. *)
Theorem tail_starts_only_on_accepted_file :
  forall (f : fs) (rc : list string) (user : option string) (path : string),
    valid_names rc = true ->
    let root := render rc in
    let rp := realpath f (join root [path]) in
    let opened := FileStreamHandler_open f root user path new_session in
    (file (state opened) <> None
     <-> truthy user = true
         /\ realpath_raises f (join root [path]) = false
         /\ contained root rp = true
         /\ islink f rp = false /\ isfile f rp = true)
    /\ (file (state opened) = None ->
        periodic (state opened) = None
        /\ (raised opened = false -> ws_closed (state opened) = true))
    /\ (file (state opened) <> None ->
        periodic (state opened) = Some true
        /\ running (state opened) = true
        /\ ws_closed (state opened) = false
        /\ raised opened = false)
    /\ (raised opened = true
        <-> truthy user = true
            /\ realpath_raises f (join root [path]) = true).
Proof.
  intros f rc user path Hrc root rp opened.
  unfold opened, FileStreamHandler_open.
  destruct (truthy user) eqn:Hu; cbn [negb];
    [|cbn; repeat split; try congruence; intros; try tauto;
      repeat match goal with H : _ /\ _ |- _ => destruct H end;
      congruence].
  fold root.
  destruct (realpath_raises f (join root [path])) eqn:Hnr;
    [cbn; repeat split; try congruence; intros; try tauto;
     repeat match goal with H : _ /\ _ |- _ => destruct H end;
     congruence|].
  cbv zeta. fold rp.
  rewrite escapes_spec;
    [| apply render_normal, Hrc | apply realpath_join_normal; reflexivity ].
  destruct (contained root rp) eqn:Hc; cbn [negb orb];
    [|cbn; repeat split; try congruence; intros; try tauto;
      repeat match goal with H : _ /\ _ |- _ => destruct H end;
      congruence].
  destruct (islink f rp) eqn:Hl;
    [cbn; repeat split; try congruence; intros; try tauto;
     repeat match goal with H : _ /\ _ |- _ => destruct H end;
     congruence|].
  destruct (isfile f rp) eqn:Hf; cbn [negb];
    [|cbn; repeat split; try congruence; intros; try tauto;
      repeat match goal with H : _ /\ _ |- _ => destruct H end;
      congruence].
  destruct (isfile_read_file _ _ Hf) as [data Hd]. rewrite Hd.
  cbn; repeat split; try congruence; intros; try tauto;
    repeat match goal with H : _ /\ _ |- _ => destruct H end;
    congruence.
Qed.

Lemma tail_on_directory_witness :
  valid_names ["srv"] = true
  /\ periodic (state (FileStreamHandler_open sample "/srv" authenticated_user
                        "a" new_session)) = None
  /\ ws_closed (state (FileStreamHandler_open sample "/srv" authenticated_user
                         "a" new_session)) = true.
Proof.
  split; [reflexivity|].
  destruct (proj1 (proj2 (tail_starts_only_on_accepted_file
                            sample ["srv"] authenticated_user "a" eq_refl))
              eq_refl) as [Hp Hw].
  split; [exact Hp | exact (Hw eq_refl)].
Defined.

(** A path with a NUL byte: [realpath] raises when its walk comes to the
    name, and does not when a link loop ends the walk before it. *)
Example nul_byte_in_path :
  let nul := String (ascii_of_nat 0) "" in
  realpath_raises with_loop (join "/srv" ["a" ++ nul ++ "b"]) = true
  /\ raised (FileStreamHandler_open with_loop "/srv" authenticated_user
               ("a" ++ nul ++ "b") new_session) = true
  /\ realpath_raises with_loop (join "/srv" ["loop/a" ++ nul ++ "b"]) = false
  /\ sent (FileStreamHandler_open with_loop "/srv" authenticated_user
             ("loop/a" ++ nul ++ "b") new_session)
     = ["File not found: /srv/loop/a" ++ nul ++ "b"].
Proof. repeat split; reflexivity. Qed.

Section Tokens.

Variable signature : string -> Z * string * string -> string.

Lemma or_default_not_empty a d :
  truthy (Some d) = true -> or_default a d <> "".
Proof.
  intros Hd. unfold or_default. destruct a as [s|].
  - destruct (s =? "") eqn:E.
    + intros ->. discriminate Hd.
    + apply String.eqb_neq, E.
  - intros ->. discriminate Hd.
Qed.

(** X3: after [main] the access token is never empty (an empty flag,
    configuration entry or environment value is passed over), so a login
    request without a token, which reads as the empty string, is refused
    like any wrong token: no cookie is set and the form comes back with
    its error. *)
Theorem login_needs_the_token :
  forall (f : fs) (args : cli) (config : config_file)
         (env_token : option string) (generated module_dir : string),
    truthy (Some generated) = true ->
    let srv := main f args config env_token generated module_dir in
    ACCESS_TOKEN srv <> ""
    /\ (forall token clock,
          token <> ACCESS_TOKEN srv ->
          LoginHandler_post signature srv token clock
          = (None, Render (LoginPage (Some "Invalid token. Try again."))))
    /\ (forall clock,
          LoginHandler_post signature srv "" clock
          = (None, Render (LoginPage (Some "Invalid token. Try again.")))).
Proof.
  intros f args config env_token generated module_dir Hg srv.
  assert (Hne : ACCESS_TOKEN srv <> "") by (apply or_default_not_empty, Hg).
  assert (Hwrong : forall token clock,
             token <> ACCESS_TOKEN srv ->
             LoginHandler_post signature srv token clock
             = (None, Render (LoginPage (Some "Invalid token. Try again.")))).
  { intros token clock Ht. unfold LoginHandler_post.
    apply String.eqb_neq in Ht. rewrite Ht. reflexivity. }
  split; [exact Hne|]. split; [exact Hwrong|].
  intros clock. apply Hwrong. congruence.
Qed.

End Tokens.

Lemma login_empty_flag_witness :
  truthy (Some "generated-token") = true
  /\ ACCESS_TOKEN (main sample (mkcli None None (Some "")) no_config None
                     "generated-token" "/opt/app") <> "".
Proof.
  split; [reflexivity|].
  exact (proj1 (login_needs_the_token toy_signature sample
                  (mkcli None None (Some "")) no_config None
                  "generated-token" "/opt/app" eq_refl)).
Defined.

(** X4: the order of the sources in [main], for the token, the port and
    the root alike: the command line goes before the configuration file,
    that before the environment (for the token), and the default comes
    last; a value that is empty (or a port 0) counts as not given. *)
Theorem configuration_precedence :
  forall (f : fs) (args : cli) (config : config_file)
         (env_token : option string) (generated module_dir : string),
    let srv := main f args config env_token generated module_dir in
    (forall t, arg_token args = Some t -> t <> "" -> ACCESS_TOKEN srv = t)
    /\ (forall t, truthy (arg_token args) = false ->
                  cfg_token config = Some t -> t <> "" -> ACCESS_TOKEN srv = t)
    /\ (forall t, truthy (arg_token args) = false ->
                  truthy (cfg_token config) = false ->
                  env_token = Some t -> t <> "" -> ACCESS_TOKEN srv = t)
    /\ (truthy (arg_token args) = false ->
        truthy (cfg_token config) = false ->
        truthy env_token = false -> ACCESS_TOKEN srv = generated)
    /\ (forall p, arg_port args = Some p -> p <> 0%Z -> port srv = p)
    /\ (forall p, port_or (arg_port args) 0 = 0%Z ->
                  cfg_port config = Some p -> p <> 0%Z -> port srv = p)
    /\ (port_or (arg_port args) 0 = 0%Z ->
        port_or (cfg_port config) 0 = 0%Z -> port srv = 8000%Z)
    /\ (forall r, arg_root args = Some r -> r <> "" ->
                  ROOT_DIR srv = realpath f r)
    /\ (forall r, truthy (arg_root args) = false ->
                  cfg_root config = Some r -> r <> "" ->
                  ROOT_DIR srv = realpath f r)
    /\ (truthy (arg_root args) = false -> truthy (cfg_root config) = false ->
        ROOT_DIR srv = realpath f (cwd f)).
Proof.
  intros f args config env_token generated module_dir srv.
  unfold srv, main. cbn [ACCESS_TOKEN port ROOT_DIR].
  assert (Htr : forall t, t <> "" -> truthy (Some t) = true).
  { intros t Ht. simpl. apply String.eqb_neq in Ht. rewrite Ht. reflexivity. }
  assert (Hod : forall t d, t <> "" -> or_default (Some t) d = t).
  { intros t d Ht. unfold or_default. apply String.eqb_neq in Ht.
    rewrite Ht. reflexivity. }
  assert (Hfalse : forall a d, truthy a = false -> or_default a d = d).
  { intros [s|] d; simpl; [|reflexivity].
    destruct (s =? ""); [reflexivity | discriminate]. }
  repeat split.
  - intros t E Ht. unfold or_else. rewrite E, (Htr t Ht). apply Hod, Ht.
  - intros t Ha E Ht. unfold or_else. rewrite Ha, E, (Htr t Ht). apply Hod, Ht.
  - intros t Ha Hc E Ht. unfold or_else. rewrite Ha, Hc, E. apply Hod, Ht.
  - intros Ha Hc He. unfold or_else. rewrite Ha, Hc. apply Hfalse, He.
  - intros p E Hp. unfold port_or at 1. rewrite E.
    apply Z.eqb_neq in Hp. rewrite Hp. reflexivity.
  - intros p Ha E Hp.
    assert (Hout : forall b, port_or (arg_port args) b = b).
    { intros b. unfold port_or in *. destruct (arg_port args) as [q|]; auto.
      destruct (q =? 0)%Z eqn:Eq; auto. apply Z.eqb_neq in Eq. congruence. }
    rewrite Hout. unfold port_or. rewrite E.
    apply Z.eqb_neq in Hp. rewrite Hp. reflexivity.
  - intros Ha Hc.
    assert (Hout : forall a b, port_or a 0 = 0%Z -> port_or a b = b).
    { intros a b. unfold port_or. destruct a as [q|]; auto.
      destruct (q =? 0)%Z eqn:Eq; auto. intros ->. discriminate Eq. }
    rewrite (Hout _ _ Ha). apply Hout, Hc.
  - intros r E Hr. unfold or_else. rewrite E, (Htr r Hr).
    rewrite (Hod r _ Hr). reflexivity.
  - intros r Ha E Hr. unfold or_else. rewrite Ha, E.
    rewrite (Hod r _ Hr). reflexivity.
  - intros Ha Hc. unfold or_else. rewrite Ha.
    rewrite (Hfalse _ _ Hc). reflexivity.
Qed.

Lemma config_token_witness :
  truthy (arg_token (mkcli None None (Some ""))) = false
  /\ ACCESS_TOKEN (main sample (mkcli None None (Some ""))
                     (mkconfig None None (Some "from-config")) (Some "from-env")
                     "generated-token" "/opt/app")
     = "from-config"
  /\ ROOT_DIR (main sample (mkcli (Some "") None None)
                 (mkconfig (Some "/srv/a/../b") None None) None
                 "generated-token" "/opt/app")
     = "/srv/b".
Proof.
  split; [reflexivity|]. split.
  - refine (proj1 (proj2 (configuration_precedence sample
                            (mkcli None None (Some ""))
                            (mkconfig None None (Some "from-config"))
                            (Some "from-env") "generated-token" "/opt/app"))
              "from-config" eq_refl eq_refl _).
    discriminate.
  - refine (proj1 (proj2 (proj2 (proj2 (proj2 (proj2 (proj2 (proj2 (proj2
              (configuration_precedence sample
                 (mkcli (Some "") None None)
                 (mkconfig (Some "/srv/a/../b") None None) None
                 "generated-token" "/opt/app")))))))))
              "/srv/a/../b" eq_refl eq_refl _).
    discriminate.
Defined.

(** X5: the listen loop serves on the first port, counting up from the
    configured one, that can be bound: every port before it raised
    [OSError] and was passed over. *)
Theorem listen_loop_takes_first_free_port :
  forall (try_port : Z -> attempt) (start q : Z) (fuel : nat),
    (start <= q)%Z ->
    try_port q = Bound ->
    (forall p, (start <= p < q)%Z -> try_port p = RaisesOSError) ->
    (Z.to_nat (q - start) < fuel)%nat ->
    listen_loop fuel try_port start = Some q.
Proof.
  intros try_port start q fuel. revert start.
  induction fuel as [|n IH]; intros start Hle Hq Hbusy Hfuel; [lia|].
  simpl. destruct (Z.eq_dec start q) as [-> | Hne].
  - rewrite Hq. reflexivity.
  - rewrite (Hbusy start) by lia. apply IH; try assumption; try lia.
    intros p Hp. apply Hbusy. lia.
Qed.

Lemma listen_loop_witness :
  listen_loop 3
    (fun p => if Z.eq_dec p 8002 then Bound else RaisesOSError) 8000
  = Some 8002%Z.
Proof.
  apply (listen_loop_takes_first_free_port _ 8000 8002 3).
  - discriminate.
  - reflexivity.
  - intros p Hp. destruct (Z.eq_dec p 8002) as [E|E]; [|reflexivity].
    exfalso. destruct Hp as [_ Hp]. rewrite E in Hp.
    exact (Z.lt_irrefl _ Hp).
  - apply le_n_S, le_n_S, le_n.
Defined.

End Entry.

(** ** Further properties: what [MainHandler.get] shows *)

Module Pages.
Import PosixPath FS TextIO Shape Props PathFacts GuardFacts Server Fixtures
  TailFacts.













End Pages.

(** ** Further properties: the tail over many ticks *)

Module Ticks.
Import PosixPath FS TextIO Shape Props PathFacts Server Fixtures TailFacts.

Lemma concat_empty_app a b :
  String.concat "" (a ++ b) = String.concat "" a ++ String.concat "" b.
Proof.
  induction a as [|x a IH]; [reflexivity|].
  change ((x :: a) ++ b)%list with (x :: (a ++ b))%list.
  rewrite !concat_empty_cons, IH, append_assoc. reflexivity.
Qed.

Lemma tick_at_end (s : session) (data more : string) :
  running s = true ->
  file s = Some (mkhandle (String.length data) false) ->
  send_new_lines (Some (data ++ more)) s
  = mkoutcome
      (mksession (file_path s) (running s)
         (Some (mkhandle (String.length (data ++ more)) false))
         (periodic s) (ws_closed s))
      (iter_lines more) false.
Proof.
  intros Hr Hf.
  rewrite (send_new_lines_spec s _ (data ++ more) Hr Hf eq_refl).
  simpl pos. rewrite skip_append, length_append. reflexivity.
Qed.

(** X8: over any run of ticks the messages put together are the text of
    the chunks appended between them, each chunk read on its own as text
    mode reads it; no byte is read twice, none is left out, and no tick
    raises.  When every chunk is well-formed UTF-8 without carriage
    returns, however the text is cut into such chunks, the messages put
    together are the appended text. *)
Theorem stream_delivers_appended_text :
  forall (chunks : list string) (s : session) (data : string),
    running s = true ->
    file s = Some (mkhandle (String.length data) false) ->
    String.concat "" (stream s data chunks)
    = String.concat "" (map read_text chunks)
    /\ (forallb utf8 chunks = true -> forallb no_cr chunks = true ->
        String.concat "" (stream s data chunks) = String.concat "" chunks).
Proof.
  assert (Hgen : forall chunks s data,
             running s = true ->
             file s = Some (mkhandle (String.length data) false) ->
             String.concat "" (stream s data chunks)
             = String.concat "" (map read_text chunks)).
  { induction chunks as [|c chunks IH]; intros s data Hr Hf; [reflexivity|].
    simpl stream. rewrite (tick_at_end s data c Hr Hf). cbn [sent state map].
    rewrite concat_empty_app, concat_empty_cons. unfold read_text at 1.
    f_equal. apply IH; [exact Hr | reflexivity]. }
  intros chunks s data Hr Hf. split; [apply Hgen; assumption|].
  intros Hu Hc. rewrite (Hgen chunks s data Hr Hf). f_equal.
  clear Hr Hf. induction chunks as [|c chunks IH]; [reflexivity|].
  simpl in Hu, Hc. apply andb_prop in Hu as [Hu Hus].
  apply andb_prop in Hc as [Hc Hcs].
  cbn [map]. rewrite (IH Hus Hcs). f_equal.
  apply (iter_lines_plain c Hu Hc).
Qed.

Lemma stream_two_chunks_witness :
  running (streaming_at 2) = true
  /\ String.concat "" (stream (streaming_at 2) "hi" ["abc"; "def" ++ nl])
     = String.concat "" ["abc"; "def" ++ nl].
Proof.
  split; [reflexivity|].
  exact (proj2 (stream_delivers_appended_text ["abc"; "def" ++ nl]
                  (streaming_at 2) "hi" eq_refl eq_refl)
           eq_refl eq_refl).
Defined.

(** X9: when the file has become shorter than the cursor (it was
    truncated or replaced), a tick sends nothing and leaves the cursor
    where it was; text written below the old cursor is never sent. *)
Theorem truncated_file_sends_nothing :
  forall (s : session) (h : handle) (data : string),
    running s = true ->
    file s = Some h ->
    closed h = false ->
    String.length data <= pos h ->
    send_new_lines (Some data) s
    = mkoutcome
        (mksession (file_path s) (running s) (Some (mkhandle (pos h) false))
           (periodic s) (ws_closed s))
        [] false.
Proof.
  intros s h data Hr Hf Hc Hlen.
  rewrite (send_new_lines_spec s h data Hr Hf Hc).
  rewrite (skip_all data (pos h) Hlen). simpl String.length.
  rewrite Nat.add_0_r. reflexivity.
Qed.

Lemma truncated_file_witness :
  running (streaming_at 5) = true
  /\ send_new_lines (Some "new") (streaming_at 5)
     = mkoutcome (streaming_at 5) [] false.
Proof.
  split; [reflexivity|].
  exact (truncated_file_sends_nothing (streaming_at 5) (mkhandle 5 false) "new"
           eq_refl eq_refl eq_refl
           (le_S _ _ (le_S _ _ (le_n 3)))).
Defined.

(** X10: [on_close] brings any session, also one on which [open] never
    set a handle or a timer, to the closed state, and doing it again
    changes nothing; after it a tick neither reads nor sends, even when
    reading would raise. *)
Theorem closed_session_stays_silent :
  forall (s : session) (env : option string),
    is_closed (on_close s) = true
    /\ on_close (on_close s) = on_close s
    /\ send_new_lines env (on_close s) = mkoutcome (on_close s) [] false.
Proof.
  intros s env. split; [|split].
  - unfold is_closed, on_close. simpl.
    destruct (periodic s), (file s); reflexivity.
  - unfold on_close. simpl. destruct (periodic s), (file s); reflexivity.
  - reflexivity.
Qed.

End Ticks.

(** ** Further properties: what upload, delete and rename leave in the store *)

Module Effects.
Import PosixPath FS TextIO Shape Props PathFacts ResolveFacts GuardFacts.
Import Server Fixtures StoreFacts TailFacts.

Lemma upload_entry_read f dir_real info f' :
  upload_entry f dir_real info = (f', None) ->
  read_file f' (realpath f (join dir_real [fst info])) = Some (snd info).
Proof.
  unfold upload_entry. cbv zeta.
  destruct (escapes f dir_real _) as [[|]|]; try discriminate.
  destruct (makedirs f _) as [f1|]; [|discriminate].
  destruct (write_file f1 _ (snd info)) as [f2|] eqn:Ew; [|discriminate].
  intros [= <-].
  destruct (write_file_reads_back _ _ _ _ Ew) as (l & _ & _ & Hread & _).
  exact Hread.
Qed.

(** X11: an entry of the drag-and-drop upload that goes through can be
    read back: the file at the resolved path holds exactly the uploaded
    body, and every other entry the store held before is still there
    with its content. *)
Theorem uploaded_entry_reads_back :
  forall (f : fs) (dir_real : string) (info : file_info) (f' : fs),
    upload_entry f dir_real info = (f', None) ->
    let final := realpath f (join dir_real [fst info]) in
    read_file f' final = Some (snd info)
    /\ exists l, resolve f' final = Some l
                 /\ forall k v, k <> l -> node_at f k = Some v ->
                                node_at f' k = Some v.
Proof.
  intros f dir_real info f' H final.
  unfold upload_entry in H. cbv zeta in H. fold final in H.
  destruct (escapes f dir_real final) as [[|]|]; try discriminate H.
  destruct (makedirs f (dirname final)) as [f1|] eqn:Em; [|discriminate H].
  destruct (write_file f1 final (snd info)) as [f2|] eqn:Ew; [|discriminate H].
  injection H as <-.
  destruct (write_file_reads_back _ _ _ _ Ew) as (l & _ & Er2 & Hread & Hk).
  split; [exact Hread|]. exists l. split; [exact Er2|].
  intros k v Hne Hv. rewrite (Hk k Hne).
  apply (makedirs_keeps _ _ _ _ _ Em Hv).
Qed.

Lemma uploaded_entry_witness :
  read_file (fst (upload_entry sample "/srv/a" ("new/x.txt", "data")))
    "/srv/a/new/x.txt" = Some "data".
Proof.
  exact (proj1 (uploaded_entry_reads_back sample "/srv/a" ("new/x.txt", "data")
                  (fst (upload_entry sample "/srv/a" ("new/x.txt", "data")))
                  eq_refl)).
Defined.

(** X12: the single-file upload tests the file name against the root, not
    against the target directory: when it answers with the redirect to
    the directory's listing, the target directory was created first, the
    resolved file path is contained in the root and is no link, and the
    file there reads back as the uploaded body.  Only the first file of
    the field is used. *)
Theorem single_upload_reads_back :
  forall (f : fs) (rc : list string) (user : option string)
         (directory : string) (info : file_info) (more : list file_info)
         (f2 : fs),
    valid_names rc = true ->
    UploadHandler_post f (render rc) user directory [] (info :: more)
    = (f2, Redirect ("/" ++ directory)) ->
    let target := realpath f (join (render rc) [directory]) in
    exists f1,
      makedirs f target = Some f1
      /\ contained (render rc) (realpath f1 (join target [fst info])) = true
      /\ islink f1 (realpath f1 (join target [fst info])) = false
      /\ read_file f2 (realpath f1 (join target [fst info])) = Some (snd info).
Proof.
  intros f rc user directory info more f2 Hrc H target.
  unfold UploadHandler_post, authenticated in H.
  destruct (truthy user); [|discriminate H].
  cbv zeta in H. fold target in H.
  destruct (escapes f (render rc) target) as [[|]|]; try discriminate H.
  destruct (makedirs f target) as [f1|]; [|discriminate H].
  exists f1. split; [reflexivity|].
  set (file_realpath := realpath f1 (join target [fst info])) in *.
  assert (Ht : normal_abs target) by (apply realpath_join_normal; reflexivity).
  rewrite escapes_spec in H;
    [| apply render_normal, Hrc
     | apply realpath_join_normal, normal_abs_isabs, Ht ].
  destruct (contained (render rc) file_realpath); cbn [negb orb] in H;
    [|discriminate H].
  destruct (islink f1 file_realpath); [discriminate H|].
  destruct (write_file f1 file_realpath (snd info)) as [f2'|] eqn:Ew;
    [|discriminate H].
  injection H as <-.
  destruct (write_file_reads_back _ _ _ _ Ew) as (l & _ & _ & Hread & _).
  auto.
Qed.

Lemma single_upload_other_directory_witness :
  valid_names ["srv"] = true
  /\ read_file
       (fst (UploadHandler_post sample "/srv" authenticated_user "a" []
               [("../b/x", "data")]))
       "/srv/b/x" = Some "data".
Proof.
  split; [reflexivity|].
  destruct (single_upload_reads_back sample ["srv"] authenticated_user "a"
              ("../b/x", "data") []
              (fst (UploadHandler_post sample "/srv" authenticated_user "a" []
                      [("../b/x", "data")]))
              eq_refl eq_refl) as (f1 & Hm & _ & _ & Hr).
  injection Hm as <-. exact Hr.
Defined.





(** X15: a rename that is answered with the redirect moved the entry:
    what stood at the source stands at the destination, the source place
    is empty, and every place outside the two is untouched.  (When both
    paths name the same entry nothing changes.) *)
Theorem rename_moves_entry :
  forall (f : fs) (ROOT_DIR : string) (user : option string)
         (path new_name : string) (f' : fs),
    RenameHandler_post f ROOT_DIR user path new_name
    = (f', redirect_parent path) ->
    exists ks kd n,
      resolve_entry f (realpath f (join ROOT_DIR [path])) = Some ks
      /\ resolve_entry f (realpath f (join ROOT_DIR [dirname path; new_name]))
         = Some kd
      /\ node_at f ks = Some n
      /\ (ks = kd -> f' = f)
      /\ (is_prefix kd ks = false ->
          node_at f' kd = Some n
          /\ node_at f' ks = None
          /\ forall k, is_prefix ks k = false -> is_prefix kd k = false ->
                       node_at f' k = node_at f k).
Proof.
  intros f ROOT_DIR user path new_name f' H.
  unfold RenameHandler_post, authenticated, redirect_parent in H.
  destruct (truthy user); [|discriminate H]. cbv zeta in H.
  set (src := realpath f (join ROOT_DIR [path])) in *.
  set (dst := realpath f (join ROOT_DIR [dirname path; new_name])) in *.
  destruct (escapes f ROOT_DIR src) as [[|]|]; try discriminate H.
  destruct (escapes f ROOT_DIR dst) as [[|]|]; try discriminate H.
  destruct (rename f src dst) as [f1|] eqn:Er; [|discriminate H].
  injection H as <-.
  unfold rename in Er.
  destruct (resolve_entry f src) as [[|x ks]|]; try discriminate Er.
  destruct (resolve_entry f dst) as [[|y kd]|]; try discriminate Er.
  destruct (node_at f (x :: ks)) as [n|] eqn:En; [|discriminate Er].
  destruct (node_at f (removelast (y :: kd))) as [[| |]|]; try discriminate Er.
  exists (x :: ks), (y :: kd), n.
  split; [reflexivity|]. split; [reflexivity|]. split; [exact En|].
  destruct (loc_eqb (x :: ks) (y :: kd)) eqn:E.
  - injection Er as <-. split; [reflexivity|].
    intros Hp. apply loc_eqb_eq in E. rewrite E in Hp.
    rewrite (loc_eqb_is_prefix _ _ (loc_eqb_refl _)) in Hp. discriminate Hp.
  - split.
    { intros Heq. rewrite Heq, loc_eqb_refl in E. discriminate E. }
    cbv zeta in Er.
    match type of Er with
    | (if ?c then _ else _) = _ => destruct c; [|discriminate Er]
    end.
    injection Er as <-. intros Hp.
    change (with_entries f _)
      with (with_entries f (moved (x :: ks) (y :: kd) (entries f))).
    split; [|split].
    + unfold node_at, with_entries. cbn [entries].
      rewrite (lookup_rebase_dst _ _ Hp). exact En.
    + unfold node_at, with_entries. cbn [entries].
      apply (lookup_rebase_src _ _ Hp).
    + intros [|z k] Hs Hd; [reflexivity|].
      unfold node_at, with_entries. cbn [entries].
      apply (lookup_rebase_other _ _ _ _ Hs Hd).
Qed.

Lemma rename_moves_witness :
  exists ks kd n,
    resolve_entry sample "/srv/a/f.txt" = Some ks
    /\ resolve_entry sample "/srv/a/g.txt" = Some kd
    /\ node_at sample ks = Some n
    /\ (ks = kd ->
        fst (RenameHandler_post sample "/srv" authenticated_user "a/f.txt"
               "g.txt") = sample)
    /\ (is_prefix kd ks = false ->
        node_at (fst (RenameHandler_post sample "/srv" authenticated_user
                        "a/f.txt" "g.txt")) kd = Some n
        /\ node_at (fst (RenameHandler_post sample "/srv" authenticated_user
                           "a/f.txt" "g.txt")) ks = None
        /\ forall k, is_prefix ks k = false -> is_prefix kd k = false ->
                     node_at (fst (RenameHandler_post sample "/srv"
                                     authenticated_user "a/f.txt" "g.txt")) k
                     = node_at sample k).
Proof.
  exact (rename_moves_entry sample "/srv" authenticated_user "a/f.txt" "g.txt"
           (fst (RenameHandler_post sample "/srv" authenticated_user "a/f.txt"
                   "g.txt"))
           eq_refl).
Defined.



Lemma upload_batch_written f dir_real files f' :
  upload_batch f dir_real files = (f', Reply 200 [] "Upload successful")
  <-> written f dir_real files = Some f'.
Proof.
  revert f. induction files as [|info more IH]; intros f; simpl.
  - split; [intros [= <-] | intros [= <-]]; reflexivity.
  - destruct (upload_entry f dir_real info) as [f1 [r|]] eqn:E.
    + split; [|discriminate].
      intros [= -> ->]. unfold upload_entry in E. cbv zeta in E.
      destruct (escapes f dir_real _) as [[|]|]; try discriminate E.
      destruct (makedirs f _); [|discriminate E].
      destruct (write_file _ _ _); discriminate E.
    + apply IH.
Qed.

(** X17: the drag-and-drop upload answers 200 "Upload successful" exactly
    when the target directory passed the test and every entry of the
    batch, in order, went through; the store is then the one the entries
    left one after the other, and the last entry reads back as uploaded. *)
Theorem batch_succeeds_iff_every_entry_written :
  forall (f : fs) (ROOT_DIR : string) (user : option string)
         (directory : string) (pre file : list file_info) (e : file_info)
         (f' : fs),
    truthy user = true ->
    let dir_real := realpath f (join ROOT_DIR [directory]) in
    (UploadHandler_post f ROOT_DIR user directory (pre ++ [e]) file
     = (f', Reply 200 [] "Upload successful")
     <-> escapes f ROOT_DIR dir_real = Some false
         /\ written f dir_real (pre ++ [e]) = Some f')
    /\ (UploadHandler_post f ROOT_DIR user directory (pre ++ [e]) file
        = (f', Reply 200 [] "Upload successful") ->
        exists f1, written f dir_real pre = Some f1
                   /\ read_file f' (realpath f1 (join dir_real [fst e]))
                      = Some (snd e)).
Proof.
  intros f ROOT_DIR user directory pre file e f' Hu dir_real.
  assert (Hpost :
            UploadHandler_post f ROOT_DIR user directory (pre ++ [e]) file
            = match escapes f ROOT_DIR dir_real with
              | None => (f, Uncaught)
              | Some true => (f, Reply 403 [] "Forbidden")
              | Some false => upload_batch f dir_real (pre ++ [e])
              end).
  { unfold UploadHandler_post, authenticated. rewrite Hu.
    destruct (pre ++ [e])%list eqn:E; [|reflexivity].
    destruct pre; discriminate E. }
  rewrite Hpost. clear Hpost.
  assert (Hiff :
            match escapes f ROOT_DIR dir_real with
            | None => (f, Uncaught)
            | Some true => (f, Reply 403 [] "Forbidden")
            | Some false => upload_batch f dir_real (pre ++ [e])
            end = (f', Reply 200 [] "Upload successful")
            <-> escapes f ROOT_DIR dir_real = Some false
                /\ written f dir_real (pre ++ [e]) = Some f').
  { destruct (escapes f ROOT_DIR dir_real) as [[|]|].
    - split; [discriminate | intros [H _]; discriminate H].
    - rewrite upload_batch_written. tauto.
    - split; [discriminate | intros [H _]; discriminate H]. }
  split; [exact Hiff|].
  intros H. apply Hiff in H as [_ Hw]. clear Hiff.
  clearbody dir_real. clear Hu. revert f Hw.
  induction pre as [|p pre IH]; intros f Hw; simpl in Hw.
  - destruct (upload_entry f dir_real e) as [f1 [r|]] eqn:E; [discriminate Hw|].
    injection Hw as ->. exists f. split; [reflexivity|].
    apply (upload_entry_read f dir_real e f' E).
  - destruct (upload_entry f dir_real p) as [f1 [r|]] eqn:E; [discriminate Hw|].
    destruct (IH f1 Hw) as (f2 & Hw2 & Hr).
    exists f2. split; [|exact Hr]. simpl. rewrite E. exact Hw2.
Qed.

Lemma batch_of_two_witness :
  exists f1,
    written sample "/srv/a" [("x", "1")] = Some f1
    /\ read_file
         (fst (UploadHandler_post sample "/srv" authenticated_user "a"
                 [("x", "1"); ("new/y", "2")] []))
         (realpath f1 (join "/srv/a" ["new/y"])) = Some "2".
Proof.
  exact (proj2 (batch_succeeds_iff_every_entry_written sample "/srv"
                  authenticated_user "a" [("x", "1")] [] ("new/y", "2")
                  (fst (UploadHandler_post sample "/srv" authenticated_user "a"
                          [("x", "1"); ("new/y", "2")] []))
                  eq_refl)
           eq_refl).
Defined.

End Effects.

(** ** Further properties: from the backfill to the first tick *)

Module Handover.
Import PosixPath FS TextIO Shape Props PathFacts Server Fixtures TailFacts.

(** X18: the tail hands over from the backfill to the stream without a
    gap or an overlap.  For a file of at most 100 lines of well-formed
    text without carriage returns, on a path [realpath] does not raise
    on, that does not change while the tail is opened, the messages of
    [open] and of the first tick after well-formed text was appended, put
    together, are the old text followed by the appended text, and neither
    of the two raises. *)
Theorem backfill_then_tick_delivers_whole_text :
  forall (f : fs) (ROOT_DIR : string) (user : option string)
         (path data more : string),
    truthy user = true ->
    realpath_raises f (join ROOT_DIR [path]) = false ->
    let rp := realpath f (join ROOT_DIR [path]) in
    escapes f ROOT_DIR rp = Some false ->
    read_file f rp = Some data ->
    List.length (iter_lines data) <= 100 ->
    utf8 data = true -> no_cr data = true ->
    utf8 more = true -> no_cr more = true ->
    let opened := FileStreamHandler_open f ROOT_DIR user path new_session in
    let tick := send_new_lines (Some (data ++ more)) (state opened) in
    String.concat "" (sent opened ++ sent tick) = data ++ more
    /\ raised opened = false /\ raised tick = false.
Proof.
  intros f ROOT_DIR user path data more Hu Hnr rp He Hread Hlen Hud Hd Hum Hm
    opened tick.
  assert (E : opened
              = mkoutcome
                  (mksession rp true (Some (mkhandle (String.length data) false))
                     (Some true) false)
                  (if is_nil (iter_lines data) then []
                   else [String.concat "" (iter_lines data)]) false).
  { unfold opened, FileStreamHandler_open. rewrite Hu, Hnr. cbn [negb].
    cbv zeta. fold rp. rewrite He.
    rewrite (Tailing.read_file_isfile _ _ _ Hread), Hread. cbn [negb].
    rewrite deque_last by (apply Nat.lt_0_succ).
    replace (List.length (iter_lines data) - 100) with 0
      by (symmetry; apply Nat.sub_0_le, Hlen).
    reflexivity. }
  assert (T : tick
              = mkoutcome
                  (mksession rp true
                     (Some (mkhandle (String.length (data ++ more)) false))
                     (Some true) false)
                  (iter_lines more) false).
  { unfold tick. rewrite E. cbn [state].
    apply (Ticks.tick_at_end
             (mksession rp true (Some (mkhandle (String.length data) false))
                (Some true) false)
             data more eq_refl eq_refl). }
  rewrite E, T. cbn [sent raised]. split; [|split; reflexivity].
  pose proof (iter_lines_plain data Hud Hd) as Cd.
  pose proof (iter_lines_plain more Hum Hm) as Cm.
  destruct (iter_lines data) as [|x l].
  - cbn [is_nil app]. rewrite Cm. simpl in Cd. rewrite <- Cd. reflexivity.
  - cbn [is_nil app]. rewrite concat_empty_cons, Cd, Cm. reflexivity.
Qed.

Lemma backfill_then_tick_witness :
  String.concat ""
    (sent (FileStreamHandler_open sample "/srv" authenticated_user "a/f.txt"
             new_session)
     ++ sent (send_new_lines (Some ("hi" ++ "there"))
                (state (FileStreamHandler_open sample "/srv" authenticated_user
                          "a/f.txt" new_session))))
  = "hi" ++ "there".
Proof.
  refine (proj1 (backfill_then_tick_delivers_whole_text sample "/srv"
                   authenticated_user "a/f.txt" "hi" "there"
                   eq_refl eq_refl eq_refl eq_refl _ eq_refl eq_refl
                   eq_refl eq_refl)).
  apply Nat.lt_le_incl, Nat.lt_succ_r. simpl. repeat constructor.
Defined.

End Handover.

(** ** Further properties: the life of a login *)

Module Sessions.
Import Server Auth Startup Fixtures.

Section Lifetime.

Variable signature : string -> Z * string * string -> string.

(** X19: a login with the token sets a cookie and redirects to [/]; with
    that cookie the login page redirects to [/] as long as the cookie is
    not older than 31 days, and shows the form again afterwards.  Without
    a cookie the form is shown. *)
Theorem login_cookie_lifetime :
  forall (f : FS.fs) (args : cli) (config : config_file)
         (env_token : option string) (generated module_dir : string)
         (issued later : Z),
    truthy (Some generated) = true ->
    let srv := main f args config env_token generated module_dir in
    let login_page cookie :=
      match get_current_user signature (app srv) cookie later with
      | Some user => LoginHandler_get user
      | None => Uncaught
      end in
    exists c,
      LoginHandler_post signature srv (ACCESS_TOKEN srv) issued
      = (Some c, Redirect "/")
      /\ login_page (Some c)
         = (if (later - issued <=? 31 * 86400)%Z then Redirect "/"
            else Render (LoginPage None))
      /\ login_page None = Render (LoginPage None).
Proof.
  intros f args config env_token generated module_dir issued later Hg srv
    login_page.
  assert (Ht : truthy (Some (ACCESS_TOKEN srv)) = true)
    by (apply AccessGate.or_default_truthy, Hg).
  assert (Hne : (ACCESS_TOKEN srv =? "") = false)
    by (apply negb_true_iff, Ht).
  exists (create_signed_value signature (ACCESS_TOKEN srv) "user"
            "authenticated" issued).
  split; [|split].
  - unfold LoginHandler_post, set_secure_cookie. rewrite String.eqb_refl.
    change (cookie_secret (app_settings (app srv)))
      with (Some (ACCESS_TOKEN srv)).
    cbv iota beta. rewrite Hne. reflexivity.
  - unfold login_page, get_current_user, get_secure_cookie.
    change (cookie_secret (app_settings (app srv)))
      with (Some (ACCESS_TOKEN srv)).
    rewrite Ht. cbn [negb].
    unfold decode_signed_value, create_signed_value.
    cbn [passed_sig timestamp name_field value_field].
    rewrite !String.eqb_refl. cbn [negb].
    destruct (later - issued <=? 31 * 86400)%Z eqn:E.
    + apply Z.leb_le in E.
      replace (issued <? later - 31 * 86400)%Z with false
        by (symmetry; apply Z.ltb_ge; lia).
      reflexivity.
    + apply Z.leb_gt in E.
      replace (issued <? later - 31 * 86400)%Z with true
        by (symmetry; apply Z.ltb_lt; lia).
      reflexivity.
  - unfold login_page, get_current_user, get_secure_cookie.
    change (cookie_secret (app_settings (app srv)))
      with (Some (ACCESS_TOKEN srv)).
    rewrite Ht. reflexivity.
Qed.

End Lifetime.

Lemma login_cookie_witness :
  exists c,
    LoginHandler_post toy_signature
      (main sample (mkcli None None (Some "s3cret")) no_config None
         "generated-token" "/opt/app") "s3cret" 1700000000
    = (Some c, Redirect "/")
    /\ match get_current_user toy_signature
               (app (main sample (mkcli None None (Some "s3cret")) no_config
                       None "generated-token" "/opt/app"))
               (Some c) 1800000000 with
       | Some user => LoginHandler_get user
       | None => Uncaught
       end = Render (LoginPage None).
Proof.
  destruct (login_cookie_lifetime toy_signature sample
              (mkcli None None (Some "s3cret")) no_config None
              "generated-token" "/opt/app" 1700000000 1800000000 eq_refl)
    as (c & Hpost & Hpage & _).
  exists c. split; [exact Hpost | exact Hpage].
Defined.

End Sessions.

(** ** Further properties: confinement to the root in a store without links *)

Module Confinement.
Import PosixPath FS TextIO Shape Props PathFacts ResolveFacts GuardFacts.
Import Server Fixtures StoreFacts LinkFreeFacts.

Lemma stat_below f rc p n :
  link_free f -> valid_names rc = true -> normal_abs p ->
  contained (render rc) p = true -> stat f p = Some n ->
  exists l, is_prefix rc l = true /\ node_at f l = Some n.
Proof.
  intros Hlf Hrc Hp Hc Hs. unfold stat, bind, resolve in Hs.
  destruct (lookup_path f false true p) as [l|] eqn:El; [|discriminate Hs].
  exists l. split; [|exact Hs].
  rewrite (lookup_path_lexical _ _ _ _ _ Hlf Hp El).
  apply contained_below; assumption.
Qed.

(** X20: in a store without symbolic links, whatever [MainHandler.get]
    shows stands at or below the root: the body of a download is the
    bytes of a file there, the text of a file page is what text mode
    reads from the bytes of a file there (decoded as UTF-8 with U+FFFD
    for an ill-formed sequence, the line ends translated), and a listing
    is that of a directory there. *)
Theorem shown_content_lies_below_root :
  forall (f : fs) (rc : list string) (user : option string) (path : string)
         (download stream : option string),
    no_links f = true ->
    valid_names rc = true ->
    let r := MainHandler_get f (render rc) user path download stream in
    (forall headers body,
        r = Reply 200 headers body ->
        exists l, is_prefix rc l = true /\ node_at f l = Some (File body))
    /\ (forall name shown text streaming,
          r = Render (FilePage name shown text streaming) ->
          exists l data, is_prefix rc l = true
                         /\ node_at f l = Some (File data)
                         /\ text = read_text data)
    /\ (forall shown files,
          r = Render (DirectoryPage shown files) ->
          exists l, is_prefix rc l = true /\ node_at f l = Some Dir).
Proof.
  intros f rc user path download stream Hnl Hrc r.
  pose proof (no_links_link_free f Hnl) as Hlf.
  unfold r, MainHandler_get, authenticated.
  destruct (truthy user); [|repeat split; discriminate].
  cbv zeta. set (rp := realpath f (join (render rc) [path])).
  assert (Hn : normal_abs rp) by (apply realpath_join_normal; reflexivity).
  rewrite escapes_spec; [| apply render_normal, Hrc | exact Hn ].
  destruct (contained (render rc) rp) eqn:Hc; cbn [negb orb];
    [|repeat split; discriminate].
  destruct (islink f rp); [repeat split; discriminate|].
  unfold isdir, isfile, read_file.
  destruct (stat f rp) as [[b| |t]|] eqn:Es.
  - destruct (stat_below f rc rp _ Hlf Hrc Hn Hc Es) as (l & Hl & Hnode).
    destruct (truthy download).
    + destruct (header_value_ok _); cbn [negb];
        [|repeat split; discriminate].
      split; [|split; discriminate].
      intros headers body [= _ <-]. exists l. auto.
    + split; [discriminate|]. split; [|discriminate].
      intros name shown text streaming [= _ _ <- _]. exists l, b. auto.
  - destruct (stat_below f rc rp _ Hlf Hrc Hn Hc Es) as (l & Hl & Hnode).
    destruct (listdir f rp); [|repeat split; discriminate].
    split; [discriminate|]. split; [discriminate|].
    intros shown files _. exists l. auto.
  - repeat split; discriminate.
  - repeat split; discriminate.
Qed.

Lemma shown_content_witness :
  exists l, is_prefix ["srv"] l = true
            /\ node_at plain l = Some (File "hi").
Proof.
  exact (proj1 (shown_content_lies_below_root plain ["srv"]
                  authenticated_user "a/f.txt" (Some "1") None
                  eq_refl eq_refl)
           [("Content-Type", "application/octet-stream");
            ("Content-Disposition",
             "attachment; filename=" ++ dquote ++ "f.txt" ++ dquote)]
           "hi" eq_refl).
Defined.

(** X21: in a store without symbolic links, delete and rename change
    nothing outside the root: every place that is not at or below the
    root holds after the request what it held before, whatever the path
    and the new name are. *)
Theorem delete_and_rename_stay_below_root :
  forall (f : fs) (rc : list string) (user : option string)
         (path new_name : string) (k : loc),
    no_links f = true ->
    valid_names rc = true ->
    is_prefix rc k = false ->
    node_at (fst (DeleteHandler_post f (render rc) user path)) k = node_at f k
    /\ node_at (fst (RenameHandler_post f (render rc) user path new_name)) k
       = node_at f k.
Proof.
  intros f rc user path new_name k Hnl Hrc Hk.
  pose proof (no_links_link_free f Hnl) as Hlf.
  split.
  - unfold DeleteHandler_post, authenticated.
    destruct (truthy user); [|reflexivity].
    cbv zeta. set (rp := realpath f (join (render rc) [path])).
    assert (Hn : normal_abs rp) by (apply realpath_join_normal; reflexivity).
    rewrite escapes_spec; [| apply render_normal, Hrc | exact Hn ].
    destruct (contained (render rc) rp) eqn:Hc; cbn [negb orb];
      [|reflexivity].
    destruct (islink f rp) eqn:Hl; [reflexivity|].
    destruct (isdir f rp) eqn:Hd.
    + destruct (rmtree_dir_spec f rp Hl Hd) as (l & Er & _ & Hp).
      assert (Hin : is_prefix rc l = true)
        by (apply (lookup_entry_below f rc rp true l); assumption).
      assert (E : node_at (fst (rmtree f rp)) k = node_at f k).
      { destruct k as [|x k]; [reflexivity|].
        rewrite Hp by discriminate.
        rewrite (outside_not_below _ _ _ Hin Hk). reflexivity. }
      destruct (rmtree f rp) as [f' [|]]; exact E.
    + destruct (isfile f rp) eqn:Hf; [|reflexivity].
      destruct (remove_file_spec f rp Hl Hf) as (l & f' & Er & Erm & _ & Hp).
      assert (Hin : is_prefix rc l = true)
        by (apply (lookup_entry_below f rc rp true l); assumption).
      rewrite Erm. cbn [fst]. rewrite Hp.
      rewrite (not_prefix_neq rc l k Hk Hin). reflexivity.
  - unfold RenameHandler_post, authenticated.
    destruct (truthy user); [|reflexivity].
    cbv zeta.
    set (src := realpath f (join (render rc) [path])).
    set (dst := realpath f (join (render rc) [dirname path; new_name])).
    assert (Hns : normal_abs src) by (apply realpath_join_normal; reflexivity).
    assert (Hnd : normal_abs dst) by (apply realpath_join_normal; reflexivity).
    rewrite !escapes_spec;
      [| apply render_normal, Hrc | exact Hnd
       | apply render_normal, Hrc | exact Hns ].
    destruct (contained (render rc) src) eqn:Hcs; cbn [negb orb];
      [|reflexivity].
    destruct (islink f src); [reflexivity|].
    destruct (contained (render rc) dst) eqn:Hcd; cbn [negb orb];
      [|reflexivity].
    destruct (islink f dst); [reflexivity|].
    destruct (rename f src dst) as [f'|] eqn:Er; [|reflexivity].
    cbn [fst]. unfold rename in Er. unfold resolve_entry in Er.
    destruct (lookup_path f false false src) as [[|x ks]|] eqn:Es;
      try discriminate Er.
    destruct (lookup_path f false false dst) as [[|y kd]|] eqn:Ed;
      try discriminate Er.
    pose proof (lookup_entry_below f rc src false _ Hlf Hrc Hns Hcs Es) as His.
    pose proof (lookup_entry_below f rc dst false _ Hlf Hrc Hnd Hcd Ed) as Hid.
    destruct (node_at f (x :: ks)) as [n|]; [|discriminate Er].
    destruct (node_at f (removelast (y :: kd))) as [[| |]|];
      try discriminate Er.
    destruct (loc_eqb (x :: ks) (y :: kd)).
    + injection Er as <-. reflexivity.
    + cbv zeta in Er.
      match type of Er with
      | (if ?c then _ else _) = _ => destruct c; [|discriminate Er]
      end.
      injection Er as <-.
      destruct k as [|z k]; [reflexivity|].
      unfold node_at, with_entries. cbn [entries].
      apply (lookup_rebase_other (x :: ks) (y :: kd)).
      * apply (outside_not_below _ _ _ His Hk).
      * apply (outside_not_below _ _ _ Hid Hk).
Qed.

Lemma delete_outside_witness :
  node_at (fst (DeleteHandler_post plain "/srv" authenticated_user
                  "../etc/passwd")) ["etc"; "passwd"]
  = node_at plain ["etc"; "passwd"].
Proof.
  exact (proj1 (delete_and_rename_stay_below_root plain ["srv"]
                  authenticated_user "../etc/passwd" "x" ["etc"; "passwd"]
                  eq_refl eq_refl eq_refl)).
Defined.

Lemma dirname_confined rc cs :
  valid_names cs = true -> is_prefix rc cs = true ->
  normal_abs (dirname (render cs))
  /\ (is_prefix rc (comps_of (dirname (render cs))) = true
      \/ is_prefix (comps_of (dirname (render cs))) rc = true).
Proof.
  intros Hcs Hin. destruct cs as [|n cs] using rev_ind.
  - split; [apply (render_normal []); reflexivity | right; reflexivity].
  - clear IHcs. rewrite valid_names_app in Hcs.
    apply andb_prop in Hcs as [Hcs Hn]. simpl in Hn.
    rewrite andb_true_r in Hn.
    rewrite (dirname_render _ _ Hcs Hn), (comps_of_render _ Hcs).
    split; [apply render_normal, Hcs|].
    destruct (is_prefix_snoc _ _ _ Hin) as [H | ->]; [left; exact H|].
    right. apply is_prefix_app_l.
Qed.

(** One round of the batch loop. *)
Lemma upload_entry_confined f rc dir_real info :
  valid_names rc = true -> no_links f = true -> rooted f rc ->
  normal_abs dir_real -> contained (render rc) dir_real = true ->
  no_links (fst (upload_entry f dir_real info)) = true
  /\ rooted (fst (upload_entry f dir_real info)) rc
  /\ forall k, is_prefix rc k = false ->
               node_at (fst (upload_entry f dir_real info)) k = node_at f k.
Proof.
  intros Hrc Hnl Hr Hd Hcd.
  pose proof (no_links_link_free f Hnl) as Hlf.
  unfold upload_entry. cbv zeta.
  set (final := realpath f (join dir_real [fst info])).
  destruct (realpath_canonical f (join dir_real [fst info]) Hlf
              (join_isabs _ _ (normal_abs_isabs _ Hd))) as (cs & Hcs & Ef).
  fold final in Ef.
  rewrite escapes_spec; [| exact Hd | rewrite Ef; apply render_normal, Hcs ].
  destruct (contained dir_real final) eqn:Hc; cbn [negb orb fst]; [|auto].
  destruct (islink f final); cbn [fst]; [auto|].
  assert (Hin : is_prefix rc cs = true).
  { unfold contained in Hc. apply andb_prop in Hc as [_ Hc].
    rewrite Ef, (comps_of_render _ Hcs) in Hc.
    apply (is_prefix_trans _ _ _ (contained_below _ _ Hrc Hcd) Hc). }
  destruct (dirname_confined rc cs Hcs Hin) as [Hdn Hrel].
  rewrite <- Ef in Hdn, Hrel.
  destruct (makedirs f (dirname final)) as [f1|] eqn:Em; cbn [fst]; [|auto].
  destruct (makedirs_confined f rc _ f1 Hnl Hr Hdn Hrel Em)
    as (Hnl1 & Hr1 & Hout1).
  destruct (write_file f1 final (snd info)) as [f2|] eqn:Ew; cbn [fst];
    [|auto].
  assert (Hnf : normal_abs final) by (rewrite Ef; apply render_normal, Hcs).
  assert (Hinf : is_prefix rc (comps_of final) = true)
    by (rewrite Ef, (comps_of_render _ Hcs); exact Hin).
  destruct (write_confined f1 rc final _ f2 Hnl1 Hr1 Hnf Hinf Ew)
    as (Hnl2 & Hr2 & Hout2).
  split; [exact Hnl2|]. split; [exact Hr2|].
  intros k Hk. rewrite (Hout2 k Hk). apply Hout1, Hk.
Qed.

Lemma upload_batch_confined rc dir_real files :
  valid_names rc = true ->
  normal_abs dir_real -> contained (render rc) dir_real = true ->
  forall f, no_links f = true -> rooted f rc ->
  forall k, is_prefix rc k = false ->
            node_at (fst (upload_batch f dir_real files)) k = node_at f k.
Proof.
  intros Hrc Hd Hcd. induction files as [|info more IH]; intros f Hnl Hr k Hk;
    [reflexivity|].
  destruct (upload_entry_confined f rc dir_real info Hrc Hnl Hr Hd Hcd)
    as (Hnl1 & Hr1 & Hout1).
  simpl. destruct (upload_entry f dir_real info) as [f1 [r|]];
    cbn [fst] in *.
  - apply Hout1, Hk.
  - rewrite (IH f1 Hnl1 Hr1 k Hk). apply Hout1, Hk.
Qed.

(** X22: in a store without symbolic links whose root is a directory, an
    upload, in the single-file form or as a batch, changes nothing
    outside the root: no file is written and no directory is created at
    a place that is not at or below the root, whatever the target
    directory and the file names are. *)
Theorem uploads_stay_below_root :
  forall (f : fs) (rc : list string) (user : option string)
         (directory : string) (files file : list file_info) (k : loc),
    no_links f = true ->
    valid_names rc = true ->
    isdir f (render rc) = true ->
    is_prefix rc k = false ->
    node_at (fst (UploadHandler_post f (render rc) user directory files file)) k
    = node_at f k.
Proof.
  intros f rc user directory files file k Hnl Hrc Hroot Hk.
  pose proof (no_links_link_free f Hnl) as Hlf.
  pose proof (isdir_rooted f rc Hlf Hrc Hroot) as Hr.
  unfold UploadHandler_post, authenticated.
  destruct (truthy user); [|reflexivity].
  set (target := realpath f (join (render rc) [directory])).
  assert (Hnt : normal_abs target)
    by (apply realpath_join_normal; reflexivity).
  destruct files as [|e files].
  - destruct file as [|info more]; [reflexivity|]. cbv zeta. fold target.
    rewrite escapes_spec; [| apply render_normal, Hrc | exact Hnt ].
    destruct (contained (render rc) target) eqn:Hc; cbn [negb orb];
      [|reflexivity].
    destruct (islink f target); [reflexivity|].
    destruct (makedirs f target) as [f1|] eqn:Em; [|reflexivity].
    destruct (makedirs_confined f rc target f1 Hnl Hr Hnt
                (or_introl (contained_below _ _ Hrc Hc)) Em)
      as (Hnl1 & Hr1 & Hout1).
    set (file_realpath := realpath f1 (join target [fst info])).
    assert (Hnf : normal_abs file_realpath)
      by (apply realpath_join_normal, normal_abs_isabs, Hnt).
    rewrite escapes_spec; [| apply render_normal, Hrc | exact Hnf ].
    destruct (contained (render rc) file_realpath) eqn:Hcf; cbn [negb orb fst];
      [|apply Hout1, Hk].
    destruct (islink f1 file_realpath); cbn [fst]; [apply Hout1, Hk|].
    destruct (write_file f1 file_realpath (snd info)) as [f2|] eqn:Ew;
      cbn [fst]; [|apply Hout1, Hk].
    destruct (write_confined f1 rc file_realpath _ f2 Hnl1 Hr1 Hnf
                (contained_below _ _ Hrc Hcf) Ew) as (_ & _ & Hout2).
    rewrite (Hout2 k Hk). apply Hout1, Hk.
  - cbv zeta. fold target.
    rewrite escapes_spec; [| apply render_normal, Hrc | exact Hnt ].
    destruct (contained (render rc) target) eqn:Hc; cbn [negb orb];
      [|reflexivity].
    destruct (islink f target); [reflexivity|].
    apply (upload_batch_confined rc target (e :: files) Hrc Hnt Hc f Hnl Hr k Hk).
Qed.

Lemma upload_outside_witness :
  node_at (fst (UploadHandler_post plain "/srv" authenticated_user "a"
                  [("../../etc/passwd", "x")] [])) ["etc"; "passwd"]
  = node_at plain ["etc"; "passwd"].
Proof.
  exact (uploads_stay_below_root plain ["srv"] authenticated_user "a"
           [("../../etc/passwd", "x")] [] ["etc"; "passwd"]
           eq_refl eq_refl eq_refl eq_refl).
Defined.

End Confinement.
